(** * atools CLI decorator: a shallow embedding of [src/atools/_cli.py]

    The development follows the source file top to bottom: the Python object
    model the code manipulates (values, type annotations, exceptions), the
    coercion engine [_Decorator._set_t], the argument-parser objects the
    decorator builds, [_Decorator._set_parameter], [_Decorator._set_entrypoint],
    [_Decorator.__call__] and [_Decoration.run]. *)

From Stdlib Require Import ZArith List String Ascii Bool Lia.
From Stdlib Require Import PrimFloat SpecFloat FloatOps Uint63.
From Equations Require Import Equations.
From stdpp Require Import base option list strings gmap pretty.

Import ListNotations.
Set Warnings "-register-all".
Local Open Scope string_scope.
Local Open Scope Z_scope.
Local Open Scope list_scope.

(** ** Exceptions and results *)

(** The exceptions that the modelled code, or the library calls it makes, can
    raise. *)
Inductive exn : Type :=
| RuntimeError
| IndexError
| KeyError (key : string)
| TypeError
| ValueError
| SyntaxError
| AttributeError
| ArgumentError
| SystemExit (code : Z).

Inductive result (A : Type) : Type :=
| Ok (a : A)
| Raise (e : exn).
Arguments Ok {A} a.
Arguments Raise {A} e.

Definition bind {A B : Type} (r : result A) (k : A -> result B) : result B :=
  match r with
  | Ok a => k a
  | Raise e => Raise e
  end.

Notation "x <- r ;; k" := (bind r (fun x => k))
  (at level 100, r at next level, right associativity).

(** Evaluates [f] on the elements of a list from left to right and stops at
    the first exception: the evaluation order of a comprehension. *)
Fixpoint traverse {A B : Type} (f : A -> result B) (xs : list A) : result (list B) :=
  match xs with
  | [] => Ok []
  | x :: xs' =>
      y <- f x;;
      ys <- traverse f xs';;
      Ok (y :: ys)
  end.

(** ** Values *)

(** The callables the code stores and calls: a function object, by reference,
    or the bound method [print_help] of a parser, by reference. *)
Inductive callable : Type :=
| Fn (ref : nat)
| PrintHelp (parser : nat).

#[global] Instance callable_eq_dec : EqDecision callable.
Proof. solve_decision. Defined.

(** The runtime values: what [ast.literal_eval] produces, declared defaults,
    the instances of user classes that the custom-type arm constructs, and the
    callables kept in a parser's defaults.  A [set], a [frozenset] and a [dict]
    are kept as the list of their elements (items) in iteration order. *)
Inductive pyvalue : Type :=
| VBool (b : bool)
| VInt (z : Z)
| VFloat (f : float)
| VStr (s : string)
| VNone
| VDict (items : list (pyvalue * pyvalue))
| VSet (elems : list pyvalue)
| VFrozenset (elems : list pyvalue)
| VList (elems : list pyvalue)
| VTuple (elems : list pyvalue)
| VObject (cls : string) (arg : pyvalue)
| VCallable (c : callable).

(** ** Classes and annotations *)

(** Class objects: the members of [_primitive_types] and [_container_types],
    [types.NoneType], and user classes, which are told apart by name. *)
Inductive tycon : Type :=
| Kbool | Kfloat | Kint | Kstr
| KNoneType
| Kdict | Kfrozenset | Klist | Kset | Ktuple
| Kclass (name : string).

#[global] Instance tycon_eq_dec : EqDecision tycon.
Proof. solve_decision. Defined.

(** A type annotation [t], as [typing.get_origin] and [typing.get_args] see it:
    a bare class ([int], [tuple]), the constant [None], a parameterised generic
    ([list[int]], [tuple[()]]), a union ([A | B], [typing.Union[A, B]]), the
    [...] that closes [tuple[A, ...]], or [inspect.Parameter.empty] for a
    parameter without annotation. *)
Inductive texpr : Type :=
| TClass (c : tycon)
| TNone
| TEllipsis
| TEmpty
| TAlias (origin : tycon) (args : list texpr)
| TUnion (args : list texpr).

(** The second subject of the [match] in [_set_t]:
    [typing.get_origin(t) or t]. *)
Inductive origin : Type :=
| OClass (c : tycon)
| ONone
| OEllipsis
| OEmpty
| OUnion.

Definition type_of (v : pyvalue) : tycon :=
  match v with
  | VBool _ => Kbool
  | VInt _ => Kint
  | VFloat _ => Kfloat
  | VStr _ => Kstr
  | VNone => KNoneType
  | VDict _ => Kdict
  | VSet _ => Kset
  | VFrozenset _ => Kfrozenset
  | VList _ => Klist
  | VTuple _ => Ktuple
  | VObject cls _ => Kclass cls
  | VCallable (Fn _) => Kclass "function"
  | VCallable (PrintHelp _) => Kclass "method"
  end.

Definition get_origin (t : texpr) : option origin :=
  match t with
  | TAlias o _ => Some (OClass o)
  | TUnion _ => Some OUnion
  | _ => None
  end.

Definition get_args (t : texpr) : list texpr :=
  match t with
  | TAlias _ args => args
  | TUnion args => args
  | _ => []
  end.

(** [typing.get_origin(t) or t] *)
Definition origin_or_self (t : texpr) : origin :=
  match get_origin t with
  | Some o => o
  | None =>
      match t with
      | TClass c => OClass c
      | TNone => ONone
      | TEllipsis => OEllipsis
      | _ => OEmpty
      end
  end.

(** [_Decorator._container_types], [_primitive_types] and [_types] *)
Definition _container_types : list tycon := [Kdict; Kfrozenset; Klist; Kset; Ktuple].
Definition _primitive_types : list tycon := [Kbool; Kfloat; Kint; Kstr].
Definition _types : list tycon := _container_types ++ _primitive_types.

Definition in_types (c : tycon) : bool := bool_decide (c ∈ _types).

Definition origin_in_types (o : origin) : bool :=
  match o with
  | OClass c => in_types c
  | _ => false
  end.

(** [V in As]: a class object equals an annotation only when the annotation
    is that bare class. *)
Definition class_in_args (V : tycon) (As : list texpr) : bool :=
  existsb (fun A => match A with TClass c => bool_decide (V = c) | _ => false end) As.

(** ** Equality and hashing of values *)

(** [x == z] for a float [x] and an int [z]: exact comparison of the two
    numbers. *)
Definition float_eq_Z (f : float) (z : Z) : bool :=
  match Prim2SF f with
  | S754_zero _ => Z.eqb z 0
  | S754_finite s m e =>
      let n := if s then Z.neg m else Z.pos m in
      if Z.leb 0 e then Z.eqb z (n * 2 ^ e) else Z.eqb (z * 2 ^ (- e)) n
  | _ => false
  end.

Definition Z_of_bool (b : bool) : Z := if b then 1 else 0.

(** Whether two lists have the same length and related elements. *)
Fixpoint all2 {A B : Type} (f : A -> B -> bool) (xs : list A) (ys : list B) : bool :=
  match xs, ys with
  | [], [] => true
  | x :: xs', y :: ys' => f x y && all2 f xs' ys'
  | _, _ => false
  end.

(** Python's [==] on the modelled values.  [bool], [int] and [float] compare as
    numbers; a [set] and a [frozenset] with the same elements are equal; dicts
    compare without regard to order; an instance of a user class is taken to
    compare by class and constructor argument. *)
Fixpoint py_eq (v w : pyvalue) {struct v} : bool :=
  match v, w with
  | VBool a, VBool b => Bool.eqb a b
  | VBool a, VInt z => Z.eqb (Z_of_bool a) z
  | VBool a, VFloat f => float_eq_Z f (Z_of_bool a)
  | VInt z, VBool b => Z.eqb z (Z_of_bool b)
  | VInt a, VInt b => Z.eqb a b
  | VInt z, VFloat f => float_eq_Z f z
  | VFloat f, VBool b => float_eq_Z f (Z_of_bool b)
  | VFloat f, VInt z => float_eq_Z f z
  | VFloat f, VFloat g => PrimFloat.eqb f g
  | VStr s, VStr t => String.eqb s t
  | VNone, VNone => true
  | VList xs, VList ys => all2 py_eq xs ys
  | VTuple xs, VTuple ys => all2 py_eq xs ys
  | (VSet xs | VFrozenset xs), (VSet ys | VFrozenset ys) =>
      Nat.eqb (length xs) (length ys) && forallb (fun x => existsb (py_eq x) ys) xs
  | VDict xs, VDict ys =>
      Nat.eqb (length xs) (length ys)
      && forallb (fun kx : pyvalue * pyvalue =>
                    let (k, x) := kx in
                    existsb (fun ky => py_eq k (fst ky) && py_eq x (snd ky)) ys) xs
  | VObject c x, VObject d y => String.eqb c d && py_eq x y
  | VCallable c, VCallable d => bool_decide (c = d)
  | _, _ => false
  end.

(** Whether [hash(v)] succeeds: lists, sets and dicts are unhashable, a tuple
    is hashable when its elements are.  The instances of user classes are
    taken to be hashable: a class that defines [__eq__] and no [__hash__] is
    outside the model. *)
Fixpoint hashable (v : pyvalue) : bool :=
  match v with
  | VDict _ | VSet _ | VList _ => false
  | VTuple xs => forallb hashable xs
  | _ => true
  end.

(** Adding an element to a set under construction: [TypeError] for an
    unhashable element, no change when an equal element is there. *)
Definition set_add (x : pyvalue) (s : list pyvalue) : result (list pyvalue) :=
  if hashable x then Ok (if existsb (fun y => py_eq y x) s then s else s ++ [x])
  else Raise TypeError.

(** [d[k] = x] on a dict under construction: an equal key keeps its place and
    takes the new value. *)
Fixpoint dict_set (k x : pyvalue) (d : list (pyvalue * pyvalue)) : list (pyvalue * pyvalue) :=
  match d with
  | [] => [(k, x)]
  | (k', x') :: d' => if py_eq k' k then (k', x) :: d' else (k', x') :: dict_set k x d'
  end.

Definition dict_add (k x : pyvalue) (d : list (pyvalue * pyvalue)) : result (list (pyvalue * pyvalue)) :=
  if hashable k then Ok (dict_set k x d) else Raise TypeError.

(** A set comprehension [{f(x) for x in xs}], accumulating into [acc]. *)
Fixpoint set_comprehension (f : pyvalue -> result pyvalue) (xs acc : list pyvalue)
  : result (list pyvalue) :=
  match xs with
  | [] => Ok acc
  | x :: xs' =>
      y <- f x;;
      acc' <- set_add y acc;;
      set_comprehension f xs' acc'
  end.

(** A dict comprehension [{f(k): g(x) for k, x in items}]: for each item the
    key is evaluated before the value. *)
Fixpoint dict_comprehension (f g : pyvalue -> result pyvalue)
    (items acc : list (pyvalue * pyvalue)) : result (list (pyvalue * pyvalue)) :=
  match items with
  | [] => Ok acc
  | (k, x) :: items' =>
      k' <- f k;;
      x' <- g x;;
      acc' <- dict_add k' x' acc;;
      dict_comprehension f g items' acc'
  end.

(** ** The interpreter services the code calls *)

(** What the code takes from the interpreter and its standard library without
    defining it: [ast.literal_eval], the call [T(value)] of a user class [T] on
    one argument, and [format(value, '')] as used by an f-string. *)
Class PyRuntime : Type := {
  literal_eval : string -> result pyvalue;
  construct : string -> pyvalue -> result pyvalue;
  py_str : pyvalue -> string
}.

(** ** The coercion engine: [_Decorator._set_t] *)

Fixpoint texpr_size (t : texpr) : nat :=
  match t with
  | TAlias _ args => S (fold_right (fun a n => (texpr_size a + n)%nat) 0%nat args)
  | TUnion args => S (fold_right (fun a n => (texpr_size a + n)%nat) 0%nat args)
  | _ => 1%nat
  end.

(** The custom-type arm calls [T(value)].  Only a user class can be called
    with success; [None], [types.NoneType], [...], a union and
    [inspect.Parameter.empty] raise [TypeError] when called with one argument. *)
Definition call_origin `{PyRuntime} (T : origin) (v : pyvalue) : result pyvalue :=
  match T with
  | OClass (Kclass name) => construct name v
  | _ => Raise TypeError
  end.

(** The [case] of the [match] statement of [_set_t] that is taken, with the
    names it binds. *)
Inductive set_t_case : Type :=
| CasePrimitive
| CaseNone
| CaseUnion
| CaseDict (A0 A1 : texpr)
| CaseFrozenset (A : texpr)
| CaseList (A : texpr)
| CaseSet (A : texpr)
| CaseTupleEllipsis (A0 : texpr)
| CaseTuple (A0 : texpr) (As : list texpr)
| CaseTupleEmpty
| CaseCustom (T : origin)
| CaseOther.

(** The last two cases: [case V, T, _ if V in cls._types and T not in
    cls._types] and [case _]. *)
Definition custom_or_other (V : tycon) (T : origin) : set_t_case :=
  if in_types V && negb (origin_in_types T) then CaseCustom T else CaseOther.

(** [match type(value), typing.get_origin(t) or t, typing.get_args(t)]: the
    cases in the order of the source; a subject that no earlier case takes
    (also a union whose guard [V in As] fails) reaches the last two. *)
Definition match_case (V : tycon) (T : origin) (As : list texpr) : set_t_case :=
  match V, T, As with
  | Kbool, OClass Kbool, [] => CasePrimitive
  | Kfloat, OClass Kfloat, [] => CasePrimitive
  | Kint, OClass Kint, [] => CasePrimitive
  | Kstr, OClass Kstr, [] => CasePrimitive
  | KNoneType, (ONone | OClass KNoneType), [] => CaseNone
  | V, OUnion, As => if class_in_args V As then CaseUnion else custom_or_other V OUnion
  | Kdict, OClass Kdict, [A0; A1] => CaseDict A0 A1
  | Kset, OClass Kfrozenset, [A] => CaseFrozenset A
  | Klist, OClass Klist, [A] => CaseList A
  | Kset, OClass Kset, [A] => CaseSet A
  | Ktuple, OClass Ktuple, [A0; TEllipsis] => CaseTupleEllipsis A0
  | Ktuple, OClass Ktuple, A0 :: As => CaseTuple A0 As
  | Ktuple, OClass Ktuple, [] => CaseTupleEmpty
  | V, T, _ => custom_or_other V T
  end.

(** The elements a container value iterates over ([value.items()] for a
    dict). *)
Definition items_of (v : pyvalue) : list (pyvalue * pyvalue) :=
  match v with
  | VDict items => items
  | _ => []
  end.

Definition elems_of (v : pyvalue) : list pyvalue :=
  match v with
  | VSet xs | VFrozenset xs | VList xs | VTuple xs => xs
  | VDict items => map fst items
  | _ => []
  end.

(** [value[0]] on a tuple: [IndexError] when it is empty. *)
Definition getitem0 (v : pyvalue) : result pyvalue :=
  match elems_of v with
  | x :: _ => Ok x
  | [] => Raise IndexError
  end.

(** [value[1:]] on a tuple. *)
Definition slice_from1 (v : pyvalue) : pyvalue := VTuple (tail (elems_of v)).

(** Termination of [_set_t]: every recursive call is on a type argument of
    [t], or on [tuple[*As]] for a proper suffix [As] of its arguments.  The
    tactic reads the arguments off the equation [e] that selects the case. *)
Ltac set_t_decreases e :=
  match type of e with
  | match_case ?V ?T (get_args ?t) = _ =>
      let As := fresh "As" in
      let HAs := fresh "HAs" in
      remember (get_args t) as As eqn:HAs;
      unfold match_case, custom_or_other in e;
      destruct T as [[]| | | |]; destruct V;
      try (destruct (class_in_args _ As));
      try (destruct As as [|? [|[] [|? ?]]]);
      simpl in e; try discriminate e;
      try (destruct (in_types _); discriminate e);
      simplify_eq;
      destruct t; simplify_eq/=;
      repeat match goal with
             | |- context [texpr_size ?A] =>
                 is_var A; assert (0 < texpr_size A)%nat by (destruct A; simpl; lia);
                 generalize dependent (texpr_size A); intros
             end;
      lia
  end.

(** Keeps the equation between a subject and the case it matches. *)
Definition inspect {A : Type} (x : A) : {y : A | x = y} := exist _ x eq_refl.

Section SetT.
Context `{PyRuntime}.

(** [_Decorator._set_t(value, t)] *)
Equations? _set_t (value : pyvalue) (t : texpr) : result pyvalue
  by wf (texpr_size t) lt :=
  _set_t value t
    with inspect (match_case (type_of value) (origin_or_self t) (get_args t)) := {
    | exist _ CasePrimitive e => Ok value
    | exist _ CaseNone e => Ok value
    | exist _ CaseUnion e => Ok value
    | exist _ (CaseDict A0 A1) e =>
        items <- dict_comprehension (fun key => _set_t key A0)
                   (fun sub_value => _set_t sub_value A1) (items_of value) [];;
        Ok (VDict items)
    | exist _ (CaseFrozenset A) e =>
        elems <- set_comprehension (fun sub_value => _set_t sub_value A)
                   (elems_of value) [];;
        Ok (VFrozenset elems)
    | exist _ (CaseList A) e =>
        elems <- traverse (fun value => _set_t value A) (elems_of value);;
        Ok (VList elems)
    | exist _ (CaseSet A) e =>
        elems <- set_comprehension (fun value => _set_t value A) (elems_of value) [];;
        Ok (VSet elems)
    | exist _ (CaseTupleEllipsis A0) e =>
        elems <- traverse (fun sub_value => _set_t sub_value A0) (elems_of value);;
        Ok (VTuple elems)
    | exist _ (CaseTuple A0 As) e =>
        first <- getitem0 value;;
        head <- _set_t first A0;;
        rest <- _set_t (slice_from1 value) (TAlias Ktuple As);;
        Ok (VTuple (head :: elems_of rest))
    | exist _ CaseTupleEmpty e => Ok (VTuple [])
    | exist _ (CaseCustom T) e => call_origin T value
    | exist _ CaseOther e => Raise RuntimeError }.
Proof.
  all: set_t_decreases e.
Qed.

End SetT.

(** [t is str] *)
Definition is_str (t : texpr) : bool :=
  match t with
  | TClass Kstr => true
  | _ => false
  end.

(** The converter that [_set_parameter] installs as [flag.type]:
    [lambda value: cls._set_t(value=value if t is str else
    ast.literal_eval(value), t=t)] *)
Definition flag_type `{PyRuntime} (t : texpr) : string -> result pyvalue :=
  fun value =>
    arg <- (if is_str t then Ok (VStr value) else literal_eval value);;
    _set_t arg t.

(** ** Signatures: [inspect.Parameter] *)

Inductive kind : Type :=
| POSITIONAL_ONLY
| POSITIONAL_OR_KEYWORD
| VAR_POSITIONAL
| KEYWORD_ONLY
| VAR_KEYWORD.

#[global] Instance kind_eq_dec : EqDecision kind.
Proof. solve_decision. Defined.

(** A parameter annotation: a type, possibly wrapped as
    [typing.Annotated[t, metadata]].  The metadata is any object; the code
    reads the first one, [get_args(t)[1]]. *)
Inductive annotation : Type :=
| Plain (t : texpr)
| Annotated (t : texpr) (metadata : pyvalue).

(** [p_default = None] stands for [inspect.Parameter.empty]. *)
Record Param : Type := {
  p_name : string;
  p_kind : kind;
  p_default : option pyvalue;
  p_annotation : annotation
}.

(** ** String operations used by the code *)

(** [s.replace(a, b)] for single characters *)
Fixpoint replace (a b : ascii) (s : string) : string :=
  match s with
  | EmptyString => EmptyString
  | String c s' => String (if Ascii.eqb c a then b else c) (replace a b s')
  end.

(** [s.lstrip(c)] *)
Fixpoint lstrip (c : ascii) (s : string) : string :=
  match s with
  | String d s' => if Ascii.eqb d c then lstrip c s' else s
  | EmptyString => EmptyString
  end.

(** [s.startswith(p)] *)
Definition startswith (s p : string) : bool := String.prefix p s.

(** [sep.join(parts)]: every part must be a [str]. *)
Definition join (sep : string) (parts : list pyvalue) : result string :=
  strings <- traverse (fun part => match part with
                                   | VStr s => Ok s
                                   | _ => Raise TypeError
                                   end) parts;;
  Ok (String.concat sep strings).

(** [a or b] on two documentation strings: [None] and the empty string are
    false. *)
Definition doc_or (a b : option string) : option string :=
  match a with
  | Some EmptyString | None => b
  | Some _ => a
  end.

(** ** The objects the code creates and mutates *)

Inductive nargs : Type :=
| OPTIONAL.

(** The callable kept in [flag.type].  The decorator installs one kind only,
    the closure [lambda value: cls._set_t(value=value if t is str else
    ast.literal_eval(value), t=t)]: it is kept as the annotation [t] that it
    closes over, and [flag_type] is what calling it computes. *)
Inductive converter : Type :=
| Converter (t : texpr).

(** An [argparse.Action] as returned by [add_argument]: the attributes that
    [_set_parameter] reads or assigns. *)
Record Action : Type := {
  dest : string;
  option_strings : list string;
  required : bool;
  default : pyvalue;
  a_nargs : option nargs;
  help : option string;
  type : option converter
}.

(** One subcommand registered with [subparsers.add_parser]: its name, the
    [help] keyword ([None] when it is not passed: such a subcommand is left out
    of the listing) and the parser created for it. *)
Record subcommand : Type := {
  sc_name : string;
  sc_help : option (option string);
  sc_parser : nat
}.

(** The actions of a parser, in registration order: the [-h]/[--help] action
    every parser starts with, the arguments, and the subparsers action. *)
Inductive action : Type :=
| Help
| Argument (a : Action)
| SubParsers (choices : list subcommand).

Record ArgumentParser : Type := {
  description : option string;
  _defaults : gmap string pyvalue;
  _actions : list action
}.

(** [_Decoration]: the value attached at [<entrypoint>.cli]. *)
Record _Decoration : Type := { _parser : nat }.

(** A module, with what the decorator reads from it: its name, package,
    documentation string, the functions it defines (by reference), and for a
    package the submodules that [pkgutil.iter_modules] lists, each with the
    module that [importlib.import_module] returns for it. *)
Inductive module : Type :=
| Module (mod_name mod_package : string) (mod_doc : option string)
    (mod_attrs : list (string * nat)) (mod_path : list (string * module)).

Definition mod_name (m : module) : string := let 'Module n _ _ _ _ := m in n.
Definition mod_package (m : module) : string := let 'Module _ p _ _ _ := m in p.
Definition mod_doc (m : module) : option string := let 'Module _ _ d _ _ := m in d.
Definition mod_attrs (m : module) : list (string * nat) := let 'Module _ _ _ a _ := m in a.
Definition mod_path (m : module) : list (string * module) := let 'Module _ _ _ _ s := m in s.

(** A function object.  [fn_body] is what a call computes from its positional
    and keyword arguments; [cli] is the attribute the decorator attaches. *)
Record function : Type := {
  fn_name : string;
  fn_doc : option string;
  fn_module : module;
  fn_signature : list Param;
  fn_iscoroutinefunction : bool;
  fn_body : list pyvalue -> list (string * pyvalue) -> result pyvalue;
  cli : option _Decoration
}.

(** A call of an entrypoint, as the caller observes it. *)
Record call : Type := {
  callee : callable;
  call_args : list pyvalue;
  call_kwargs : list (string * pyvalue)
}.

(** The interpreter state: the function objects and parsers in existence,
    [sys.argv], the parsers whose help was printed, and the calls made so
    far (latest last). *)
Record state : Type := {
  functions : list function;
  parsers : list ArgumentParser;
  sys_argv : list string;
  printed : list nat;
  calls : list call
}.

(** ** Stateful computations *)

(** A computation that reads and updates the interpreter state and may raise;
    the state reached when an exception is raised is kept. *)
Definition M (A : Type) : Type := state -> result A * state.

Definition ret {A : Type} (a : A) : M A := fun st => (Ok a, st).

Definition lift {A : Type} (r : result A) : M A := fun st => (r, st).

Definition mbind {A B : Type} (m : M A) (k : A -> M B) : M B :=
  fun st =>
    match m st with
    | (Ok a, st') => k a st'
    | (Raise e, st') => (Raise e, st')
    end.

Notation "x <~ m ;; k" := (mbind m (fun x => k))
  (at level 100, m at next level, right associativity).

(** [for x in xs: body(x)] *)
Fixpoint for_each {A : Type} (xs : list A) (body : A -> M unit) : M unit :=
  match xs with
  | [] => ret tt
  | x :: xs' => _ <~ body x;; for_each xs' body
  end.

#[global] Instance ArgumentParser_inhabited : Inhabited ArgumentParser :=
  populate {| description := None; _defaults := ∅; _actions := [] |}.

#[global] Instance function_inhabited : Inhabited function :=
  populate {| fn_name := ""; fn_doc := None; fn_module := Module "" "" None [] [];
              fn_signature := []; fn_iscoroutinefunction := false;
              fn_body := fun _ _ => Ok VNone; cli := None |}.

Definition get_parser (parser : nat) : M ArgumentParser :=
  fun st => (Ok (parsers st !!! parser), st).

Definition put_parser (parser : nat) (p : ArgumentParser) : M unit :=
  fun st => (Ok tt, {| functions := functions st;
                       parsers := <[parser := p]> (parsers st);
                       sys_argv := sys_argv st; printed := printed st;
                       calls := calls st |}).

Definition get_function (ref : nat) : M function :=
  fun st => (Ok (functions st !!! ref), st).

(** ** The operations of [argparse] that the decorator calls *)

(** [argparse.ArgumentParser(description=description)]: a new parser object,
    holding its [-h]/[--help] action. *)
Definition new_parser (description : option string) : M nat :=
  fun st =>
    (Ok (length (parsers st)),
     {| functions := functions st;
        parsers := parsers st ++
          [{| description := description; _defaults := ∅; _actions := [Help] |}];
        sys_argv := sys_argv st; printed := printed st; calls := calls st |}).

(** [action.default = value] for an action that is stored under [key]; the
    help action is stored under [help] and the subparsers action under no
    name. *)
Definition set_default (key : string) (value : pyvalue) (a : action) : action :=
  match a with
  | Argument a =>
      if String.eqb (dest a) key
      then Argument {| dest := dest a; option_strings := option_strings a;
                       required := required a; default := value;
                       a_nargs := a_nargs a; help := help a; type := type a |}
      else Argument a
  | _ => a
  end.

(** [parser.set_defaults(entrypoint=entrypoint)]: the parser-level default,
    which also replaces the default of the actions already stored under that
    name. *)
Definition set_defaults (parser : nat) (entrypoint : callable) : M unit :=
  p <~ get_parser parser;;
  put_parser parser
    {| description := description p;
       _defaults := <["entrypoint" := VCallable entrypoint]> (_defaults p);
       _actions := map (set_default "entrypoint" (VCallable entrypoint)) (_actions p) |}.

Definition action_option_strings (a : action) : list string :=
  match a with
  | Help => ["-h"; "--help"]
  | Argument a => option_strings a
  | SubParsers _ => []
  end.

Definition parser_option_strings (p : ArgumentParser) : list string :=
  concat (map action_option_strings (_actions p)).

(** The default of a new action, when [add_argument] is given none: the
    parser-level default for its [dest] if [set_defaults] has set one, else
    [None]. *)
Definition parser_default (parser : ArgumentParser) (dest : string) : pyvalue :=
  match _defaults parser !! dest with
  | Some value => value
  | None => VNone
  end.

(** [parser.add_argument(name_or_flag)]: the action object that the call
    creates.  A name that does not start with [-] gives a required positional
    argument; a flag gives an option whose [dest] is the flag without its
    leading hyphens and with the other hyphens turned into underscores.  A flag
    that the parser already has is refused. *)
Definition add_argument (parser : ArgumentParser) (name_or_flag : string)
  : result Action :=
  if startswith name_or_flag "-" then
    let dest := replace "-" "_" (lstrip "-" name_or_flag) in
    if String.eqb dest "" then Raise ValueError
    else if bool_decide (name_or_flag ∈ parser_option_strings parser)
    then Raise ArgumentError
    else Ok {| dest := dest; option_strings := [name_or_flag]; required := false;
               default := parser_default parser dest; a_nargs := None;
               help := None; type := None |}
  else
    Ok {| dest := name_or_flag; option_strings := []; required := true;
          default := parser_default parser name_or_flag; a_nargs := None;
          help := None; type := None |}.

Definition with_actions (parser : ArgumentParser) (actions : list action)
  : ArgumentParser :=
  {| description := description parser; _defaults := _defaults parser;
     _actions := actions |}.

(** The parser once the action object [flag] is registered in it. *)
Definition register (parser : ArgumentParser) (flag : Action) : ArgumentParser :=
  with_actions parser (_actions parser ++ [Argument flag]).

Definition has_subparsers (p : ArgumentParser) : bool :=
  existsb (fun a => match a with SubParsers _ => true | _ => false end) (_actions p).

(** [parser.add_subparsers(title='subcommands', metavar='{subcommand}')]; the
    subparsers object is reached through its parser. *)
Definition add_subparsers (parser : nat) : M nat :=
  p <~ get_parser parser;;
  if has_subparsers p then lift (Raise (SystemExit 2))
  else
    _ <~ put_parser parser (with_actions p (_actions p ++ [SubParsers []]));;
    ret parser.

Definition add_choice (c : subcommand) (a : action) : action :=
  match a with
  | SubParsers choices => SubParsers (choices ++ [c])
  | _ => a
  end.

(** [subparsers.add_parser(name=name, description=description, help=help)]:
    creates the parser of a subcommand and registers it; [help = None] when
    the keyword is not passed. *)
Definition add_parser (subparsers : nat) (name : string)
    (description : option string) (help : option (option string)) : M nat :=
  sub_parser <~ new_parser description;;
  p <~ get_parser subparsers;;
  _ <~ put_parser subparsers
    (with_actions p
       (map (add_choice {| sc_name := name; sc_help := help; sc_parser := sub_parser |})
          (_actions p)));;
  ret sub_parser.

(** ** [_Decorator] *)

Record _Decorator : Type := { submodules : bool }.

Section Decorator.
Context `{PyRuntime}.

(** [_Decorator._set_parameter(parser=parser, parameter=parameter)]: what
    the call returns or raises, and the parser as the call leaves it.  [flag]
    is the action object that [add_argument] has put in the parser, so the
    assignments to its attributes are seen through the parser: the parser
    holds the action as assigned so far, which is without [help] and [type]
    when [' '.join(help_parts)] raises. *)
Definition _set_parameter (parser : ArgumentParser) (parameter : Param)
  : result unit * ArgumentParser :=
  match
    match p_kind parameter, p_default parameter with
    | POSITIONAL_ONLY, _ => add_argument parser (p_name parameter)
    | POSITIONAL_OR_KEYWORD, None => add_argument parser (p_name parameter)
    | POSITIONAL_OR_KEYWORD, Some _ =>
        add_argument parser ("--" +:+ replace "_" "-" (p_name parameter))
    | KEYWORD_ONLY, _ =>
        add_argument parser ("--" +:+ replace "_" "-" (p_name parameter))
    | _, _ => Raise RuntimeError
    end
  with
  | Raise e => (Raise e, parser)
  | Ok flag =>
      let '(t, help_parts) :=
        match p_annotation parameter with
        | Annotated t metadata => (t, [metadata])
        | Plain t => (t, [])
        end in
      let '(required, default, help_parts, nargs) :=
        match p_default parameter with
        | None => (true, default flag, help_parts, a_nargs flag)
        | Some d =>
            (required flag, d, help_parts ++ [VStr ("Default: " +:+ py_str d)],
             Some OPTIONAL)
        end in
      match join " " help_parts with
      | Raise e =>
          (Raise e,
           register parser
             {| dest := dest flag; option_strings := option_strings flag;
                required := required; default := default; a_nargs := nargs;
                help := help flag; type := type flag |})
      | Ok text =>
          (Ok tt,
           register parser
             {| dest := dest flag; option_strings := option_strings flag;
                required := required; default := default; a_nargs := nargs;
                help := Some text; type := Some (Converter t) |})
      end
  end.

(** [self._set_entrypoint(parser=parser, entrypoint=entrypoint)]; the parser
    object keeps what a call of [_set_parameter] has done to it, also when
    that call raises. *)
Definition _set_entrypoint (parser entrypoint : nat) : M unit :=
  _ <~ set_defaults parser (Fn entrypoint);;
  f <~ get_function entrypoint;;
  for_each (fn_signature f) (fun parameter =>
    p <~ get_parser parser;;
    let '(r, p') := _set_parameter p parameter in
    _ <~ put_parser parser p';;
    lift r).

(** An element of [stack] in [__call__]: [(parser, module, entrypoint)], the
    entrypoint being [None] for a module without a function of that name. *)
Definition frame : Type := nat * module * option nat.

(** [getattr(sub_module, name, None)] *)
Definition getattr (m : module) (name : string) : option nat :=
  snd <$> List.find (fun a => String.eqb (fst a) name) (mod_attrs m).

(** The [for _, name, _ in pkgutil.iter_modules(path=module.__path__)] loop of
    [__call__]; a list stands for [stack] with its last element first, so
    [stack.append] puts a frame in front. *)
Fixpoint push_submodules (subparsers : nat) (decorated_name : string)
    (path : list (string * module)) (stack : list frame) : M (list frame) :=
  match path with
  | [] => ret stack
  | (name, sub_module) :: path' =>
      sub_parser <~
        (if startswith name "_"
         then add_parser subparsers name (mod_doc sub_module) None
         else add_parser subparsers name (mod_doc sub_module) (Some (Some "")));;
      _ <~ set_defaults sub_parser (PrintHelp sub_parser);;
      let sub_entrypoint := getattr sub_module decorated_name in
      push_submodules subparsers decorated_name path'
        ((sub_parser, sub_module, sub_entrypoint) :: stack)
  end.

(** The body of the [while stack] loop after [stack.pop()] has returned
    [(parser, module, entrypoint)]; returns the stack for the next round. *)
Definition loop_body (self : _Decorator) (decorated_name : string)
    (top : frame) (stack : list frame) : M (list frame) :=
  let '(parser, module, entrypoint) := top in
  r <~
    (if submodules self && String.eqb (mod_name module) (mod_package module)
     then
       (* This is a package. *)
       subparsers <~ add_subparsers parser;;
       stack <~ push_submodules subparsers decorated_name (mod_path module) stack;;
       match entrypoint with
       | Some e =>
           f <~ get_function e;;
           parser <~ add_parser subparsers "." None
                       (Some (doc_or (fn_doc f) (mod_doc module)));;
           ret (parser, stack)
       | None => ret (parser, stack)
       end
     else ret (parser, stack));;
  let '(parser, stack) := r in
  _ <~ match entrypoint with
       | Some e => _set_entrypoint parser e
       | None => ret tt
       end;;
  ret stack.

Fixpoint module_size (m : module) : nat :=
  match m with
  | Module _ _ _ _ path =>
      S ((fix sizes (l : list (string * module)) : nat :=
            match l with
            | [] => 0
            | (_, m') :: l' => module_size m' + sizes l'
            end) path)
  end%nat.

Definition stack_size (stack : list frame) : nat :=
  list_sum (map (fun fr : frame => module_size (snd (fst fr))) stack).

Definition path_size (path : list (string * module)) : nat :=
  list_sum (map (fun sub => module_size (snd sub)) path).

(** Splits the result of a stateful step in a hypothesis. *)
Ltac step_in E :=
  unfold mbind at 1 in E;
  match type of E with
  | context [match ?m ?st with _ => _ end] =>
      let r := fresh "r" in
      let st' := fresh "st" in
      let E' := fresh "E" in
      destruct (m st) as [[r|?] st'] eqn:E'; [|discriminate E]
  end.

(** [while stack: ...] of [__call__].  Each round takes one module off the
    stack and puts its submodules on it, so the modules on the stack get
    fewer. *)
Equations? while_stack (self : _Decorator) (decorated_name : string)
    (stack : list frame) (st : state) : result unit * state
  by wf (stack_size stack) lt :=
  while_stack self decorated_name [] st := (Ok tt, st);
  while_stack self decorated_name (top :: stack) st
    with inspect (loop_body self decorated_name top stack st) := {
    | exist _ (Ok stack', st') e => while_stack self decorated_name stack' st'
    | exist _ (Raise ex, st') e => (Raise ex, st') }.
Proof.
  assert (Hpush : forall sp path stk s stk' s',
             push_submodules sp decorated_name path stk s = (Ok stk', s') ->
             stack_size stk' = (stack_size stk + path_size path)%nat).
  { induction path as [|[name sub] path IH]; simpl; intros stk s stk' s' E.
    - injection E as <- _. unfold path_size; simpl; lia.
    - do 2 step_in E. apply IH in E. rewrite E.
      unfold stack_size, path_size; simpl; lia. }
  assert (Hmod : forall m, module_size m = S (path_size (mod_path m))).
  { intros [? ? ? ? path]; simpl; f_equal. unfold path_size.
    induction path as [|[? ?] path IH]; simpl; [reflexivity|]. f_equal. exact IH. }
  destruct top as [[parser module] entrypoint].
  unfold loop_body in e. step_in e. destruct r as [parser' stk].
  assert (stack_size stk < stack_size ((parser, module, entrypoint) :: stack))%nat
    as Hlt.
  { change (stack_size ((parser, module, entrypoint) :: stack))
      with (module_size module + stack_size stack)%nat.
    rewrite Hmod.
    destruct (submodules self && String.eqb (mod_name module) (mod_package module)).
    - do 2 step_in E. apply Hpush in E1.
      destruct entrypoint; [do 2 step_in E|]; injection E as _ <- _; lia.
    - injection E as _ <- _. lia. }
  step_in e. injection e as <- _. exact Hlt.
Qed.

(** [_Decorator.__call__(self, entrypoint)]: the decorator applied to the
    function object [entrypoint]. *)
Definition __call__ (self : _Decorator) (entrypoint : nat) : M nat :=
  f <~ get_function entrypoint;;
  let module := fn_module f in
  parser <~ new_parser (doc_or (fn_doc f) (mod_doc module));;
  _ <~ set_defaults parser (PrintHelp parser);;
  (* entrypoint.cli = _Decoration(_parser=parser) *)
  _ <~ (fun st =>
          (Ok tt,
           {| functions :=
                <[entrypoint :=
                    {| fn_name := fn_name f; fn_doc := fn_doc f;
                       fn_module := fn_module f; fn_signature := fn_signature f;
                       fn_iscoroutinefunction := fn_iscoroutinefunction f;
                       fn_body := fn_body f;
                       cli := Some {| _parser := parser |} |}]> (functions st);
              parsers := parsers st; sys_argv := sys_argv st;
              printed := printed st; calls := calls st |}));;
  let decorated := entrypoint in
  _ <~ while_stack self (fn_name f) [(parser, module, Some entrypoint)];;
  ret decorated.

End Decorator.

(** ** The flag-parsing collaborator: [ArgumentParser.parse_args]

    A model of what [argparse] does with the parsers that the decorator builds:
    options are recognised by their full flag, by a unique prefix of it or as
    [--flag=value]; an option takes the next token as its value when that
    token is not itself an option; the other tokens go to the positional
    arguments in registration order; a subcommand hands the remaining tokens
    to its own parser, whose results override the parent's.  Clusters of
    single-dash options and the [--] separator are outside the model. *)

Definition namespace : Type := gmap string pyvalue.

Section Run.
Context `{PyRuntime}.

Definition is_digit (c : ascii) : bool :=
  let n := nat_of_ascii c in (Nat.leb 48 n && Nat.leb n 57)%bool.

Fixpoint all_digits (s : string) : bool :=
  match s with
  | EmptyString => true
  | String c s' => is_digit c && all_digits s'
  end.

Fixpoint split_at (sep : ascii) (s : string) : string * option string :=
  match s with
  | EmptyString => (EmptyString, None)
  | String c s' =>
      if Ascii.eqb c sep then (EmptyString, Some s')
      else let '(a, b) := split_at sep s' in (String c a, b)
  end.

Definition contains (c : ascii) (s : string) : bool :=
  match snd (split_at c s) with Some _ => true | None => false end.

(** argparse's pattern for a negative number: [-\d+] or [-\d*\.\d+] *)
Definition negative_number (s : string) : bool :=
  match s with
  | String "-" s' =>
      match split_at "." s' with
      | (a, None) => negb (String.eqb a "") && all_digits a
      | (a, Some b) => all_digits a && negb (String.eqb b "") && all_digits b
      end
  | _ => false
  end.

(** How [argparse] reads one token. *)
Inductive token : Type :=
| Positional
| Flag (a : action) (explicit_arg : option string)
| Ambiguous
| Unrecognized.

Definition option_candidates (p : ArgumentParser) (prefix : string) : list action :=
  List.filter (fun a => existsb (fun o => startswith o prefix) (action_option_strings a))
    (_actions p).

Definition exact_option (p : ArgumentParser) (arg : string) : option action :=
  List.find (fun a => bool_decide (arg ∈ action_option_strings a)) (_actions p).

Definition parse_optional (p : ArgumentParser) (arg : string) : token :=
  if negb (startswith arg "-") then Positional
  else match exact_option p arg with
  | Some a => Flag a None
  | None =>
      if String.eqb arg "-" then Positional
      else
        let '(prefix, explicit_arg) := split_at "=" arg in
        match explicit_arg, exact_option p prefix with
        | Some _, Some a => Flag a explicit_arg
        | _, _ =>
            match (if startswith arg "--" then option_candidates p prefix else []) with
            | [a] => Flag a explicit_arg
            | _ :: _ :: _ => Ambiguous
            | [] =>
                if negative_number arg then Positional
                else if contains " " arg then Positional
                else Unrecognized
            end
        end
  end.

(** [_get_value]: the action's [type] applied to a token; [argparse] turns a
    [TypeError] or [ValueError] of the converter into its own error exit and
    lets any other exception through. *)
Definition get_value (a : Action) (arg_string : string) : result pyvalue :=
  match type a with
  | None => Ok (VStr arg_string)
  | Some (Converter t) =>
      match flag_type t arg_string with
      | Ok v => Ok v
      | Raise TypeError | Raise ValueError => Raise (SystemExit 2)
      | Raise e => Raise e
      end
  end.

(** A default that is a string goes through the converter as well. *)
Definition get_default (a : Action) : result pyvalue :=
  match default a with
  | VStr s => get_value a s
  | d => Ok d
  end.

(** The namespace before any token is read: the defaults of the actions, then
    the parser-level defaults for the names still absent. *)
Definition initial_namespace (p : ArgumentParser) : namespace :=
  fold_left (fun ns a =>
               match a with
               | Argument a =>
                   match ns !! dest a with
                   | Some _ => ns
                   | None => <[dest a := default a]> ns
                   end
               | _ => ns
               end) (_actions p) ∅ ∪ _defaults p.

Definition positionals (p : ArgumentParser) : list action :=
  List.filter (fun a => match a with
                        | Argument a => bool_decide (option_strings a = [])
                        | SubParsers _ => true
                        | Help => false
                        end) (_actions p).

(** The end of the tokens: positional arguments left without a token must be
    optional, and every option that was not given must not be required. *)
Fixpoint finish_positionals (pending : list action) (ns : namespace) : result namespace :=
  match pending with
  | [] => Ok ns
  | Argument a :: pending' =>
      match a_nargs a with
      | Some OPTIONAL =>
          v <- get_default a;;
          finish_positionals pending' (<[dest a := v]> ns)
      | None => Raise (SystemExit 2)
      end
  | _ :: pending' => finish_positionals pending' ns
  end.

Fixpoint finish_options (actions : list action) (seen : list string) (ns : namespace)
  : result namespace :=
  match actions with
  | [] => Ok ns
  | Argument a :: actions' =>
      if bool_decide (option_strings a = []) || bool_decide (dest a ∈ seen)
      then finish_options actions' seen ns
      else if required a then Raise (SystemExit 2)
      else
        v <- get_default a;;
        finish_options actions' seen (<[dest a := v]> ns)
  | _ :: actions' => finish_options actions' seen ns
  end.

Definition finish (p : ArgumentParser) (pending : list action) (seen : list string)
    (ns : namespace) : result namespace :=
  ns <- finish_positionals pending ns;;
  finish_options (_actions p) seen ns.

(** [parse_known_args]: the namespace, and whether some token was left
    unrecognised. *)
Fixpoint parse_known_args (ps : list ArgumentParser) (p : ArgumentParser)
    (pending : list action) (seen : list string) (ns : namespace) (extras : bool)
    (args : list string) {struct args} : result (namespace * bool) :=
  match args with
  | [] => ns <- finish p pending seen ns;; Ok (ns, extras)
  | arg :: rest =>
      match parse_optional p arg with
      | Positional =>
          match pending with
          | Argument a :: pending' =>
              v <- get_value a arg;;
              parse_known_args ps p pending' seen (<[dest a := v]> ns) extras rest
          | SubParsers choices :: pending' =>
              match List.find (fun c => String.eqb (sc_name c) arg) choices with
              | None => Raise (SystemExit 2)
              | Some c =>
                  let sub := ps !!! sc_parser c in
                  r <- parse_known_args ps sub (positionals sub) []
                         (initial_namespace sub) false rest;;
                  ns <- finish p pending' seen (fst r ∪ ns);;
                  Ok (ns, extras || snd r)
              end
          | _ => parse_known_args ps p pending seen ns true rest
          end
      | Flag Help _ => Raise (SystemExit 0)
      | Flag (Argument a) (Some explicit_arg) =>
          v <- get_value a explicit_arg;;
          parse_known_args ps p pending (dest a :: seen) (<[dest a := v]> ns) extras rest
      | Flag (Argument a) None =>
          match rest with
          | arg' :: rest' =>
              match parse_optional p arg', a_nargs a with
              | Positional, _ =>
                  v <- get_value a arg';;
                  parse_known_args ps p pending (dest a :: seen) (<[dest a := v]> ns)
                    extras rest'
              | _, Some OPTIONAL =>
                  parse_known_args ps p pending (dest a :: seen) (<[dest a := VNone]> ns)
                    extras rest
              | _, None => Raise (SystemExit 2)
              end
          | [] =>
              match a_nargs a with
              | Some OPTIONAL =>
                  parse_known_args ps p pending (dest a :: seen) (<[dest a := VNone]> ns)
                    extras rest
              | None => Raise (SystemExit 2)
              end
          end
      | Flag (SubParsers _) _ => Raise (SystemExit 2)
      | Ambiguous => Raise (SystemExit 2)
      | Unrecognized => parse_known_args ps p pending seen ns true rest
      end
  end.

(** [parser.parse_args(args)] *)
Definition parse_args (ps : list ArgumentParser) (parser : nat) (args : list string)
  : result namespace :=
  let p := ps !!! parser in
  r <- parse_known_args ps p (positionals p) [] (initial_namespace p) false args;;
  if snd r then Raise (SystemExit 2) else Ok (fst r).

(** ** [_Decoration.run] *)

(** [parsed_args[key]] *)
Definition getitem (parsed_args : namespace) (key : string) : result pyvalue :=
  match parsed_args !! key with
  | Some v => Ok v
  | None => Raise (KeyError key)
  end.

(** [kwargs[name] = v] *)
Fixpoint setitem (kwargs : list (string * pyvalue)) (name : string) (v : pyvalue)
  : list (string * pyvalue) :=
  match kwargs with
  | [] => [(name, v)]
  | (n, w) :: kwargs' =>
      if String.eqb n name then (n, v) :: kwargs' else (n, w) :: setitem kwargs' name v
  end.

(** The signature of [ArgumentParser.print_help(self, file=None)] as a bound
    method. *)
Definition print_help_signature : list Param :=
  [{| p_name := "file"; p_kind := POSITIONAL_OR_KEYWORD; p_default := Some VNone;
      p_annotation := Plain TEmpty |}].

(** [inspect.signature(entrypoint).parameters.values()]; a value that is not
    callable has no signature. *)
Definition signature (st : state) (entrypoint : pyvalue) : result (list Param) :=
  match entrypoint with
  | VCallable (Fn ref) => Ok (fn_signature (functions st !!! ref))
  | VCallable (PrintHelp _) => Ok print_help_signature
  | _ => Raise TypeError
  end.

(** [inspect.iscoroutinefunction(entrypoint)] *)
Definition iscoroutinefunction (st : state) (entrypoint : pyvalue) : bool :=
  match entrypoint with
  | VCallable (Fn ref) => fn_iscoroutinefunction (functions st !!! ref)
  | _ => false
  end.

(** The [for parameter in ...] loop of [run], from the lists collected so
    far. *)
Fixpoint collect (parsed_args : namespace) (parameters : list Param)
    (args : list pyvalue) (kwargs : list (string * pyvalue))
  : result (list pyvalue * list (string * pyvalue)) :=
  match parameters with
  | [] => Ok (args, kwargs)
  | parameter :: parameters' =>
      v <- getitem parsed_args (p_name parameter);;
      if bool_decide (p_kind parameter = POSITIONAL_ONLY)
      then collect parsed_args parameters' (args ++ [v]) kwargs
      else collect parsed_args parameters' args (setitem kwargs (p_name parameter) v)
  end.

(** What a call expression evaluates to: the value returned, or for a
    coroutine function the coroutine, whose body has not run yet. *)
Inductive returned : Type :=
| Value (v : pyvalue)
| Coroutine (body : result pyvalue).

Definition record_call (c : call) (st : state) : state :=
  {| functions := functions st; parsers := parsers st; sys_argv := sys_argv st;
     printed := printed st; calls := calls st ++ [c] |}.

Definition record_print (parser : nat) (st : state) : state :=
  {| functions := functions st; parsers := parsers st; sys_argv := sys_argv st;
     printed := printed st ++ [parser]; calls := calls st |}.

(** The argument [file] of [print_help] as bound from a call. *)
Definition bind_file (args : list pyvalue) (kwargs : list (string * pyvalue))
  : result pyvalue :=
  match args, kwargs with
  | [], [] => Ok VNone
  | [file], [] => Ok file
  | [], [(name, file)] => if String.eqb name "file" then Ok file else Raise TypeError
  | _, _ => Raise TypeError
  end.

(** The call of [entrypoint] with the positional arguments [args] and the
    keyword arguments [kwargs]. *)
Definition call_entrypoint (entrypoint : pyvalue) (args : list pyvalue)
    (kwargs : list (string * pyvalue)) : M returned :=
  fun st =>
    match entrypoint with
    | VCallable (Fn ref) =>
        let f := functions st !!! ref in
        let st' := record_call {| callee := Fn ref; call_args := args;
                                  call_kwargs := kwargs |} st in
        if fn_iscoroutinefunction f
        then (Ok (Coroutine (fn_body f args kwargs)), st')
        else (v <- fn_body f args kwargs;; Ok (Value v), st')
    | VCallable (PrintHelp parser) =>
        let st' := record_call {| callee := PrintHelp parser; call_args := args;
                                  call_kwargs := kwargs |} st in
        match bind_file args kwargs with
        | Ok VNone => (Ok (Value VNone), record_print parser st')
        | Ok _ => (Raise AttributeError, st')
        | Raise e => (Raise e, st')
        end
    | _ => (Raise TypeError, st)
    end.

(** [asyncio.run(coro)] *)
Definition asyncio_run (coro : returned) : result returned :=
  match coro with
  | Coroutine body => v <- body;; Ok (Value v)
  | Value _ => Raise ValueError
  end.

(** [_Decoration.run(self, args)]; [args = None] stands for the default
    [...]. *)
Definition run (self : _Decoration) (args : option (list string)) : M returned :=
  fun st =>
    let args := match args with
                | None => tail (sys_argv st)
                | Some args => args
                end in
    (parsed_args <~ lift (parse_args (parsers st) (_parser self) args);;
     entrypoint <~ lift (getitem parsed_args "entrypoint");;
     parameters <~ lift (signature st entrypoint);;
     collected <~ lift (collect parsed_args parameters [] []);;
     result <~ call_entrypoint entrypoint (fst collected) (snd collected);;
     if iscoroutinefunction st entrypoint
     then lift (asyncio_run result)
     else ret result) st.

End Run.

(** ** A runtime to evaluate the model with

    [reference_runtime] agrees with CPython on the inputs the examples of this
    development give it: [literal_eval] reads [True], [False], [None], decimal
    integers and decimal fractions of at most fifteen digits (for which one
    correctly rounded division gives the nearest double), and takes anything
    else as malformed (quoted strings, containers and the other number
    formats are not read); a user class is a plain value class; [py_str]
    formats ints, bools, [None], strings and the floats that are whole
    numbers, and stands in [<float>] and [<object>] for the other values. *)

Fixpoint digits_value (s : string) (acc : Z) : Z :=
  match s with
  | EmptyString => acc
  | String c s' => digits_value s' (10 * acc + (Z.of_nat (nat_of_ascii c) - 48))
  end.

Definition float_of_Z (z : Z) : float :=
  if Z.ltb z 0 then PrimFloat.opp (PrimFloat.of_uint63 (Uint63.of_Z (- z)))
  else PrimFloat.of_uint63 (Uint63.of_Z z).

Definition is_number (s : string) : bool :=
  negb (String.eqb s "") && all_digits s.

(** A decimal integer literal does not start with [0], unless all its digits
    are [0]. *)
Definition leading_zero (s : string) : bool :=
  match s with
  | String "0" _ => negb (Z.eqb (digits_value s 0) 0)
  | _ => false
  end.

Definition unsigned_literal (s : string) : result pyvalue :=
  match split_at "." s with
  | (a, None) =>
      if is_number a
      then if leading_zero a then Raise SyntaxError else Ok (VInt (digits_value a 0))
      else Raise ValueError
  | (a, Some b) =>
      if is_number a && is_number b && Nat.leb (String.length a + String.length b) 15
      then Ok (VFloat (PrimFloat.div (float_of_Z (digits_value (a +:+ b) 0))
                         (float_of_Z (10 ^ Z.of_nat (String.length b)))))
      else Raise ValueError
  end.

Definition negate (v : pyvalue) : pyvalue :=
  match v with
  | VInt z => VInt (- z)
  | VFloat f => VFloat (PrimFloat.opp f)
  | _ => v
  end.

Definition reference_literal_eval (s : string) : result pyvalue :=
  if String.eqb s "True" then Ok (VBool true)
  else if String.eqb s "False" then Ok (VBool false)
  else if String.eqb s "None" then Ok VNone
  else match s with
       | String "-" s' => v <- unsigned_literal s';; Ok (negate v)
       | _ => unsigned_literal s
       end.

(** The integer a float is, when it is one. *)
Definition float_to_Z (f : float) : option Z :=
  match Prim2SF f with
  | S754_zero _ => Some 0
  | S754_finite s m e =>
      let n := if s then Z.neg m else Z.pos m in
      if Z.leb 0 e then Some (n * 2 ^ e)
      else if Z.eqb (n mod 2 ^ (- e)) 0 then Some (n / 2 ^ (- e)) else None
  | _ => None
  end.

Definition reference_str (v : pyvalue) : string :=
  match v with
  | VBool true => "True"
  | VBool false => "False"
  | VInt z => pretty z
  | VStr s => s
  | VNone => "None"
  | VFloat f =>
      match Prim2SF f, float_to_Z f with
      | S754_zero true, _ => "-0.0"
      | _, Some z => if Z.ltb (Z.abs z) (10 ^ 16) then pretty z +:+ ".0" else "<float>"
      | _, None => "<float>"
      end
  | _ => "<object>"
  end.

Definition reference_runtime : PyRuntime :=
  {| literal_eval := reference_literal_eval;
     construct := fun cls v => Ok (VObject cls v);
     py_str := reference_str |}.

(** ** Vocabulary of the properties *)

(** No element equals an earlier one: the elements of a set, the keys of a
    dict. *)
Fixpoint distinct_from (seen xs : list pyvalue) : bool :=
  match xs with
  | [] => true
  | x :: xs' =>
      negb (existsb (fun y => py_eq y x) seen) && distinct_from (seen ++ [x]) xs'
  end.

Definition distinct (xs : list pyvalue) : bool := distinct_from [] xs.

(** The runtime type found where the annotation says [frozenset[T]]: a
    [frozenset], as the annotation is written, or a [set], the only set-like
    value that literal evaluation produces. *)
Inductive reading : Type :=
| AsWritten
| AsParsed.

(** [value] conforms structurally to a nesting of list, dict, set, frozenset
    and tuple over the primitives [bool], [int], [float] and [str].  Sets and
    dict keys are what Python allows: hashable and without repetition; a float
    is a number. *)
Fixpoint conforms (r : reading) (value : pyvalue) (t : texpr) {struct value} : bool :=
  let set_like (xs : list pyvalue) (A : texpr) : bool :=
    forallb (fun x => conforms r x A) xs && forallb hashable xs && distinct xs in
  match value, t with
  | VBool _, TClass Kbool => true
  | VInt _, TClass Kint => true
  | VFloat f, TClass Kfloat => PrimFloat.eqb f f
  | VStr _, TClass Kstr => true
  | VList xs, TAlias Klist [A] => forallb (fun x => conforms r x A) xs
  | VSet xs, TAlias Kset [A] => set_like xs A
  | VSet xs, TAlias Kfrozenset [A] =>
      match r with AsParsed => set_like xs A | AsWritten => false end
  | VFrozenset xs, TAlias Kfrozenset [A] =>
      match r with AsWritten => set_like xs A | AsParsed => false end
  | VDict items, TAlias Kdict [K; V] =>
      forallb (fun kv : pyvalue * pyvalue =>
                 let (k, x) := kv in conforms r k K && conforms r x V) items
      && forallb hashable (map fst items) && distinct (map fst items)
  | VTuple xs, TAlias Ktuple [A; TEllipsis] => forallb (fun x => conforms r x A) xs
  | VTuple xs, TAlias Ktuple As => all2 (conforms r) xs As
  | _, _ => false
  end.

(** The annotation does not mention [frozenset]. *)
Fixpoint frozenset_free (t : texpr) : bool :=
  match t with
  | TAlias o args =>
      negb (bool_decide (o = Kfrozenset)) && forallb frozenset_free args
  | TUnion args => forallb frozenset_free args
  | _ => true
  end.

(** The nesting depth of an annotation. *)
Fixpoint depth (t : texpr) : nat :=
  match t with
  | TAlias _ args => S (fold_right (fun a n => Nat.max (depth a) n) 0%nat args)
  | TUnion args => S (fold_right (fun a n => Nat.max (depth a) n) 0%nat args)
  | _ => 0%nat
  end.

(** The positional and keyword arguments that [run] is to pass: the values
    of the positional-only parameters in declaration order, and the values of
    all the other parameters under their names. *)
Definition positional_arguments (parsed_args : namespace) (parameters : list Param)
  : list pyvalue :=
  omap (fun p => parsed_args !! p_name p)
    (List.filter (fun p => bool_decide (p_kind p = POSITIONAL_ONLY)) parameters).

Definition keyword_arguments (parsed_args : namespace) (parameters : list Param)
  : list (string * pyvalue) :=
  omap (fun p => v ← parsed_args !! p_name p; Some (p_name p, v))
    (List.filter (fun p => negb (bool_decide (p_kind p = POSITIONAL_ONLY))) parameters).

(** What [_set_t] may return for a conforming [value] and the annotation [t]:
    [value'] equals [value] in the sense of [==], and has the runtime types
    and the contents of [value] throughout when [t] mentions no [frozenset],
    or when [value] is hashable. *)
Definition same_value (t : texpr) (value value' : pyvalue) : Prop :=
  py_eq value value' = true /\
  (frozenset_free t = true \/ hashable value = true -> value' = value).

(** A conforming value is coerced to a value that is the same in the sense of
    [same_value]. *)
Definition round_trips `{PyRuntime} (value : pyvalue) : Prop :=
  forall t, conforms AsParsed value t = true ->
            exists value', _set_t value t = Ok value' /\ same_value t value value'.

(** The subcommands registered in a parser. *)
Definition choices_of (p : ArgumentParser) : list subcommand :=
  concat (map (fun a => match a with SubParsers choices => choices | _ => [] end)
            (_actions p)).

(** [st'] is reached from [st] by building parsers only: the function
    objects, [sys.argv] and the trace are the same, the parsers of [st] are
    still there with the description they had, and with the subparsers action
    and the subcommands they had. *)
Definition extends (st st' : state) : Prop :=
  functions st' = functions st /\
  sys_argv st' = sys_argv st /\
  printed st' = printed st /\
  calls st' = calls st /\
  (length (parsers st) <= length (parsers st'))%nat /\
  forall id, (id < length (parsers st))%nat ->
    description (parsers st' !!! id) = description (parsers st !!! id) /\
    (has_subparsers (parsers st !!! id) = true ->
     has_subparsers (parsers st' !!! id) = true) /\
    forall c, In c (choices_of (parsers st !!! id)) ->
              In c (choices_of (parsers st' !!! id)).

Definition stable {A : Type} (m : M A) : Prop :=
  forall st, extends st (snd (m st)).

(** The subcommand that [__call__] registers for the submodule [name]: listed
    with an empty help, or hidden when the name starts with an underscore. *)
Definition submodule_choice (name : string) (sub_parser : nat) : subcommand :=
  {| sc_name := name;
     sc_help := if startswith name "_" then None else Some (Some "");
     sc_parser := sub_parser |}.

(** In the state [st], the node [parser] built for the module [m] with the
    candidate entrypoint [entrypoint] is documented as the walk leaves it: when
    the walk descends into [m], every listed submodule has a subcommand of its
    name whose parser has the documentation string of the submodule as
    description, and is documented in turn; and when [m] has an entrypoint of
    its own, the subcommand [.] has as help the documentation string of that
    entrypoint, or else of [m]. *)
Fixpoint documented (self : _Decorator) (decorated_name : string) (st : state)
    (parser : nat) (m : module) (entrypoint : option nat) {struct m} : Prop :=
  match m with
  | Module name package doc _ path =>
      if submodules self && String.eqb name package then
        (fix nodes (path : list (string * module)) : Prop :=
           match path with
           | [] => True
           | (name, sub_module) :: path' =>
               (exists sub_parser,
                  In (submodule_choice name sub_parser)
                    (choices_of (parsers st !!! parser)) /\
                  description (parsers st !!! sub_parser) = mod_doc sub_module /\
                  documented self decorated_name st sub_parser sub_module
                    (getattr sub_module decorated_name)) /\
               nodes path'
           end) path /\
        match entrypoint with
        | Some e =>
            exists dot,
              In {| sc_name := ".";
                    sc_help := Some (doc_or (fn_doc (functions st !!! e)) doc);
                    sc_parser := dot |}
                (choices_of (parsers st !!! parser))
        | None => True
        end
      else True
  end.

(** ** Sample programs *)

(** A function body that returns the arguments it is called with. *)
Definition echo (args : list pyvalue) (kwargs : list (string * pyvalue))
  : result pyvalue :=
  Ok (VTuple [VList args; VDict (map (fun kw => (VStr (fst kw), snd kw)) kwargs)]).

Definition sample_function (doc : option string) (m : module)
    (parameters : list Param) (async : bool)
    (body : list pyvalue -> list (string * pyvalue) -> result pyvalue) : function :=
  {| fn_name := "entrypoint"; fn_doc := doc; fn_module := m;
     fn_signature := parameters; fn_iscoroutinefunction := async;
     fn_body := body; cli := None |}.

Definition sample_state (functions : list function) : state :=
  {| functions := functions; parsers := []; sys_argv := ["prog"]; printed := [];
     calls := [] |}.

(** A package [prog] whose [__init__] defines the entrypoint (function 0),
    with the submodule [prog.foo], which defines one too (function 1), and
    the submodule [prog._bar], which defines none. *)
Definition prog_foo : module :=
  Module "prog.foo" "prog" (Some "foo module") [("entrypoint", 1%nat)] [].

Definition prog_bar : module :=
  Module "prog._bar" "prog" (Some "bar module") [] [].

Definition prog : module :=
  Module "prog" "prog" (Some "prog package") [("entrypoint", 0%nat)]
    [("foo", prog_foo); ("_bar", prog_bar)].

Definition prog_state (foo_parameters : list Param) : state :=
  sample_state
    [sample_function (Some "prog entrypoint") prog [] false echo;
     sample_function (Some "foo entrypoint") prog_foo foo_parameters false echo].

(** [prog] once its entrypoint is decorated with [CLI(submodules=True)]. *)
Definition prog_decorated : state :=
  snd (@__call__ reference_runtime {| submodules := true |} 0%nat (prog_state [])).

(** A script with the single function [entrypoint]. *)
Definition script : module := Module "__main__" "" None [("entrypoint", 0%nat)] [].

Definition script_state (parameters : list Param) (async : bool)
    (body : list pyvalue -> list (string * pyvalue) -> result pyvalue) : state :=
  sample_state [sample_function None script parameters async body].

Definition param (name : string) (kind : kind) (default : option pyvalue)
    (t : texpr) : Param :=
  {| p_name := name; p_kind := kind; p_default := default; p_annotation := Plain t |}.

(** [(a: int, /, b: str, c: bool = True, *, d: float)] *)
Definition end_to_end_signature : list Param :=
  [param "a" POSITIONAL_ONLY None (TClass Kint);
   param "b" POSITIONAL_OR_KEYWORD None (TClass Kstr);
   param "c" POSITIONAL_OR_KEYWORD (Some (VBool true)) (TClass Kbool);
   param "d" KEYWORD_ONLY None (TClass Kfloat)].

(** The script of the end-to-end example, decorated with [CLI()]. *)
Definition end_to_end_decorated
    (body : list pyvalue -> list (string * pyvalue) -> result pyvalue) : state :=
  snd (@__call__ reference_runtime {| submodules := false |} 0%nat
         (script_state end_to_end_signature false body)).

(** The keyword-only parameter [_x: int] *)
Definition underscore_signature : list Param :=
  [param "_x" KEYWORD_ONLY None (TClass Kint)].

(** The script whose entrypoint has the keyword-only parameter [_x: int],
    decorated with [CLI()]. *)
Definition underscore_decorated
    (body : list pyvalue -> list (string * pyvalue) -> result pyvalue) : state :=
  snd (@__call__ reference_runtime {| submodules := false |} 0%nat
         (script_state underscore_signature false body)).

(** [(a, /, b, c=1, *, d, e=2.0)] *)
Definition kinds_signature : list Param :=
  [param "a" POSITIONAL_ONLY None TEmpty;
   param "b" POSITIONAL_OR_KEYWORD None TEmpty;
   param "c" POSITIONAL_OR_KEYWORD (Some (VInt 1)) TEmpty;
   param "d" KEYWORD_ONLY None TEmpty;
   param "e" KEYWORD_ONLY (Some (VFloat 2)) TEmpty].

(** ** The module-level decorators *)

(** [CLI = _Decorator] and [cli = CLI()]: the decorator class under its public
    name, and the instance with the default [submodules=False]. *)
Definition CLI (submodules : bool) : _Decorator := {| submodules := submodules |}.

Definition cli_decorator : _Decorator := CLI false.

(** ** Vocabulary of the further properties *)

(** The elements [xs] of a tuple against the type arguments [As] of a tuple
    annotation: [A, ...] as the last two arguments takes any number of
    elements of [A], any other argument takes one element. *)
Fixpoint tuple_instance (inst : pyvalue -> texpr -> bool) (xs : list pyvalue)
    (As : list texpr) {struct xs} : bool :=
  match As with
  | [A; TEllipsis] => forallb (fun x => inst x A) xs
  | _ =>
      match xs, As with
      | [], [] => true
      | x :: xs', A :: As' => inst x A && tuple_instance inst xs' As'
      | _, _ => false
      end
  end.

(** [value] is an instance of the annotation [t], at every level: its class
    is the origin of [t], the elements of a container are instances of the
    type arguments, [None] is the instance of [None], and an instance of a
    union has one of the member classes.  A bare container class takes any
    elements. *)
Fixpoint instance_of (value : pyvalue) (t : texpr) {struct value} : bool :=
  match origin_or_self t with
  | OClass c =>
      bool_decide (type_of value = c) &&
      match value, get_args t with
      | VDict items, [K; V] =>
          forallb (fun kv : pyvalue * pyvalue =>
                     let (k, x) := kv in instance_of k K && instance_of x V) items
      | VSet xs, [A] => forallb (fun x => instance_of x A) xs
      | VFrozenset xs, [A] => forallb (fun x => instance_of x A) xs
      | VList xs, [A] => forallb (fun x => instance_of x A) xs
      | VTuple xs, As => tuple_instance instance_of xs As
      | _, _ => true
      end
  | ONone => bool_decide (type_of value = KNoneType)
  | OUnion => class_in_args (type_of value) (get_args t)
  | _ => false
  end.

(** [str.isidentifier()] for a name in ASCII: a letter or an underscore, then
    letters, digits and underscores. *)
Definition is_letter (c : ascii) : bool :=
  let n := nat_of_ascii c in
  (Nat.leb 65 n && Nat.leb n 90) || (Nat.leb 97 n && Nat.leb n 122).

Definition identifier_start (c : ascii) : bool := is_letter c || Ascii.eqb c "_".

Definition identifier_char (c : ascii) : bool :=
  identifier_start c || (Nat.leb 48 (nat_of_ascii c) && Nat.leb (nat_of_ascii c) 57).

Fixpoint identifier_chars (s : string) : bool :=
  match s with
  | EmptyString => true
  | String c s' => identifier_char c && identifier_chars s'
  end.

Definition isidentifier (s : string) : bool :=
  match s with
  | EmptyString => false
  | String c s' => identifier_start c && identifier_chars s'
  end.

(** The parameters that [_set_parameter] turns into options: the
    keyword-only ones, and the positional-or-keyword ones with a default. *)
Definition is_option (parameter : Param) : bool :=
  match p_kind parameter, p_default parameter with
  | KEYWORD_ONLY, _ | POSITIONAL_OR_KEYWORD, Some _ => true
  | _, _ => false
  end.

(** [*args] and [**kwargs] *)
Definition is_variadic (parameter : Param) : bool :=
  match p_kind parameter with
  | VAR_POSITIONAL | VAR_KEYWORD => true
  | _ => false
  end.

(** The flag of an option: [f'--{parameter.name.replace('_', '-')}'] *)
Definition flag_name (parameter : Param) : string :=
  "--" +:+ replace "_" "-" (p_name parameter).

(** The type that the converter of a parameter enforces: the annotation, or
    what [typing.Annotated] wraps. *)
Definition annotated_type (parameter : Param) : texpr :=
  match p_annotation parameter with
  | Plain t | Annotated t _ => t
  end.

(** Whether the metadata of the annotation, if there is any, is a string:
    what the help text of the parameter can be made of. *)
Definition str_metadata (parameter : Param) : bool :=
  match p_annotation parameter with
  | Annotated _ (VStr _) | Plain _ => true
  | Annotated _ _ => false
  end.

(** The parts of the help text of a parameter: the metadata of the
    annotation, then the default. *)
Definition help_parts `{PyRuntime} (parameter : Param) : list pyvalue :=
  match p_annotation parameter with
  | Annotated _ metadata => [metadata]
  | Plain _ => []
  end ++
  match p_default parameter with
  | None => []
  | Some d => [VStr ("Default: " +:+ py_str d)]
  end.

(** The key under which the parsed value of a parameter is stored: for an
    option the name without its leading underscores, for a positional
    argument the name. *)
Definition dest_of (parameter : Param) : string :=
  if is_option parameter then lstrip "_" (p_name parameter) else p_name parameter.

(** The action that [_set_parameter] leaves for a parameter in a parser whose
    parser-level defaults are [defaults], attribute by attribute: an option is
    named by its flag; a parameter without default is required, and its action
    has the parser-level default of its key, if there is one; a default makes
    the value optional and is shown in the help after the metadata of the
    annotation.  The help text and the converter are there when the help text
    can be made. *)
Definition action_of `{PyRuntime} (defaults : gmap string pyvalue) (parameter : Param)
  : Action :=
  {| dest := dest_of parameter;
     option_strings := if is_option parameter then [flag_name parameter] else [];
     required := match p_default parameter with
                 | None => true
                 | Some _ => negb (is_option parameter)
                 end;
     default := match p_default parameter with
                | None =>
                    match defaults !! dest_of parameter with
                    | Some value => value
                    | None => VNone
                    end
                | Some d => d
                end;
     a_nargs := match p_default parameter with
                | None => None
                | Some _ => Some OPTIONAL
                end;
     help := match join " " (help_parts parameter) with
             | Ok text => Some text
             | Raise _ => None
             end;
     type := match join " " (help_parts parameter) with
             | Ok _ => Some (Converter (annotated_type parameter))
             | Raise _ => None
             end |}.

(** The state with other parsers: what building a parser changes. *)
Definition with_parsers (st : state) (parsers : list ArgumentParser) : state :=
  {| functions := functions st; parsers := parsers; sys_argv := sys_argv st;
     printed := printed st; calls := calls st |}.

(** The arguments of a signature, as actions in declaration order. *)
Definition arguments_of `{PyRuntime} (defaults : gmap string pyvalue)
    (parameters : list Param) : list action :=
  map (fun parameter => Argument (action_of defaults parameter)) parameters.

(** The parser of a module without entrypoint: its help action, and the help
    fallback as the callable to run. *)
Definition help_parser (doc : option string) (parser : nat) : ArgumentParser :=
  {| description := doc;
     _defaults := {[ "entrypoint" := VCallable (PrintHelp parser) ]};
     _actions := [Help] |}.

(** The parser that dispatches to the function [entrypoint], whose signature
    is [parameters]: after the help action, one argument for each parameter. *)
Definition entrypoint_parser `{PyRuntime} (doc : option string) (entrypoint : nat)
    (parameters : list Param) : ArgumentParser :=
  {| description := doc;
     _defaults := {[ "entrypoint" := VCallable (Fn entrypoint) ]};
     _actions := Help :: arguments_of {[ "entrypoint" := VCallable (Fn entrypoint) ]}
                           parameters |}.

(** The parser of a package that is walked: no arguments, the subcommands
    [choices], and the help fallback as the callable to run when no
    subcommand is given. *)
Definition package_parser (doc : option string) (parser : nat)
    (choices : list subcommand) : ArgumentParser :=
  {| description := doc;
     _defaults := {[ "entrypoint" := VCallable (PrintHelp parser) ]};
     _actions := [Help; SubParsers choices] |}.

(** A parameter that can be registered in a parser that has its help action
    and no other option of the same flag: it is not variadic, the metadata of
    its annotation is a string, and as an option it is not named [help] and
    not made of underscores only. *)
Definition registrable (parameter : Param) : bool :=
  negb (is_variadic parameter) && str_metadata parameter &&
  (negb (is_option parameter) ||
   negb (String.eqb (p_name parameter) "help") &&
   negb (String.eqb (lstrip "_" (p_name parameter)) "")).

(** Whether the walk of [__call__] descends into the module: the decorator
    was made with [submodules=True] and the module is a package. *)
Definition walks (self : _Decorator) (m : module) : bool :=
  submodules self && String.eqb (mod_name m) (mod_package m).

(** The parser hands the callable [c] to [run], and has exactly the actions
    [actions]. *)
Definition serves (st : state) (parser : nat) (c : callable) (actions : list action)
  : Prop :=
  _defaults (parsers st !!! parser) = {[ "entrypoint" := VCallable c ]} /\
  _actions (parsers st !!! parser) = actions.

(** In the state [st], the parser built for the module [m] with the candidate
    entrypoint [entrypoint] mirrors the module.  A module that is not walked
    has the parser of its entrypoint, or the parser that prints its help when
    it has none.  A package that is walked takes no arguments itself and runs
    its help fallback; its subcommands are its submodules, in the order in
    which they are listed, each with a parser that mirrors the submodule,
    followed by [.] when the package has an entrypoint, whose parser is the
    parser of that entrypoint. *)
Fixpoint built `{PyRuntime} (self : _Decorator) (decorated_name : string) (st : state)
    (parser : nat) (m : module) (entrypoint : option nat) {struct m} : Prop :=
  match m with
  | Module name package doc _ path =>
      if submodules self && String.eqb name package then
        exists (subs : list nat) (dot : list subcommand),
          serves st parser (PrintHelp parser)
            [Help; SubParsers (zip_with submodule_choice (map fst path) subs ++ dot)] /\
          (fix nodes (path : list (string * module)) (subs : list nat) : Prop :=
             match path, subs with
             | [], [] => True
             | (_, sub_module) :: path', sub_parser :: subs' =>
                 built self decorated_name st sub_parser sub_module
                   (getattr sub_module decorated_name) /\
                 nodes path' subs'
             | _, _ => False
             end) path subs /\
          match entrypoint with
          | Some e =>
              exists d,
                dot = [{| sc_name := ".";
                          sc_help := Some (doc_or (fn_doc (functions st !!! e)) doc);
                          sc_parser := d |}] /\
                serves st d (Fn e)
                  (Help :: arguments_of {[ "entrypoint" := VCallable (Fn e) ]}
                             (fn_signature (functions st !!! e)))
          | None => dot = []
          end
      else
        match entrypoint with
        | Some e =>
            serves st parser (Fn e)
              (Help :: arguments_of {[ "entrypoint" := VCallable (Fn e) ]}
                         (fn_signature (functions st !!! e)))
        | None => serves st parser (PrintHelp parser) [Help]
        end
  end.

(** The call that the values of the parameters of a signature amount to: the
    values of the positional-only parameters, in order, as positional
    arguments, and the values of the other parameters under their names. *)
Definition positional_values (parameters : list Param) (values : list pyvalue)
  : list pyvalue :=
  map snd
    (List.filter (fun qv : Param * pyvalue =>
                    bool_decide (p_kind (fst qv) = POSITIONAL_ONLY))
       (combine parameters values)).

Definition keyword_values (parameters : list Param) (values : list pyvalue)
  : list (string * pyvalue) :=
  map (fun qv : Param * pyvalue => (p_name (fst qv), snd qv))
    (List.filter (fun qv : Param * pyvalue =>
                    negb (bool_decide (p_kind (fst qv) = POSITIONAL_ONLY)))
       (combine parameters values)).

(** The parsed mapping once the values of the parameters are stored under
    their names. *)
Definition store_values (parameters : list Param) (values : list pyvalue)
    (ns : namespace) : namespace :=
  fold_left (fun (ns : namespace) (qv : Param * pyvalue) =>
               <[p_name (fst qv) := snd qv]> ns)
    (combine parameters values) ns.

(** * Properties *)

(** ** The coercion engine *)

(** Induction on values, with the hypothesis for every element of a
    container. *)
Lemma pyvalue_nested_ind (P : pyvalue -> Prop) :
  (forall b, P (VBool b)) -> (forall z, P (VInt z)) -> (forall f, P (VFloat f)) ->
  (forall s, P (VStr s)) -> P VNone ->
  (forall items, Forall (fun kv => P (fst kv) /\ P (snd kv)) items -> P (VDict items)) ->
  (forall xs, Forall P xs -> P (VSet xs)) ->
  (forall xs, Forall P xs -> P (VFrozenset xs)) ->
  (forall xs, Forall P xs -> P (VList xs)) ->
  (forall xs, Forall P xs -> P (VTuple xs)) ->
  (forall cls v, P v -> P (VObject cls v)) ->
  (forall c, P (VCallable c)) ->
  forall v, P v.
Proof.
  intros Hb Hi Hf Hs Hn Hd Hset Hfs Hl Ht Ho Hc.
  fix IH 1. intros [b|z|f|s| |items|xs|xs|xs|xs|cls v|c].
  - apply Hb.
  - apply Hi.
  - apply Hf.
  - apply Hs.
  - apply Hn.
  - apply Hd. induction items as [|[k x] items IHi]; constructor;
      [split; apply IH|exact IHi].
  - apply Hset. induction xs as [|x xs IHx]; constructor; [apply IH|exact IHx].
  - apply Hfs. induction xs as [|x xs IHx]; constructor; [apply IH|exact IHx].
  - apply Hl. induction xs as [|x xs IHx]; constructor; [apply IH|exact IHx].
  - apply Ht. induction xs as [|x xs IHx]; constructor; [apply IH|exact IHx].
  - apply Ho, IH.
  - apply Hc.
Qed.

Lemma traverse_Forall2 {A B : Type} (f : A -> result B) (Q : A -> B -> Prop)
    (xs : list A) :
  Forall (fun x => exists y, f x = Ok y /\ Q x y) xs ->
  exists ys, traverse f xs = Ok ys /\ Forall2 Q xs ys.
Proof.
  induction 1 as [|x xs (y & Hy & HQ) _ (ys & Hys & HQs)]; simpl.
  - exists []. split; [reflexivity|constructor].
  - exists (y :: ys). rewrite Hy; simpl. rewrite Hys; simpl.
    split; [reflexivity|constructor; assumption].
Qed.

Lemma Forall2_eq {A : Type} (xs ys : list A) : Forall2 eq xs ys -> ys = xs.
Proof. induction 1; congruence. Qed.

Lemma all2_Forall2 {A B : Type} (f : A -> B -> bool) (xs : list A) (ys : list B) :
  Forall2 (fun x y => f x y = true) xs ys -> all2 f xs ys = true.
Proof. induction 1 as [|x y xs ys Hxy _ IH]; simpl; [reflexivity|]. now rewrite Hxy. Qed.

(** A set comprehension that leaves hashable, pairwise different elements as
    they are rebuilds the list of elements. *)
Lemma set_comprehension_id (f : pyvalue -> result pyvalue) (xs acc : list pyvalue) :
  Forall (fun x => f x = Ok x) xs ->
  forallb hashable xs = true ->
  distinct_from acc xs = true ->
  set_comprehension f xs acc = Ok (acc ++ xs).
Proof.
  intros Hf. revert acc.
  induction Hf as [|x xs Hx _ IH]; simpl; intros acc Hh Hd.
  - now rewrite app_nil_r.
  - apply andb_prop in Hh as [Hhx Hh]. apply andb_prop in Hd as [Hnx Hd].
    rewrite Hx; simpl. unfold set_add. rewrite Hhx.
    apply negb_true_iff in Hnx. rewrite Hnx; simpl.
    rewrite (IH _ Hh Hd), <- app_assoc. reflexivity.
Qed.

Lemma dict_set_fresh (k x : pyvalue) (d : list (pyvalue * pyvalue)) :
  existsb (fun y => py_eq y k) (map fst d) = false ->
  dict_set k x d = d ++ [(k, x)].
Proof.
  induction d as [|[k' x'] d IH]; simpl; [reflexivity|].
  intros Hn. apply orb_false_elim in Hn as [Hk Hn].
  rewrite Hk, (IH Hn). reflexivity.
Qed.

(** A dict comprehension that leaves the keys as they are, hashable and
    pairwise different, rebuilds the items in order with the new values. *)
Lemma dict_comprehension_keys (f g : pyvalue -> result pyvalue)
    (Q : pyvalue -> pyvalue -> Prop) (items acc : list (pyvalue * pyvalue)) :
  Forall (fun kv => f (fst kv) = Ok (fst kv) /\
                    exists x', g (snd kv) = Ok x' /\ Q (snd kv) x') items ->
  forallb hashable (map fst items) = true ->
  distinct_from (map fst acc) (map fst items) = true ->
  exists xs', dict_comprehension f g items acc
              = Ok (acc ++ combine (map fst items) xs')
            /\ Forall2 Q (map snd items) xs'.
Proof.
  intros Hf. revert acc.
  induction Hf as [|[k x] items (Hk & x' & Hx & HQ) _ IH]; simpl; intros acc Hh Hd.
  - exists []. rewrite app_nil_r. split; [reflexivity|constructor].
  - simpl in Hk, Hx, HQ.
    apply andb_prop in Hh as [Hhk Hh]. apply andb_prop in Hd as [Hnk Hd].
    apply negb_true_iff in Hnk.
    rewrite Hk; simpl. rewrite Hx; simpl. unfold dict_add. rewrite Hhk; simpl.
    rewrite (dict_set_fresh _ _ _ Hnk).
    destruct (IH (acc ++ [(k, x')])) as (xs' & E & HQs); [assumption| |].
    { rewrite map_app. exact Hd. }
    exists (x' :: xs'). rewrite E, <- app_assoc. simpl.
    split; [reflexivity|constructor; assumption].
Qed.

Section SetTFacts.
Context `{PyRuntime}.

(** The cases of [_set_t] on the subjects that select them. *)
Lemma set_t_cases (value : pyvalue) (t : texpr) :
  _set_t value t =
  match match_case (type_of value) (origin_or_self t) (get_args t) with
  | CasePrimitive | CaseNone | CaseUnion => Ok value
  | CaseDict A0 A1 =>
      items <- dict_comprehension (fun key => _set_t key A0)
                 (fun sub_value => _set_t sub_value A1) (items_of value) [];;
      Ok (VDict items)
  | CaseFrozenset A =>
      elems <- set_comprehension (fun sub_value => _set_t sub_value A)
                 (elems_of value) [];;
      Ok (VFrozenset elems)
  | CaseList A =>
      elems <- traverse (fun value => _set_t value A) (elems_of value);;
      Ok (VList elems)
  | CaseSet A =>
      elems <- set_comprehension (fun value => _set_t value A) (elems_of value) [];;
      Ok (VSet elems)
  | CaseTupleEllipsis A0 =>
      elems <- traverse (fun sub_value => _set_t sub_value A0) (elems_of value);;
      Ok (VTuple elems)
  | CaseTuple A0 As =>
      first <- getitem0 value;;
      head <- _set_t first A0;;
      rest <- _set_t (slice_from1 value) (TAlias Ktuple As);;
      Ok (VTuple (head :: elems_of rest))
  | CaseTupleEmpty => Ok (VTuple [])
  | CaseCustom T => call_origin T value
  | CaseOther => Raise RuntimeError
  end.
Proof.
  rewrite _set_t_equation_1.
  generalize (inspect (match_case (type_of value) (origin_or_self t) (get_args t))).
  intros [c e]. destruct c; simpl; rewrite e; reflexivity.
Qed.


Lemma conforms_Ellipsis (r : reading) (value : pyvalue) :
  conforms r value TEllipsis = false.
Proof. destruct value; reflexivity. Qed.

Lemma round_trips_elements (A : texpr) (xs : list pyvalue) :
  Forall round_trips xs ->
  forallb (fun x => conforms AsParsed x A) xs = true ->
  Forall (fun x => exists y, _set_t x A = Ok y /\ same_value A x y) xs.
Proof.
  induction 1 as [|x xs Hx _ IH]; simpl; intros Hc; constructor.
  - apply andb_prop in Hc as [Hc _]. exact (Hx A Hc).
  - apply andb_prop in Hc as [_ Hc]. exact (IH Hc).
Qed.

Lemma same_value_py_eq (A : texpr) (xs ys : list pyvalue) :
  Forall2 (same_value A) xs ys -> Forall2 (fun x y => py_eq x y = true) xs ys.
Proof. induction 1 as [|x y xs ys [Hxy _] _ IH]; constructor; assumption. Qed.

Lemma same_value_eq (A : texpr) (xs ys : list pyvalue) :
  Forall2 (same_value A) xs ys ->
  frozenset_free A = true \/ forallb hashable xs = true -> ys = xs.
Proof.
  induction 1 as [|x y xs ys [_ Hxy] _ IH]; simpl; intros Hc; [reflexivity|].
  rewrite Hxy, IH; [reflexivity| |].
  - destruct Hc as [Hc|Hc]; [now left|right]. now apply andb_prop in Hc as [_ Hc].
  - destruct Hc as [Hc|Hc]; [now left|right]. now apply andb_prop in Hc as [Hc _].
Qed.

Lemma round_trips_hashable (A : texpr) (xs : list pyvalue) :
  Forall round_trips xs ->
  forallb (fun x => conforms AsParsed x A) xs = true ->
  forallb hashable xs = true ->
  Forall (fun x => _set_t x A = Ok x /\ py_eq x x = true) xs.
Proof.
  induction 1 as [|x xs Hx _ IH]; simpl; intros Hc Hh; constructor.
  - apply andb_prop in Hc as [Hc _]. apply andb_prop in Hh as [Hh _].
    destruct (Hx A Hc) as (y & Hy & Hxy & Heq).
    rewrite (Heq (or_intror Hh)) in Hy, Hxy. now split.
  - apply andb_prop in Hc as [_ Hc]. apply andb_prop in Hh as [_ Hh]. exact (IH Hc Hh).
Qed.

Lemma set_eq_refl (xs : list pyvalue) :
  Forall (fun x => py_eq x x = true) xs ->
  (length xs =? length xs)%nat && forallb (fun x => existsb (py_eq x) xs) xs = true.
Proof.
  intros Hr. rewrite Nat.eqb_refl; simpl.
  apply forallb_forall. intros x Hx. apply existsb_exists. exists x.
  split; [assumption|]. rewrite Forall_forall in Hr. apply Hr.
  now apply list_elem_of_In.
Qed.

Lemma round_trips_set (xs : list pyvalue) (A : texpr) :
  Forall round_trips xs ->
  forallb (fun x => conforms AsParsed x A) xs && forallb hashable xs && distinct xs = true ->
  set_comprehension (fun x => _set_t x A) xs [] = Ok xs /\
  (length xs =? length xs)%nat && forallb (fun x => existsb (py_eq x) xs) xs = true.
Proof.
  intros IH Hc. apply andb_prop in Hc as [Hc Hd]. apply andb_prop in Hc as [Hc Hh].
  pose proof (round_trips_hashable A xs IH Hc Hh) as Hid. split.
  - apply (set_comprehension_id _ xs []); [|assumption..].
    eapply Forall_impl; [exact Hid|]. now intros x [Hx _].
  - apply set_eq_refl. eapply Forall_impl; [exact Hid|]. now intros x [_ Hx].
Qed.

Lemma combine_fst_snd_id {A B : Type} (l : list (A * B)) :
  combine (map fst l) (map snd l) = l.
Proof. induction l as [|[a b] l IH]; simpl; congruence. Qed.

Lemma dict_eq_combine (items : list (pyvalue * pyvalue)) :
  Forall (fun kv => py_eq (fst kv) (fst kv) = true) items ->
  forall xs', Forall2 (fun x x' => py_eq x x' = true) (map snd items) xs' ->
  forall pre,
    forallb (fun kx : pyvalue * pyvalue =>
               let (k, x) := kx in
               existsb (fun ky => py_eq k (fst ky) && py_eq x (snd ky))
                 (pre ++ combine (map fst items) xs')) items = true.
Proof.
  induction 1 as [|[k x] items Hk _ IH]; simpl; intros xs' HQ pre; [reflexivity|].
  inversion HQ as [|? x' ? xs'' Hx HQ']; subst; simpl in *.
  apply andb_true_intro; split.
  - rewrite existsb_app; simpl. rewrite Hk, Hx; simpl. apply orb_true_r.
  - specialize (IH _ HQ' (pre ++ [(k, x')])). rewrite <- app_assoc in IH. exact IH.
Qed.

Lemma round_trips_dict (items : list (pyvalue * pyvalue)) (K V : texpr) :
  Forall (fun kv => round_trips (fst kv) /\ round_trips (snd kv)) items ->
  forallb (fun kv : pyvalue * pyvalue =>
             let (k, x) := kv in conforms AsParsed k K && conforms AsParsed x V) items
  && forallb hashable (map fst items) && distinct (map fst items) = true ->
  exists xs', dict_comprehension (fun k => _set_t k K) (fun x => _set_t x V) items []
              = Ok (combine (map fst items) xs')
            /\ Forall2 (same_value V) (map snd items) xs'
            /\ Forall (fun kv => py_eq (fst kv) (fst kv) = true) items.
Proof.
  intros IH Hc. apply andb_prop in Hc as [Hc Hd]. apply andb_prop in Hc as [Hc Hh].
  assert (Forall (fun kv => (_set_t (fst kv) K = Ok (fst kv) /\
                             exists x', _set_t (snd kv) V = Ok x' /\
                                        same_value V (snd kv) x') /\
                            py_eq (fst kv) (fst kv) = true) items) as Hitems.
  { clear Hd. induction IH as [|[k x] items [Hk Hx] _ IHi]; simpl in *; constructor.
    - apply andb_prop in Hc as [Hc _]. apply andb_prop in Hc as [Hck Hcx].
      apply andb_prop in Hh as [Hh _].
      destruct (Hk K Hck) as (k' & Hk' & Hkk & Heq).
      rewrite (Heq (or_intror Hh)) in Hk', Hkk. simpl. auto.
    - apply andb_prop in Hc as [_ Hc]. apply andb_prop in Hh as [_ Hh]. auto. }
  destruct (dict_comprehension_keys (fun k => _set_t k K) (fun x => _set_t x V)
              (same_value V) items []) as (xs' & E & HQ); [|assumption|exact Hd|].
  { eapply Forall_impl; [exact Hitems|]. now intros kv [Hkv _]. }
  exists xs'. repeat split; [exact E|exact HQ|].
  eapply Forall_impl; [exact Hitems|]. now intros kv [_ Hkv].
Qed.

Lemma round_trips_fixed_tuple (xs : list pyvalue) :
  Forall round_trips xs ->
  forall As, all2 (conforms AsParsed) xs As = true ->
  exists ys, _set_t (VTuple xs) (TAlias Ktuple As) = Ok (VTuple ys) /\
             Forall2 (fun x y => py_eq x y = true) xs ys /\
             (forallb frozenset_free As = true \/ forallb hashable xs = true -> ys = xs).
Proof.
  induction 1 as [|x xs Hx _ IH]; intros [|A0 As] Hc; try discriminate Hc.
  - exists []. rewrite set_t_cases. simpl. repeat split. constructor.
  - simpl in Hc. apply andb_prop in Hc as [Hcx Hc].
    destruct (Hx A0 Hcx) as (y & Hy & Hxy & Heq).
    destruct (IH As Hc) as (ys & Hys & Hpy & Heqs).
    assert (match_case Ktuple (OClass Ktuple) (A0 :: As) = CaseTuple A0 As) as Hcase.
    { destruct As as [|A1 [|A2 As]]; [reflexivity| |destruct A1; reflexivity].
      destruct A1; try reflexivity.
      destruct xs as [|x2 xs]; [discriminate Hc|].
      simpl in Hc. now rewrite conforms_Ellipsis in Hc. }
    exists (y :: ys). rewrite set_t_cases.
    change (match_case _ _ _) with (match_case Ktuple (OClass Ktuple) (A0 :: As)).
    rewrite Hcase. unfold getitem0, slice_from1; simpl.
    rewrite Hy; simpl. rewrite Hys; simpl.
    repeat split; [constructor; assumption|].
    intros Hcond. rewrite Heq, Heqs; [reflexivity| |].
    + destruct Hcond as [Hc'|Hc']; [left|right]; now apply andb_prop in Hc' as [_ ?].
    + destruct Hcond as [Hc'|Hc']; [left|right]; now apply andb_prop in Hc' as [? _].
Qed.


Lemma conforming_round_trips (value : pyvalue) : round_trips value.
Proof.
  induction value as [b|z|f|s| |items IH|xs IH|xs IH|xs IH|xs IH|cls v IH|c]
    using pyvalue_nested_ind; intros t Hc;
    destruct t as [k| | | |o args|args]; try discriminate Hc;
    try (destruct k; try discriminate Hc); try (destruct o; try discriminate Hc);
    try (destruct args as [|? [|? [|? ?]]]; discriminate Hc).
  - exists (VBool b). rewrite set_t_cases. repeat split. simpl. now destruct b.
  - exists (VInt z). rewrite set_t_cases. repeat split. simpl. apply Z.eqb_refl.
  - exists (VFloat f). rewrite set_t_cases. repeat split. exact Hc.
  - exists (VStr s). rewrite set_t_cases. repeat split. simpl. apply String.eqb_refl.
  - (* dict *)
    destruct args as [|K [|V [|? ?]]]; try discriminate Hc.
    destruct (round_trips_dict items K V IH Hc) as (xs' & E & HQ & Hkeys).
    exists (VDict (combine (map fst items) xs')). rewrite set_t_cases. simpl.
    rewrite E; simpl. repeat split.
    + simpl. apply andb_true_intro; split.
      * apply Nat.eqb_eq. rewrite length_combine, !length_map.
        apply Forall2_length in HQ. rewrite length_map in HQ. lia.
      * apply (dict_eq_combine items Hkeys xs' (same_value_py_eq _ _ _ HQ) []).
    + intros [Hf|Hh]; [|discriminate Hh]. simpl in Hf.
      apply andb_prop in Hf as [_ Hf]. apply andb_prop in Hf as [Hf _].
      rewrite (Forall2_eq (map snd items) xs'), combine_fst_snd_id; [reflexivity|].
      clear -HQ Hf. induction HQ as [|x y xs ys [_ Hxy] _ IHQ]; constructor; auto.
      symmetry. auto.
  - (* set against frozenset *)
    destruct args as [|A [|? ?]]; try discriminate Hc.
    destruct (round_trips_set xs A IH Hc) as [E Heq].
    exists (VFrozenset xs). rewrite set_t_cases. simpl. rewrite E; simpl.
    repeat split; [exact Heq|]. intros [Hf|Hh]; discriminate.
  - (* set against set *)
    destruct args as [|A [|? ?]]; try discriminate Hc.
    destruct (round_trips_set xs A IH Hc) as [E Heq].
    exists (VSet xs). rewrite set_t_cases. simpl. rewrite E; simpl.
    repeat split. exact Heq.
  - (* list *)
    destruct args as [|A [|? ?]]; try discriminate Hc.
    destruct (traverse_Forall2 _ (same_value A) xs (round_trips_elements A xs IH Hc))
      as (ys & E & HQ).
    exists (VList ys). rewrite set_t_cases. simpl. rewrite E; simpl. repeat split.
    + simpl. apply all2_Forall2. exact (same_value_py_eq _ _ _ HQ).
    + intros [Hf|Hh]; [|discriminate Hh]. simpl in Hf.
      apply andb_prop in Hf as [Hf _]. now rewrite (same_value_eq A xs ys HQ (or_introl Hf)).
  - (* tuple *)
    assert (all2 (conforms AsParsed) xs args = true ->
            exists value', _set_t (VTuple xs) (TAlias Ktuple args) = Ok value' /\
                           same_value (TAlias Ktuple args) (VTuple xs) value') as Hfixed.
    { intros Hc'. destruct (round_trips_fixed_tuple xs IH args Hc') as (ys & E & Hpy & Heq).
      exists (VTuple ys). repeat split; [exact E|simpl; now apply all2_Forall2|].
      intros Hcond. now rewrite Heq. }
    destruct args as [|A0 [|A1 args]]; try (apply Hfixed; exact Hc).
    destruct A1; try (apply Hfixed; exact Hc).
    destruct args as [|A2 args]; try (apply Hfixed; exact Hc).
    destruct (traverse_Forall2 _ (same_value A0) xs (round_trips_elements A0 xs IH Hc))
      as (ys & E & HQ).
    exists (VTuple ys). rewrite set_t_cases. simpl. rewrite E; simpl. repeat split.
    + simpl. apply all2_Forall2. exact (same_value_py_eq _ _ _ HQ).
    + intros Hcond. rewrite (same_value_eq A0 xs ys HQ); [reflexivity|].
      destruct Hcond as [Hf|Hh]; [left|now right].
      simpl in Hf. now apply andb_prop in Hf as [Hf _].
Qed.

End SetTFacts.

(** C1, as amended: for every nesting of list, dict, set, frozenset and tuple
    over the primitives, of any depth, and every value that conforms to it
    with a [set] where the annotation says [frozenset], [_set_t] returns a
    value equal ([==]) to the input, and with the runtime types and the
    contents of the input throughout when the annotation mentions no
    [frozenset]. *)
Theorem set_t_conforming `{PyRuntime} (value : pyvalue) (t : texpr) :
  conforms AsParsed value t = true ->
  exists value', _set_t value t = Ok value' /\
                 py_eq value value' = true /\
                 (frozenset_free t = true -> value' = value).
Proof.
  intros Hc. destruct (conforming_round_trips value t Hc) as (value' & E & Heq & Hsame).
  exists value'. auto.
Qed.

Lemma set_t_conforming_witness :
  conforms AsParsed
    (VDict [(VInt 1, VList [VSet [VStr "a"; VStr "b"]; VSet []]); (VInt 2, VList [])])
    (TAlias Kdict [TClass Kint; TAlias Klist [TAlias Kfrozenset [TClass Kstr]]])
  = true /\
  exists value',
    @_set_t reference_runtime
      (VDict [(VInt 1, VList [VSet [VStr "a"; VStr "b"]; VSet []]); (VInt 2, VList [])])
      (TAlias Kdict [TClass Kint; TAlias Klist [TAlias Kfrozenset [TClass Kstr]]])
    = Ok value' /\
    py_eq
      (VDict [(VInt 1, VList [VSet [VStr "a"; VStr "b"]; VSet []]); (VInt 2, VList [])])
      value' = true /\
    (frozenset_free
       (TAlias Kdict [TClass Kint; TAlias Klist [TAlias Kfrozenset [TClass Kstr]]])
     = true ->
     value' =
     VDict [(VInt 1, VList [VSet [VStr "a"; VStr "b"]; VSet []]); (VInt 2, VList [])]).
Proof.
  split; [reflexivity|].
  apply (@set_t_conforming reference_runtime). reflexivity.
Defined.

(** C1, as stated, fails: a [frozenset] value conforms to [frozenset[int]] as
    the annotation is written, at depth one, and [_set_t] raises
    [RuntimeError] on it. *)
Lemma set_t_frozenset_value_rejected :
  conforms AsWritten (VFrozenset [VInt 1; VInt 2]) (TAlias Kfrozenset [TClass Kint])
  = true /\
  (depth (TAlias Kfrozenset [TClass Kint]) <= 4)%nat /\
  @_set_t reference_runtime (VFrozenset [VInt 1; VInt 2])
    (TAlias Kfrozenset [TClass Kint])
  = Raise RuntimeError.
Proof. repeat split. simpl; lia. Qed.

(** A [frozenset] value is rejected against every [frozenset[A]], by every
    runtime. *)
Lemma set_t_frozenset_value `{PyRuntime} (elems : list pyvalue) (args : list texpr) :
  _set_t (VFrozenset elems) (TAlias Kfrozenset args) = Raise RuntimeError.
Proof.
  rewrite set_t_cases. simpl.
  destruct args as [|A [|B args]]; reflexivity.
Qed.

(** C4: on a tuple longer than the arity of the fixed tuple annotation,
    [_set_t] returns the coerced prefix instead of failing; on a shorter one
    the failure is the [IndexError] of [value[0]]. *)
Theorem set_t_fixed_tuple_length_mismatch `{PyRuntime} :
  _set_t (VTuple [VInt 1; VInt 2]) (TAlias Ktuple [TClass Kint]) = Ok (VTuple [VInt 1]) /\
  _set_t (VTuple []) (TAlias Ktuple [TClass Kint]) = Raise IndexError.
Proof.
  split.
  - rewrite set_t_cases; simpl. unfold getitem0, slice_from1; simpl.
    rewrite !set_t_cases; reflexivity.
  - rewrite set_t_cases; reflexivity.
Qed.

(** Where the lengths agree, the fixed tuple case coerces element by element
    and [tuple[()]] takes the empty tuple to the empty tuple. *)
Lemma set_t_fixed_tuple_cons `{PyRuntime} (x : pyvalue) (xs : list pyvalue)
    (A0 : texpr) (As : list texpr) :
  match_case Ktuple (OClass Ktuple) (A0 :: As) = CaseTuple A0 As ->
  _set_t (VTuple (x :: xs)) (TAlias Ktuple (A0 :: As)) =
  (head <- _set_t x A0;;
   rest <- _set_t (VTuple xs) (TAlias Ktuple As);;
   Ok (VTuple (head :: elems_of rest))).
Proof.
  intros Hcase. rewrite set_t_cases.
  change (match_case _ _ _) with (match_case Ktuple (OClass Ktuple) (A0 :: As)).
  rewrite Hcase. reflexivity.
Qed.

(** In general: whatever follows the elements that the annotation accounts
    for is dropped. *)
Lemma set_t_fixed_tuple_drops_extra `{PyRuntime} (xs extra : list pyvalue) :
  forall As, all2 (conforms AsParsed) xs As = true ->
  exists ys, _set_t (VTuple (xs ++ extra)) (TAlias Ktuple As) = Ok (VTuple ys) /\
             length ys = length As.
Proof.
  induction xs as [|x xs IH]; intros [|A0 As] Hc; try discriminate Hc.
  - exists []. rewrite set_t_cases. split; reflexivity.
  - simpl in Hc. apply andb_prop in Hc as [Hcx Hc].
    destruct (conforming_round_trips x A0 Hcx) as (y & Hy & _).
    destruct (IH As Hc) as (ys & Hys & Hlen).
    assert (match_case Ktuple (OClass Ktuple) (A0 :: As) = CaseTuple A0 As) as Hcase.
    { destruct As as [|A1 [|A2 As]]; [reflexivity| |destruct A1; reflexivity].
      destruct A1; try reflexivity.
      destruct xs as [|x2 xs]; [discriminate Hc|].
      simpl in Hc. now rewrite conforms_Ellipsis in Hc. }
    exists (y :: ys). simpl app. rewrite (set_t_fixed_tuple_cons _ _ _ _ Hcase).
    rewrite Hy; simpl. rewrite Hys; simpl. split; [reflexivity|]. now rewrite Hlen.
Qed.

(** C9: a tuple coerced against the bare [tuple] annotation, whose list of
    type arguments is empty, gives the empty tuple whatever the tuple
    holds. *)
Theorem set_t_bare_tuple `{PyRuntime} (elems : list pyvalue) :
  _set_t (VTuple elems) (TClass Ktuple) = Ok (VTuple []) /\
  _set_t (VTuple elems) (TAlias Ktuple []) = Ok (VTuple []).
Proof. split; rewrite set_t_cases; reflexivity. Qed.

(** ** Building parsers leaves the rest of the state alone *)

Lemma extends_refl (st : state) : extends st st.
Proof. unfold extends. repeat split; auto. Qed.

Lemma extends_trans (st1 st2 st3 : state) :
  extends st1 st2 -> extends st2 st3 -> extends st1 st3.
Proof.
  intros (F1 & A1 & P1 & C1 & L1 & D1) (F2 & A2 & P2 & C2 & L2 & D2).
  unfold extends. repeat split; try congruence; try lia.
  - destruct (D1 id H) as [E1 _]. destruct (D2 id ltac:(lia)) as [E2 _]. congruence.
  - destruct (D1 id H) as (_ & S1 & _). destruct (D2 id ltac:(lia)) as (_ & S2 & _).
    auto.
  - intros c Hc. destruct (D1 id H) as (_ & _ & I1).
    destruct (D2 id ltac:(lia)) as (_ & _ & I2). auto.
Qed.

Lemma stable_ret {A : Type} (a : A) : stable (ret a).
Proof. intros st. apply extends_refl. Qed.

Lemma stable_lift {A : Type} (r : result A) : stable (lift r).
Proof. intros st. apply extends_refl. Qed.

Lemma stable_bind {A B : Type} (m : M A) (k : A -> M B) :
  stable m -> (forall a, stable (k a)) -> stable (mbind m k).
Proof.
  intros Hm Hk st. unfold mbind. specialize (Hm st).
  destruct (m st) as [[a|e] st1]; simpl in *; [|exact Hm].
  eapply extends_trans; [exact Hm|apply Hk].
Qed.

Lemma stable_get_parser (parser : nat) : stable (get_parser parser).
Proof. intros st. apply extends_refl. Qed.

Lemma stable_get_function (ref : nat) : stable (get_function ref).
Proof. intros st. apply extends_refl. Qed.

Lemma stable_new_parser (doc : option string) : stable (new_parser doc).
Proof.
  intros st. unfold extends; simpl. repeat split; auto.
  - rewrite length_app. lia.
  - now rewrite lookup_total_app_l.
  - now rewrite lookup_total_app_l.
  - now rewrite lookup_total_app_l.
Qed.

(** Replacing a parser by one with the same description and no fewer
    subcommands. *)
Lemma stable_update (parser : nat)
    (f : ArgumentParser -> result unit * ArgumentParser) :
  (forall p p' r, f p = (r, p') ->
                  description p' = description p /\
                  (has_subparsers p = true -> has_subparsers p' = true) /\
                  forall c, In c (choices_of p) -> In c (choices_of p')) ->
  stable (p <~ get_parser parser;;
          let '(r, p') := f p in _ <~ put_parser parser p';; lift r).
Proof.
  intros Hf st. unfold mbind, get_parser, lift, put_parser.
  destruct (f (parsers st !!! parser)) as [r p'] eqn:E.
  destruct (Hf _ _ _ E) as (Hd & Hs & Hc).
  assert (extends st {| functions := functions st;
                        parsers := <[parser := p']> (parsers st);
                        sys_argv := sys_argv st; printed := printed st;
                        calls := calls st |}) as Hext;
    [|simpl; now destruct r].
  unfold extends; simpl. repeat split; auto.
  - now rewrite length_insert.
  - destruct (decide (parser = id)) as [->|Hne].
    + now rewrite list_lookup_total_insert_eq.
    + now rewrite list_lookup_total_insert_ne.
  - destruct (decide (parser = id)) as [->|Hne].
    + rewrite list_lookup_total_insert_eq; auto.
    + now rewrite list_lookup_total_insert_ne.
  - destruct (decide (parser = id)) as [->|Hne].
    + rewrite list_lookup_total_insert_eq; auto.
    + now rewrite list_lookup_total_insert_ne.
Qed.

Lemma has_subparsers_app (p : ArgumentParser) (a : action) :
  has_subparsers p = true ->
  has_subparsers (with_actions p (_actions p ++ [a])) = true.
Proof. unfold has_subparsers; simpl. rewrite existsb_app. now intros ->. Qed.

Lemma has_subparsers_add_choice (p : ArgumentParser) (c : subcommand) :
  has_subparsers (with_actions p (map (add_choice c) (_actions p))) = has_subparsers p.
Proof.
  unfold has_subparsers; simpl. induction (_actions p) as [|a acts IH]; simpl; [auto|].
  rewrite IH. now destruct a.
Qed.

Lemma choices_of_app (p : ArgumentParser) (a : action) :
  choices_of (with_actions p (_actions p ++ [a])) =
  choices_of p ++ match a with SubParsers choices => choices | _ => [] end.
Proof.
  unfold choices_of; simpl. rewrite map_app, concat_app; simpl.
  now rewrite app_nil_r.
Qed.

Lemma choices_of_add_choice (p : ArgumentParser) (c c' : subcommand) :
  In c (choices_of p) ->
  In c (choices_of (with_actions p (map (add_choice c') (_actions p)))).
Proof.
  unfold choices_of; simpl. induction (_actions p) as [|a acts IH]; simpl; [auto|].
  rewrite !in_app_iff. intros [Hc|Hc]; [left|right; auto].
  destruct a; simpl in *; auto. rewrite in_app_iff. auto.
Qed.

(** Replacing the default of the arguments leaves the subparsers action and
    its subcommands as they are. *)
Lemma set_default_subparsers (key : string) (value : pyvalue) (actions : list action) :
  map (fun a => match a with SubParsers choices => choices | _ => [] end)
    (map (set_default key value) actions)
  = map (fun a => match a with SubParsers choices => choices | _ => [] end) actions /\
  existsb (fun a => match a with SubParsers _ => true | _ => false end)
    (map (set_default key value) actions)
  = existsb (fun a => match a with SubParsers _ => true | _ => false end) actions.
Proof.
  induction actions as [|a actions [IH1 IH2]]; simpl; [auto|].
  rewrite IH1, IH2. destruct a as [|a|]; simpl; auto.
  now destruct (String.eqb (dest a) key).
Qed.

Lemma stable_set_defaults (parser : nat) (entrypoint : callable) :
  stable (set_defaults parser entrypoint).
Proof.
  intros st. unfold set_defaults, mbind, get_parser, put_parser.
  unfold extends; simpl. repeat split; auto.
  - now rewrite length_insert.
  - destruct (decide (parser = id)) as [->|Hne].
    + now rewrite list_lookup_total_insert_eq.
    + now rewrite list_lookup_total_insert_ne.
  - destruct (decide (parser = id)) as [->|Hne].
    + rewrite list_lookup_total_insert_eq by assumption.
      unfold has_subparsers; simpl.
      now rewrite (proj2 (set_default_subparsers _ _ _)).
    + now rewrite list_lookup_total_insert_ne.
  - destruct (decide (parser = id)) as [->|Hne].
    + rewrite list_lookup_total_insert_eq by assumption.
      unfold choices_of; simpl.
      now rewrite (proj1 (set_default_subparsers _ _ _)).
    + now rewrite list_lookup_total_insert_ne.
Qed.

Lemma stable_add_subparsers (parser : nat) : stable (add_subparsers parser).
Proof.
  intros st. unfold add_subparsers, mbind, get_parser, put_parser, lift, ret.
  destruct (has_subparsers _); [apply extends_refl|].
  unfold extends; simpl. repeat split; auto.
  - now rewrite length_insert.
  - destruct (decide (parser = id)) as [->|Hne].
    + now rewrite list_lookup_total_insert_eq.
    + now rewrite list_lookup_total_insert_ne.
  - destruct (decide (parser = id)) as [->|Hne].
    + rewrite list_lookup_total_insert_eq by assumption. apply has_subparsers_app.
    + now rewrite list_lookup_total_insert_ne.
  - destruct (decide (parser = id)) as [->|Hne].
    + rewrite list_lookup_total_insert_eq by assumption.
      intros c Hc. rewrite choices_of_app, in_app_iff. auto.
    + now rewrite list_lookup_total_insert_ne.
Qed.

Lemma stable_add_parser (subparsers : nat) (name : string)
    (doc : option string) (help : option (option string)) :
  stable (add_parser subparsers name doc help).
Proof.
  unfold add_parser. apply stable_bind; [apply stable_new_parser|]. intros sub_parser.
  intros st. unfold mbind, get_parser, put_parser, ret.
  unfold extends; simpl. repeat split; auto.
  - now rewrite length_insert.
  - destruct (decide (subparsers = id)) as [->|Hne].
    + now rewrite list_lookup_total_insert_eq.
    + now rewrite list_lookup_total_insert_ne.
  - destruct (decide (subparsers = id)) as [->|Hne].
    + rewrite list_lookup_total_insert_eq by assumption.
      now rewrite has_subparsers_add_choice.
    + now rewrite list_lookup_total_insert_ne.
  - destruct (decide (subparsers = id)) as [->|Hne].
    + rewrite list_lookup_total_insert_eq by assumption.
      intros c. apply choices_of_add_choice.
    + now rewrite list_lookup_total_insert_ne.
Qed.

Section DecoratorFacts.
Context `{PyRuntime}.

(** [_set_parameter] leaves the parser as it is, or with one more action;
    when it returns, the action is there. *)
Lemma set_parameter_parser (parser : ArgumentParser) (parameter : Param)
    (r : result unit) (parser' : ArgumentParser) :
  _set_parameter parser parameter = (r, parser') ->
  (parser' = parser /\ r <> Ok tt) \/ exists flag, parser' = register parser flag.
Proof.
  unfold _set_parameter.
  match goal with
  | |- context [match ?m with Ok _ => _ | Raise _ => _ end] => destruct m as [flag|e]
  end; [|intros [= <- <-]; now left].
  destruct (p_annotation parameter), (p_default parameter); cbv beta iota zeta;
    match goal with
    | |- context [join ?sep ?parts] => destruct (join sep parts)
    end; intros [= <- <-]; eauto.
Qed.

Lemma set_parameter_register (parser : ArgumentParser) (parameter : Param)
    (parser' : ArgumentParser) :
  _set_parameter parser parameter = (Ok tt, parser') ->
  exists flag, parser' = register parser flag.
Proof.
  intros E. destruct (set_parameter_parser _ _ _ _ E) as [[_ Hr]|Hflag];
    [now contradiction Hr|exact Hflag].
Qed.

(** A parameter with a default: the default is stored in the action, the
    value becomes optional, and the help text ends with [Default: <value>]
    after the metadata of the annotation, if any. *)
Lemma set_parameter_default (parser : ArgumentParser) (parameter : Param)
    (d : pyvalue) (parser' : ArgumentParser) :
  p_default parameter = Some d ->
  _set_parameter parser parameter = (Ok tt, parser') ->
  exists flag text,
    parser' = register parser flag /\
    default flag = d /\
    a_nargs flag = Some OPTIONAL /\
    join " " (match p_annotation parameter with
              | Annotated _ metadata => [metadata]
              | Plain _ => []
              end ++ [VStr ("Default: " +:+ py_str d)]) = Ok text /\
    help flag = Some text.
Proof.
  unfold _set_parameter. intros ->.
  match goal with
  | |- context [match ?m with Ok _ => _ | Raise _ => _ end] =>
      destruct m as [flag|e]; [|discriminate]
  end.
  destruct (p_annotation parameter); cbv beta iota zeta;
    match goal with
    | |- context [join ?sep ?parts] => destruct (join sep parts) as [text|e] eqn:E
    end; intros [= <-]; eexists _, text; repeat split; exact E.
Qed.

(** A keyword-only parameter, or a positional-or-keyword parameter with a
    default, becomes the flag [--name] with the underscores of the name
    replaced by hyphens. *)
Lemma set_parameter_flag (parser : ArgumentParser) (parameter : Param)
    (parser' : ArgumentParser) :
  p_kind parameter = KEYWORD_ONLY \/
  p_kind parameter = POSITIONAL_OR_KEYWORD /\ p_default parameter <> None ->
  _set_parameter parser parameter = (Ok tt, parser') ->
  exists flag,
    parser' = register parser flag /\
    option_strings flag = ["--" +:+ replace "_" "-" (p_name parameter)].
Proof.
  unfold _set_parameter. intros Hk.
  match goal with
  | |- context [match ?m with Ok _ => _ | Raise _ => _ end] =>
      destruct m as [flag|e] eqn:E; [|discriminate]
  end.
  assert (add_argument parser ("--" +:+ replace "_" "-" (p_name parameter)) = Ok flag)
    as Ha.
  { destruct Hk as [Hk|[Hk Hd]]; rewrite Hk in E; [now destruct (p_default parameter)|].
    destruct (p_default parameter); [exact E|congruence]. }
  assert (option_strings flag = ["--" +:+ replace "_" "-" (p_name parameter)]) as Ho.
  { revert Ha. unfold add_argument. simpl.
    destruct (String.eqb _ ""); [discriminate|].
    destruct (bool_decide _); [discriminate|]. now intros [= <-]. }
  destruct (p_annotation parameter), (p_default parameter); cbv beta iota zeta;
    match goal with
    | |- context [join ?sep ?parts] => destruct (join sep parts)
    end; intros [= <-]; eexists; split; try reflexivity; exact Ho.
Qed.

(** A variadic parameter is refused. *)
Lemma set_parameter_variadic (parser : ArgumentParser) (parameter : Param) :
  p_kind parameter = VAR_POSITIONAL \/ p_kind parameter = VAR_KEYWORD ->
  _set_parameter parser parameter = (Raise RuntimeError, parser).
Proof.
  unfold _set_parameter. intros [-> | ->]; now destruct (p_default parameter).
Qed.

Lemma stable_set_entrypoint (parser entrypoint : nat) :
  stable (_set_entrypoint parser entrypoint).
Proof.
  unfold _set_entrypoint.
  apply stable_bind; [apply stable_set_defaults|]. intros _.
  apply stable_bind; [apply stable_get_function|]. intros f.
  induction (fn_signature f) as [|parameter parameters IH]; simpl; [apply stable_ret|].
  apply stable_bind; [|intros _; exact IH].
  apply (stable_update parser (fun p => _set_parameter p parameter)).
  intros p p' r E. destruct (set_parameter_parser _ _ _ _ E) as [[-> _]|[flag ->]];
    [auto|].
  split; [reflexivity|]. split; [apply has_subparsers_app|].
  intros c Hc. unfold register. rewrite choices_of_app, in_app_iff. auto.
Qed.

Lemma stable_push_submodules (subparsers : nat) (decorated_name : string)
    (path : list (string * module)) (stack : list frame) :
  stable (push_submodules subparsers decorated_name path stack).
Proof.
  revert stack. induction path as [|[name sub_module] path IH]; simpl; intros stack.
  - apply stable_ret.
  - apply stable_bind; [destruct (startswith name "_"); apply stable_add_parser|].
    intros sub_parser. apply stable_bind; [apply stable_set_defaults|]. intros _.
    apply IH.
Qed.

Lemma stable_loop_body (self : _Decorator) (decorated_name : string)
    (top : frame) (stack : list frame) :
  stable (loop_body self decorated_name top stack).
Proof.
  destruct top as [[parser module] entrypoint]. unfold loop_body.
  apply stable_bind.
  - destruct (submodules self && _); [|apply stable_ret].
    apply stable_bind; [apply stable_add_subparsers|]. intros subparsers.
    apply stable_bind; [apply stable_push_submodules|]. intros stack'.
    destruct entrypoint; [|apply stable_ret].
    apply stable_bind; [apply stable_get_function|]. intros f.
    apply stable_bind; [apply stable_add_parser|]. intros p. apply stable_ret.
  - intros [parser' stack'].
    apply stable_bind; [|intros _; apply stable_ret].
    destruct entrypoint; [apply stable_set_entrypoint|apply stable_ret].
Qed.

Lemma stable_while_stack (self : _Decorator) (decorated_name : string)
    (stack : list frame) :
  stable (while_stack self decorated_name stack).
Proof.
  intros st. funelim (while_stack self decorated_name stack st).
  - apply extends_refl.
  - match goal with IH : extends st' _ |- _ => eapply extends_trans; [|exact IH] end.
    pose proof (stable_loop_body self decorated_name top stack st) as Hb.
    now rewrite e in Hb.
  - pose proof (stable_loop_body self decorated_name top stack st) as Hb.
    now rewrite e in Hb.
Qed.


(** The state in which [__call__] enters its loop: the root parser is
    created, with its help fallback, and attached to the function. *)
Lemma call_unfold (self : _Decorator) (entrypoint : nat) (st : state) :
  let f := functions st !!! entrypoint in
  let parser := length (parsers st) in
  let st3 :=
    {| functions :=
         <[entrypoint :=
             {| fn_name := fn_name f; fn_doc := fn_doc f; fn_module := fn_module f;
                fn_signature := fn_signature f;
                fn_iscoroutinefunction := fn_iscoroutinefunction f;
                fn_body := fn_body f;
                cli := Some {| _parser := parser |} |}]> (functions st);
       parsers :=
         <[parser :=
             {| description := doc_or (fn_doc f) (mod_doc (fn_module f));
                _defaults := <["entrypoint" := VCallable (PrintHelp parser)]> ∅;
                _actions := [Help] |}]>
           (parsers st ++
              [{| description := doc_or (fn_doc f) (mod_doc (fn_module f));
                  _defaults := ∅; _actions := [Help] |}]);
       sys_argv := sys_argv st; printed := printed st; calls := calls st |} in
  __call__ self entrypoint st =
  match while_stack self (fn_name f) [(parser, fn_module f, Some entrypoint)] st3 with
  | (Ok _, st4) => (Ok entrypoint, st4)
  | (Raise e, st4) => (Raise e, st4)
  end.
Proof.
  simpl. unfold __call__, mbind, get_function, new_parser, set_defaults, get_parser,
    put_parser, mbind, ret; simpl.
  rewrite list_lookup_total_middle by reflexivity. simpl.
  destruct (while_stack _ _ _ _) as [[[]|e] st4]; reflexivity.
Qed.


(** ** The documentation of the nodes *)

Lemma documented_intro (self : _Decorator) (decorated_name : string) (st : state)
    (parser : nat) (m : module) (entrypoint : option nat) :
  (submodules self && String.eqb (mod_name m) (mod_package m) = true ->
   Forall (fun sub : string * module =>
             exists sub_parser,
               In (submodule_choice (fst sub) sub_parser)
                 (choices_of (parsers st !!! parser)) /\
               description (parsers st !!! sub_parser) = mod_doc (snd sub) /\
               documented self decorated_name st sub_parser (snd sub)
                 (getattr (snd sub) decorated_name)) (mod_path m) /\
   match entrypoint with
   | Some e =>
       exists dot,
         In {| sc_name := ".";
               sc_help := Some (doc_or (fn_doc (functions st !!! e)) (mod_doc m));
               sc_parser := dot |}
           (choices_of (parsers st !!! parser))
   | None => True
   end) ->
  documented self decorated_name st parser m entrypoint.
Proof.
  destruct m as [name package doc attrs path]; simpl.
  destruct (submodules self && String.eqb name package); [|trivial].
  intros [HF He]; [reflexivity|]. split; [|exact He].
  induction HF as [|[n sub] path Hsub _ IH]; simpl; auto.
Qed.

Lemma choices_of_add_choice_new (p : ArgumentParser) (c : subcommand) :
  has_subparsers p = true ->
  In c (choices_of (with_actions p (map (add_choice c) (_actions p)))).
Proof.
  unfold has_subparsers, choices_of; simpl.
  induction (_actions p) as [|a acts IH]; simpl; [discriminate|].
  rewrite in_app_iff. destruct a; simpl; auto.
  intros _. left. rewrite in_app_iff. right. now left.
Qed.

Lemma add_parser_registers (subparsers : nat) (name : string)
    (doc : option string) (help : option (option string)) (st : state) :
  (subparsers < length (parsers st))%nat ->
  has_subparsers (parsers st !!! subparsers) = true ->
  exists st',
    add_parser subparsers name doc help st = (Ok (length (parsers st)), st') /\
    In {| sc_name := name; sc_help := help; sc_parser := length (parsers st) |}
      (choices_of (parsers st' !!! subparsers)) /\
    description (parsers st' !!! length (parsers st)) = doc /\
    length (parsers st') = S (length (parsers st)).
Proof.
  intros Hlt Hsub. eexists. split; [reflexivity|]. simpl.
  rewrite lookup_total_app_l by assumption.
  rewrite list_lookup_total_insert_eq by (rewrite length_app; lia).
  rewrite list_lookup_total_insert_ne by lia.
  rewrite list_lookup_total_middle by reflexivity.
  rewrite length_insert, length_app. simpl.
  repeat split; [|lia]. now apply choices_of_add_choice_new.
Qed.

Lemma push_submodules_nodes (subparsers : nat) (decorated_name : string)
    (path : list (string * module)) :
  forall (stack : list frame) (st : state),
    (subparsers < length (parsers st))%nat ->
    has_subparsers (parsers st !!! subparsers) = true ->
    Forall (fun fr : frame => (fst (fst fr) < length (parsers st))%nat) stack ->
    exists stack' st',
      push_submodules subparsers decorated_name path stack st = (Ok stack', st') /\
      Forall (fun fr : frame => (fst (fst fr) < length (parsers st'))%nat) stack' /\
      (forall fr, In fr stack -> In fr stack') /\
      Forall (fun sub : string * module =>
                exists sub_parser,
                  In (submodule_choice (fst sub) sub_parser)
                    (choices_of (parsers st' !!! subparsers)) /\
                  description (parsers st' !!! sub_parser) = mod_doc (snd sub) /\
                  In (sub_parser, snd sub, getattr (snd sub) decorated_name) stack')
        path.
Proof.
  induction path as [|[name sub_module] path IH]; simpl; intros stack st Hlt Hsub Hstack.
  - exists stack, st. repeat split; auto.
  - destruct (add_parser_registers subparsers name (mod_doc sub_module)
                (if startswith name "_" then None else Some (Some "")) st Hlt Hsub)
      as (st1 & E1 & Hin & Hdesc & Hlen).
    set (sub_parser := length (parsers st)) in *.
    pose proof (stable_add_parser subparsers name (mod_doc sub_module)
                  (if startswith name "_" then None else Some (Some "")) st) as Hext1.
    rewrite E1 in Hext1; simpl in Hext1.
    pose proof (stable_set_defaults sub_parser (PrintHelp sub_parser) st1) as Hext2.
    destruct (set_defaults sub_parser (PrintHelp sub_parser) st1) as [r2 st2] eqn:E2.
    assert (r2 = Ok tt) as -> by (now injection E2 as <- _).
    simpl in Hext2.
    destruct Hext1 as (_ & _ & _ & _ & Hl1 & Hp1).
    destruct Hext2 as (_ & _ & _ & _ & Hl2 & Hp2).
    destruct (Hp1 subparsers Hlt) as (_ & Hs1 & _).
    destruct (Hp2 subparsers ltac:(lia)) as (_ & Hs2 & Hc2).
    destruct (Hp2 sub_parser ltac:(lia)) as (Hd2 & _ & _).
    destruct (IH ((sub_parser, sub_module, getattr sub_module decorated_name) :: stack)
                st2) as (stack' & st' & E & Hbound & Hkeep & Hnodes);
      [lia|auto| |].
    { constructor; [simpl; lia|]. eapply Forall_impl; [exact Hstack|].
      intros fr Hfr; simpl in *. lia. }
    pose proof (stable_push_submodules subparsers decorated_name path
                  ((sub_parser, sub_module, getattr sub_module decorated_name) :: stack)
                  st2) as Hext3.
    rewrite E in Hext3; simpl in Hext3.
    destruct Hext3 as (_ & _ & _ & _ & Hl3 & Hp3).
    destruct (Hp3 subparsers ltac:(lia)) as (_ & _ & Hc3).
    destruct (Hp3 sub_parser ltac:(lia)) as (Hd3 & _ & _).
    exists stack', st'. split.
    { unfold mbind.
      assert ((if startswith name "_"
               then add_parser subparsers name (mod_doc sub_module) None
               else add_parser subparsers name (mod_doc sub_module) (Some (Some ""))) st
              = (Ok sub_parser, st1)) as ->.
      { rewrite <- E1. now destruct (startswith name "_"). }
      fold sub_parser. rewrite E2. exact E. }
    split; [exact Hbound|]. split; [intros fr Hfr; apply Hkeep; now right|].
    constructor; [|exact Hnodes]. exists sub_parser. simpl. repeat split.
    + apply Hc3, Hc2. exact Hin.
    + rewrite Hd3, Hd2. exact Hdesc.
    + apply Hkeep. now left.
Qed.


(** Runs the first step of a stateful computation in the hypothesis [E]. *)
Ltac mstep E r st' Er :=
  unfold mbind at 1 in E;
  match type of E with
  | context [match ?m ?st with _ => _ end] =>
      destruct (m st) as [[r|?] st'] eqn:Er; [|discriminate E]
  end.

Lemma add_subparsers_ok (parser : nat) (st : state) (subparsers : nat) (st' : state) :
  add_subparsers parser st = (Ok subparsers, st') ->
  (parser < length (parsers st))%nat ->
  subparsers = parser /\ has_subparsers (parsers st' !!! parser) = true.
Proof.
  unfold add_subparsers, mbind, get_parser, put_parser, lift, ret.
  destruct (has_subparsers _); [discriminate|].
  intros [= <- <-] Hlt; simpl. split; [reflexivity|].
  rewrite list_lookup_total_insert_eq by assumption.
  unfold has_subparsers; simpl. rewrite existsb_app; simpl. apply orb_true_r.
Qed.

Lemma loop_body_nodes (self : _Decorator) (decorated_name : string)
    (parser : nat) (m : module) (entrypoint : option nat)
    (stack : list frame) (st : state) (stack' : list frame) (st1 : state) :
  loop_body self decorated_name (parser, m, entrypoint) stack st = (Ok stack', st1) ->
  (parser < length (parsers st))%nat ->
  Forall (fun fr : frame => (fst (fst fr) < length (parsers st))%nat) stack ->
  Forall (fun fr : frame => (fst (fst fr) < length (parsers st1))%nat) stack' /\
  (forall fr, In fr stack -> In fr stack') /\
  (submodules self && String.eqb (mod_name m) (mod_package m) = true ->
   Forall (fun sub : string * module =>
             exists sub_parser,
               In (submodule_choice (fst sub) sub_parser)
                 (choices_of (parsers st1 !!! parser)) /\
               description (parsers st1 !!! sub_parser) = mod_doc (snd sub) /\
               In (sub_parser, snd sub, getattr (snd sub) decorated_name) stack')
     (mod_path m) /\
   match entrypoint with
   | Some e =>
       exists dot,
         In {| sc_name := ".";
               sc_help := Some (doc_or (fn_doc (functions st1 !!! e)) (mod_doc m));
               sc_parser := dot |}
           (choices_of (parsers st1 !!! parser))
   | None => True
   end).
Proof.
  intros E Hlt Hstack. unfold loop_body in E.
  mstep E r st2 E2. destruct r as [parser' stack2].
  mstep E u st3 E3. injection E as <- <-.
  assert (extends st2 st3) as Hext23.
  { pose proof (stable_set_entrypoint parser') as Hs.
    destruct entrypoint as [e|].
    - specialize (Hs e st2). now rewrite E3 in Hs.
    - injection E3 as _ <-. apply extends_refl. }
  destruct Hext23 as (Hf23 & _ & _ & _ & Hl23 & Hp23).
  destruct (submodules self && String.eqb (mod_name m) (mod_package m)).
  - mstep E2 subparsers sta Ea.
    destruct (add_subparsers_ok _ _ _ _ Ea Hlt) as [-> Hsub].
    pose proof (stable_add_subparsers parser st) as Hexta.
    rewrite Ea in Hexta; simpl in Hexta.
    destruct Hexta as (_ & _ & _ & _ & Hla & _).
    destruct (push_submodules_nodes parser decorated_name (mod_path m) stack sta)
      as (stackb & stb & Eb & Hbound & Hkeep & Hnodes); [lia|exact Hsub| |].
    { eapply Forall_impl; [exact Hstack|]. intros fr Hfr; simpl in *; lia. }
    pose proof (stable_push_submodules parser decorated_name (mod_path m) stack sta)
      as Hextb.
    rewrite Eb in Hextb; simpl in Hextb.
    destruct Hextb as (_ & _ & _ & _ & Hlb & Hpb).
    destruct (Hpb parser ltac:(lia)) as (_ & Hsb & _).
    unfold mbind at 1 in E2. rewrite Eb in E2.
    assert (extends stb st2 /\ stack2 = stackb /\
            match entrypoint with
            | Some e =>
                exists dot,
                  In {| sc_name := ".";
                        sc_help := Some (doc_or (fn_doc (functions stb !!! e))
                                           (mod_doc m));
                        sc_parser := dot |}
                    (choices_of (parsers st2 !!! parser))
            | None => True
            end) as (Hextc & -> & Hdot).
    { destruct entrypoint as [e|].
      - unfold mbind at 1, get_function at 1 in E2.
        destruct (add_parser_registers parser "." None
                    (Some (doc_or (fn_doc (functions stb !!! e)) (mod_doc m))) stb)
          as (stc & Ec & Hin & _ & _); [lia|auto|].
        pose proof (stable_add_parser parser "." None
                      (Some (doc_or (fn_doc (functions stb !!! e)) (mod_doc m)))
                      stb) as Hextc.
        rewrite Ec in Hextc; simpl in Hextc.
        unfold mbind at 1 in E2. rewrite Ec in E2. injection E2 as <- <- <-.
        split; [exact Hextc|]. split; [reflexivity|]. eauto.
      - injection E2 as <- <- <-. split; [apply extends_refl|]. auto. }
    destruct Hextc as (Hfc & _ & _ & _ & Hlc & Hpc).
    split; [|split; [exact Hkeep|]].
    { eapply Forall_impl; [exact Hbound|]. intros fr Hfr; simpl in *; lia. }
    intros _. split.
    + eapply Forall_impl; [exact Hnodes|].
      intros sub (sub_parser & Hin & Hdesc & Hfr). exists sub_parser.
      assert (sub_parser < length (parsers stb))%nat as Hsp.
      { rewrite Forall_forall in Hbound.
        apply (Hbound (sub_parser, snd sub, getattr (snd sub) decorated_name)).
        now apply list_elem_of_In. }
      destruct (Hpc parser ltac:(lia)) as (_ & _ & Hcc).
      destruct (Hp23 parser ltac:(lia)) as (_ & _ & Hc23).
      destruct (Hpc sub_parser Hsp) as (Hdc & _ & _).
      destruct (Hp23 sub_parser ltac:(lia)) as (Hd23 & _ & _).
      repeat split; [auto| |exact Hfr]. now rewrite Hd23, Hdc.
    + destruct entrypoint as [e|]; [|exact I].
      destruct Hdot as [dot Hdot]. exists dot.
      destruct (Hp23 parser ltac:(lia)) as (_ & _ & Hc23).
      rewrite Hf23, Hfc. auto.
  - injection E2 as <- <- <-. split; [|split; [auto|discriminate]].
    eapply Forall_impl; [exact Hstack|]. intros fr Hfr; simpl in *; lia.
Qed.


(** Every module waiting on the stack is documented once the loop has
    ended. *)
Lemma while_stack_documented (self : _Decorator) (decorated_name : string)
    (stack : list frame) (st : state) :
  forall st', while_stack self decorated_name stack st = (Ok tt, st') ->
  Forall (fun fr : frame => (fst (fst fr) < length (parsers st))%nat) stack ->
  Forall (fun fr : frame =>
            documented self decorated_name st' (fst (fst fr)) (snd (fst fr)) (snd fr))
    stack.
Proof.
  funelim (while_stack self decorated_name stack st); intros st'' E Hstack.
  - constructor.
  - destruct top as [[parser m] entrypoint].
    inversion Hstack as [|? ? Hlt Hrest]; subst. simpl in Hlt.
    destruct (loop_body_nodes _ _ _ _ _ _ _ _ _ e Hlt Hrest) as (Hbound & Hkeep & Hnodes).
    match goal with
    | IH : forall st'0, _ = (Ok tt, st'0) -> _ |- _ => specialize (IH st'' E Hbound)
    end.
    rewrite Forall_forall in H0.
    pose proof (stable_while_stack self decorated_name stack' st') as Hext.
    rewrite E in Hext; simpl in Hext.
    destruct Hext as (Hf & _ & _ & _ & Hl & Hp).
    pose proof (stable_loop_body self decorated_name (parser, m, entrypoint) stack st)
      as Hext1.
    rewrite e in Hext1; simpl in Hext1. destruct Hext1 as (_ & _ & _ & _ & Hl1 & _).
    constructor.
    + simpl. apply documented_intro. intros Hpkg.
      destruct (Hnodes Hpkg) as [Hsubs Hdot]. split.
      * eapply Forall_impl; [exact Hsubs|].
        intros sub (sub_parser & Hin & Hdesc & Hfr). exists sub_parser.
        assert (sub_parser < length (parsers st'))%nat as Hsp.
        { rewrite Forall_forall in Hbound.
          apply (Hbound (sub_parser, snd sub, getattr (snd sub) decorated_name)).
          now apply list_elem_of_In. }
        destruct (Hp parser ltac:(lia)) as (_ & _ & Hc).
        destruct (Hp sub_parser Hsp) as (Hd & _ & _).
        repeat split; [auto|now rewrite Hd|].
        apply (H0 (sub_parser, snd sub, getattr (snd sub) decorated_name)).
        now apply list_elem_of_In.
      * destruct entrypoint as [en|]; [|exact I].
        destruct Hdot as [dot Hdot]. exists dot.
        destruct (Hp parser ltac:(lia)) as (_ & _ & Hc). rewrite Hf. auto.
    + apply Forall_forall. intros fr Hfr. apply H0.
      apply list_elem_of_In, Hkeep. now apply list_elem_of_In.
  - discriminate E.
Qed.

End DecoratorFacts.

(** C10: the decorator returns the very function object it was given, and the
    only change to the function objects is the [cli] attribute of that one:
    its body and signature, and every other function object, are as before,
    and decorating calls nothing. *)
Theorem call_returns_the_function `{PyRuntime} (self : _Decorator) (entrypoint : nat)
    (st : state) :
  let f := functions st !!! entrypoint in
  let r := __call__ self entrypoint st in
  match fst r with Ok decorated => decorated = entrypoint | Raise _ => True end /\
  functions (snd r) =
    <[entrypoint :=
        {| fn_name := fn_name f; fn_doc := fn_doc f; fn_module := fn_module f;
           fn_signature := fn_signature f;
           fn_iscoroutinefunction := fn_iscoroutinefunction f;
           fn_body := fn_body f;
           cli := Some {| _parser := length (parsers st) |} |}]> (functions st) /\
  fn_body (functions (snd r) !!! entrypoint) = fn_body f /\
  fn_signature (functions (snd r) !!! entrypoint) = fn_signature f /\
  fn_iscoroutinefunction (functions (snd r) !!! entrypoint) = fn_iscoroutinefunction f /\
  (forall other, other <> entrypoint ->
                 functions (snd r) !!! other = functions st !!! other) /\
  calls (snd r) = calls st.
Proof.
  intros f r. subst r. rewrite call_unfold. fold f.
  match goal with
  | |- context [while_stack ?s ?n ?stk ?st3] =>
      pose proof (stable_while_stack s n stk st3) as (Hf & _ & _ & Hc & _);
      destruct (while_stack s n stk st3) as [[[]|e] st4]
  end; simpl in *; rewrite Hf, Hc.
  all: split; [auto|split; [reflexivity|]].
  all: destruct (decide (entrypoint < length (functions st))%nat) as [Hlt|Hge].
  all: try (rewrite list_lookup_total_insert_eq by assumption; simpl;
            repeat split; auto;
            intros other Hne; now rewrite list_lookup_total_insert_ne).
  all: rewrite list_insert_ge by lia; repeat split; auto.
Qed.

(** C8, as amended: after a successful decoration the root parser has as
    description the documentation string of the decorated entrypoint, or else
    of its module; every submodule subcommand, at every level, has a parser
    whose description is the documentation string of the submodule, whatever
    its entrypoint documents; and the subcommand [.] of a package has as help
    the documentation string of the package's entrypoint, or else of the
    package. *)
Theorem call_documents_nodes `{PyRuntime} (self : _Decorator) (entrypoint : nat)
    (st : state) (decorated : nat) :
  fst (__call__ self entrypoint st) = Ok decorated ->
  description (parsers (snd (__call__ self entrypoint st)) !!! length (parsers st)) =
    doc_or (fn_doc (functions st !!! entrypoint))
      (mod_doc (fn_module (functions st !!! entrypoint))) /\
  documented self (fn_name (functions st !!! entrypoint))
    (snd (__call__ self entrypoint st)) (length (parsers st))
    (fn_module (functions st !!! entrypoint)) (Some entrypoint).
Proof.
  rewrite call_unfold.
  match goal with
  | |- context [while_stack ?s ?n ?stk ?st3] =>
      pose proof (stable_while_stack s n stk st3) as (_ & _ & _ & _ & _ & Hp);
      pose proof (while_stack_documented s n stk st3) as Hdoc;
      destruct (while_stack s n stk st3) as [[[]|e] st4]; [|discriminate]
  end.
  intros _. simpl in *.
  assert (length (parsers st) <
          length (<[length (parsers st) :=
                      {| description :=
                           doc_or (fn_doc (functions st !!! entrypoint))
                             (mod_doc (fn_module (functions st !!! entrypoint)));
                         _defaults :=
                           <["entrypoint" := VCallable (PrintHelp (length (parsers st)))]> ∅;
                         _actions := [Help] |}]>
                    (parsers st ++
                       [{| description :=
                             doc_or (fn_doc (functions st !!! entrypoint))
                               (mod_doc (fn_module (functions st !!! entrypoint)));
                           _defaults := ∅; _actions := [Help] |}])))%nat as Hlt.
  { rewrite length_insert, length_app; simpl; lia. }
  split.
  - destruct (Hp _ Hlt) as (-> & _ & _).
    rewrite list_lookup_total_insert_eq; [reflexivity|].
    rewrite length_app; simpl; lia.
  - specialize (Hdoc st4 eq_refl). 
    assert (Forall (fun fr : frame => (fst (fst fr) < _)%nat)
              [(length (parsers st), fn_module (functions st !!! entrypoint),
                Some entrypoint)]) as Hstack by (constructor; [exact Hlt|constructor]).
    specialize (Hdoc Hstack). now inversion Hdoc.
Qed.

Lemma call_documents_nodes_witness :
  fst (@__call__ reference_runtime {| submodules := true |} 0%nat (prog_state []))
    = Ok 0%nat /\
  description
    (parsers (snd (@__call__ reference_runtime {| submodules := true |} 0%nat
                     (prog_state [])))
     !!! length (parsers (prog_state []))) =
    doc_or (fn_doc (functions (prog_state []) !!! 0%nat))
      (mod_doc (fn_module (functions (prog_state []) !!! 0%nat))) /\
  documented {| submodules := true |} (fn_name (functions (prog_state []) !!! 0%nat))
    (snd (@__call__ reference_runtime {| submodules := true |} 0%nat (prog_state [])))
    (length (parsers (prog_state [])))
    (fn_module (functions (prog_state []) !!! 0%nat)) (Some 0%nat).
Proof.
  split; [reflexivity|].
  apply (@call_documents_nodes reference_runtime {| submodules := true |} 0%nat
           (prog_state []) 0%nat).
  reflexivity.
Defined.

(** C8, as stated, fails: the submodule [prog.foo] binds an entrypoint with a
    documentation string of its own, and the description of its node is the
    documentation string of the module. *)
Lemma submodule_description_is_module_doc :
  In (submodule_choice "foo" 1) (choices_of (parsers prog_decorated !!! 0%nat)) /\
  _defaults (parsers prog_decorated !!! 1%nat) !! "entrypoint"
    = Some (VCallable (Fn 1)) /\
  fn_doc (functions prog_decorated !!! 1%nat) = Some "foo entrypoint" /\
  description (parsers prog_decorated !!! 1%nat) = Some "foo module" /\
  description (parsers prog_decorated !!! 1%nat) <>
    doc_or (fn_doc (functions prog_decorated !!! 1%nat)) (mod_doc prog_foo).
Proof.
  vm_compute. repeat split; auto. discriminate.
Qed.

(** ** Running the parsed command line *)

Lemma setitem_fresh (kwargs : list (string * pyvalue)) (name : string) (v : pyvalue) :
  ~ In name (map fst kwargs) -> setitem kwargs name v = kwargs ++ [(name, v)].
Proof.
  induction kwargs as [|[n w] kwargs IH]; simpl; intros Hn; [reflexivity|].
  destruct (String.eqb_spec n name) as [->|Hne]; [tauto|].
  rewrite IH; tauto.
Qed.

Lemma keyword_arguments_names (parsed_args : namespace) (parameters : list Param) :
  forall name, In name (map fst (keyword_arguments parsed_args parameters)) ->
               In name (map p_name parameters).
Proof.
  unfold keyword_arguments.
  induction parameters as [|p parameters IH]; simpl; intros name; [tauto|].
  destruct (negb (bool_decide (p_kind p = POSITIONAL_ONLY))); simpl; [|auto].
  destruct (parsed_args !! p_name p); simpl; [|auto].
  intros [<-|Hn]; auto.
Qed.

(** The loop of [run] ends with the positional-only parameters, in order, in
    [args] and all the others in [kwargs], when every parameter has an entry
    in the parsed mapping. *)
Lemma collect_partitions (parsed_args : namespace) (parameters : list Param) :
  NoDup (map p_name parameters) ->
  Forall (fun p => is_Some (parsed_args !! p_name p)) parameters ->
  forall args kwargs,
    (forall name, In name (map fst kwargs) -> ~ In name (map p_name parameters)) ->
    collect parsed_args parameters args kwargs =
    Ok (args ++ positional_arguments parsed_args parameters,
        kwargs ++ keyword_arguments parsed_args parameters).
Proof.
  unfold positional_arguments, keyword_arguments.
  induction parameters as [|p parameters IH]; simpl; intros Hnd Hall args kwargs Hfresh.
  - now rewrite !app_nil_r.
  - apply NoDup_cons in Hnd as [Hp Hnd]. inversion Hall as [|? ? [v Hv] Hall']; subst.
    unfold getitem. rewrite Hv; simpl.
    destruct (bool_decide (p_kind p = POSITIONAL_ONLY)); simpl.
    + rewrite Hv; simpl. rewrite IH; auto.
      * now rewrite <- app_assoc.
      * intros name Hn Hin. apply (Hfresh name Hn). now right.
    + rewrite Hv; simpl. rewrite setitem_fresh.
      * rewrite IH; auto; [now rewrite <- app_assoc|].
        intros name Hn Hin. rewrite map_app, in_app_iff in Hn. simpl in Hn.
        destruct Hn as [Hn|[<-|[]]].
        -- apply (Hfresh name Hn). now right.
        -- apply Hp. now apply list_elem_of_In.
      * intros Hn. apply (Hfresh _ Hn). now left.
Qed.

(** When the parser has resolved the entrypoint to a function and the parsed
    mapping has an entry under the name of each of its parameters, [run] calls
    that function exactly once, with the values of the positional-only
    parameters in declaration order as positional arguments and the values of
    all other parameters as keyword arguments, and returns what the body
    computes, for a coroutine function as for a plain one. *)
Lemma run_partitions_and_invokes `{PyRuntime} (self : _Decoration) (args : option (list string))
    (st : state) (parsed_args : namespace) (ref : nat) :
  parse_args (parsers st) (_parser self)
    (match args with None => tail (sys_argv st) | Some args => args end)
    = Ok parsed_args ->
  parsed_args !! "entrypoint" = Some (VCallable (Fn ref)) ->
  NoDup (map p_name (fn_signature (functions st !!! ref))) ->
  Forall (fun p => is_Some (parsed_args !! p_name p))
    (fn_signature (functions st !!! ref)) ->
  run self args st =
  (v <- fn_body (functions st !!! ref)
          (positional_arguments parsed_args (fn_signature (functions st !!! ref)))
          (keyword_arguments parsed_args (fn_signature (functions st !!! ref)));;
   Ok (Value v),
   record_call
     {| callee := Fn ref;
        call_args :=
          positional_arguments parsed_args (fn_signature (functions st !!! ref));
        call_kwargs :=
          keyword_arguments parsed_args (fn_signature (functions st !!! ref)) |} st).
Proof.
  intros Hparse Hentry Hnd Hall. unfold run, mbind, lift.
  rewrite Hparse. unfold getitem at 1. rewrite Hentry. simpl signature. cbv iota beta.
  rewrite (collect_partitions _ _ Hnd Hall [] []) by (simpl; tauto). simpl.
  destruct (fn_iscoroutinefunction (functions st !!! ref)) eqn:Hco; simpl.
  - unfold bind. now destruct (fn_body _ _ _).
  - unfold bind, ret. now destruct (fn_body _ _ _).
Qed.

(** C7: when the resolved entrypoint is the help fallback of a parser, [run]
    looks up the parameter [file] of [print_help] in the parsed mapping,
    which has no such entry: it raises [KeyError] before calling anything,
    and no help is printed. *)
Theorem run_help_fallback_raises `{PyRuntime} (self : _Decoration) (args : option (list string))
    (st : state) (parsed_args : namespace) (parser : nat) :
  parse_args (parsers st) (_parser self)
    (match args with None => tail (sys_argv st) | Some args => args end)
    = Ok parsed_args ->
  parsed_args !! "entrypoint" = Some (VCallable (PrintHelp parser)) ->
  parsed_args !! "file" = None ->
  run self args st = (Raise (KeyError "file"), st).
Proof.
  intros Hparse Hentry Hfile. unfold run, mbind, lift.
  rewrite Hparse. unfold getitem at 1. rewrite Hentry. simpl.
  unfold getitem. now rewrite Hfile.
Qed.

Lemma run_partitions_and_invokes_witness :
  @run reference_runtime {| _parser := 0 |} (Some ["1"; "hi"; "--c"; "False"; "--d"; "0.5"])
    (end_to_end_decorated echo) =
  (Ok (Value (VTuple [VList [VInt 1];
                      VDict [(VStr "b", VStr "hi"); (VStr "c", VBool false);
                             (VStr "d", VFloat 0.5)]])),
   record_call
     {| callee := Fn 0; call_args := [VInt 1];
        call_kwargs := [("b", VStr "hi"); ("c", VBool false); ("d", VFloat 0.5)] |}
     (end_to_end_decorated echo)).
Proof.
  pose (parsed_args :=
          match @parse_args reference_runtime (parsers (end_to_end_decorated echo)) 0%nat
                  ["1"; "hi"; "--c"; "False"; "--d"; "0.5"] with
          | Ok ns => ns
          | Raise _ => ∅
          end).
  rewrite (@run_partitions_and_invokes reference_runtime {| _parser := 0 |}
             (Some ["1"; "hi"; "--c"; "False"; "--d"; "0.5"])
             (end_to_end_decorated echo) parsed_args 0%nat).
  - vm_compute. reflexivity.
  - vm_compute. reflexivity.
  - vm_compute. reflexivity.
  - refine (bool_decide_unpack _ _). vm_compute. exact I.
  - refine (bool_decide_unpack _ _). vm_compute. exact I.
Defined.

Lemma run_help_fallback_raises_witness :
  @run reference_runtime {| _parser := 0 |} (Some []) prog_decorated
  = (Raise (KeyError "file"), prog_decorated).
Proof.
  pose (parsed_args :=
          match @parse_args reference_runtime (parsers prog_decorated) 0%nat [] with
          | Ok ns => ns
          | Raise _ => ∅
          end).
  apply (@run_help_fallback_raises reference_runtime {| _parser := 0 |} (Some []) prog_decorated
           parsed_args 0%nat).
  - vm_compute. reflexivity.
  - vm_compute. reflexivity.
  - vm_compute. reflexivity.
Defined.

(** The help fallback of a submodule without entrypoint fails in the same
    way, and nothing is printed. *)
Lemma run_submodule_help_fallback :
  @run reference_runtime {| _parser := 0 |} (Some ["_bar"]) prog_decorated
  = (Raise (KeyError "file"), prog_decorated) /\
  printed prog_decorated = [].
Proof. split; vm_compute; reflexivity. Qed.

(** *** The keys of the parsed mapping *)

Section ParsedKeys.
Context `{PyRuntime}.

Lemma parse_optional_flag (p : ArgumentParser) (arg : string) (a : action)
    (explicit_arg : option string) :
  parse_optional p arg = Flag a explicit_arg -> In a (_actions p).
Proof.
  unfold parse_optional. destruct (negb (startswith arg "-")); [discriminate|].
  destruct (exact_option p arg) as [a'|] eqn:E.
  - intros [= <- _]. apply find_some in E. tauto.
  - destruct (String.eqb arg "-"); [discriminate|].
    destruct (split_at "=" arg) as [prefix explicit].
    assert (match (if startswith arg "--" then option_candidates p prefix else []) with
            | [a] => Flag a explicit
            | _ :: _ :: _ => Ambiguous
            | [] =>
                if negative_number arg then Positional
                else if contains " " arg then Positional
                else Unrecognized
            end = Flag a explicit_arg -> In a (_actions p)) as Hcandidates.
    { destruct (if startswith arg "--" then option_candidates p prefix else [])
        as [|a1 [|a2 l]] eqn:Ec.
      + destruct (negative_number arg); [discriminate|].
        destruct (contains " " arg); discriminate.
      + intros [= <- _]. destruct (startswith arg "--"); [|discriminate Ec].
        assert (In a1 (option_candidates p prefix)) as Hin by (rewrite Ec; now left).
        unfold option_candidates in Hin. apply filter_In in Hin. tauto.
      + discriminate. }
    destruct explicit as [explicit|]; [|exact Hcandidates].
    destruct (exact_option p prefix) as [a'|] eqn:E'; [|exact Hcandidates].
    intros [= <- _]. apply find_some in E'. tauto.
Qed.

Lemma finish_positionals_key (key : string) (pending : list action) :
  (forall a, In (Argument a) pending -> dest a <> key) ->
  forall ns ns', finish_positionals pending ns = Ok ns' -> ns' !! key = ns !! key.
Proof.
  induction pending as [|a pending IH]; simpl; intros Hp ns ns'; [now intros [= <-]|].
  destruct a as [|a|choices]; [apply IH; auto| |apply IH; auto].
  destruct (a_nargs a) as [[]|]; [|discriminate].
  destruct (get_default a) as [v|e]; [|discriminate]. simpl. intros E.
  rewrite (IH (fun a' Ha' => Hp a' (or_intror Ha')) _ _ E).
  apply lookup_insert_ne. apply Hp. now left.
Qed.

Lemma finish_options_key (key : string) (actions : list action) (seen : list string) :
  (forall a, In (Argument a) actions -> dest a <> key) ->
  forall ns ns', finish_options actions seen ns = Ok ns' -> ns' !! key = ns !! key.
Proof.
  induction actions as [|a actions IH]; simpl; intros Hp ns ns'; [now intros [= <-]|].
  destruct a as [|a|choices]; [apply IH; auto| |apply IH; auto].
  destruct (bool_decide (option_strings a = []) || bool_decide (dest a ∈ seen));
    [apply IH; auto|].
  destruct (required a); [discriminate|].
  destruct (get_default a) as [v|e]; [|discriminate]. simpl. intros E.
  rewrite (IH (fun a' Ha' => Hp a' (or_intror Ha')) _ _ E).
  apply lookup_insert_ne. apply Hp. now left.
Qed.

(** A parser without subcommands changes the parsed mapping only under the
    keys of its arguments. *)
Lemma parse_known_args_key (ps : list ArgumentParser) (p : ArgumentParser)
    (key : string) :
  (forall a, In (Argument a) (_actions p) -> dest a <> key) ->
  has_subparsers p = false ->
  forall args pending seen ns extras r,
    (forall a, In a pending -> In a (_actions p)) ->
    parse_known_args ps p pending seen ns extras args = Ok r ->
    fst r !! key = ns !! key.
Proof.
  intros Hkey Hsub.
  assert (forall choices, ~ In (SubParsers choices) (_actions p)) as Hno.
  { intros choices Hin. unfold has_subparsers in Hsub.
    assert (existsb (fun a => match a with SubParsers _ => true | _ => false end)
              (_actions p) = true) as Ht
      by (apply existsb_exists; now exists (SubParsers choices)).
    congruence. }
  intros args. remember (length args) as n eqn:Hn. revert args Hn.
  induction n as [n IH] using lt_wf_ind.
  intros [|arg rest] Hn pending seen ns extras r Hpend.
  - simpl. unfold finish.
    destruct (finish_positionals pending ns) as [ns1|e] eqn:E1; [|discriminate].
    simpl. destruct (finish_options (_actions p) seen ns1) as [ns2|e] eqn:E2;
      [|discriminate].
    simpl. intros [= <-]. simpl.
    rewrite (finish_options_key key _ _ Hkey _ _ E2).
    apply (finish_positionals_key key pending); [|exact E1].
    intros a Ha. apply Hkey, Hpend, Ha.
  - assert (forall args', (length args' <= length rest)%nat ->
              forall pending seen ns extras r,
                (forall a, In a pending -> In a (_actions p)) ->
                parse_known_args ps p pending seen ns extras args' = Ok r ->
                fst r !! key = ns !! key) as IH'.
    { intros args' Hle. apply (IH (length args')); [simpl in Hn; lia|reflexivity]. }
    clear IH. cbn [parse_known_args].
    destruct (parse_optional p arg) as [|a explicit| |] eqn:Ep.
    + destruct pending as [|[|a|choices] pending'].
      * apply IH'; auto.
      * apply IH'; auto.
      * destruct (get_value a arg) as [v|e]; [|discriminate]. simpl. intros E.
        rewrite (IH' _ (le_n _) _ _ _ _ _ (fun a' Ha' => Hpend a' (or_intror Ha')) E).
        apply lookup_insert_ne, Hkey, Hpend. now left.
      * exfalso. apply (Hno choices), Hpend. now left.
    + pose proof (parse_optional_flag _ _ _ _ Ep) as Hin.
      destruct a as [|a|choices]; [discriminate| |discriminate].
      assert (dest a <> key) as Hne by now apply Hkey.
      assert (forall args' v,
                (length args' <= length rest)%nat ->
                parse_known_args ps p pending (dest a :: seen) (<[dest a := v]> ns)
                  extras args' = Ok r ->
                fst r !! key = ns !! key) as Hstep.
      { intros args' v Hle E. rewrite (IH' _ Hle _ _ _ _ _ Hpend E).
        now apply lookup_insert_ne. }
      destruct explicit as [explicit|].
      * destruct (get_value a explicit) as [v|e]; [|discriminate]. simpl.
        now apply Hstep.
      * destruct rest as [|arg' rest'].
        -- destruct (a_nargs a) as [[]|]; [|discriminate]. now apply Hstep.
        -- destruct (parse_optional p arg') eqn:Ep'.
           ++ destruct (get_value a arg') as [v|e]; [|discriminate]. simpl.
              apply Hstep. simpl. lia.
           ++ destruct (a_nargs a) as [[]|]; [|discriminate]. now apply Hstep.
           ++ destruct (a_nargs a) as [[]|]; [|discriminate]. now apply Hstep.
           ++ destruct (a_nargs a) as [[]|]; [|discriminate]. now apply Hstep.
    + discriminate.
    + apply IH'; auto.
Qed.

End ParsedKeys.

(** C6: [run] does not call every resolved entrypoint.  The script whose
    entrypoint has the keyword-only parameter [_x: int] is decorated without
    error; the option gets the flag [---x] and is stored under the key [x],
    while [run] looks up the name [_x].  On [---x 1] the parse succeeds, the
    entrypoint resolves to the function and the value is there under [x], and
    [run] raises [KeyError] without calling the function; and whatever the
    command line, [run] raises and the function is not called. *)
Theorem run_underscore_option_not_called
    (body : list pyvalue -> list (string * pyvalue) -> result pyvalue) :
  fst (@__call__ reference_runtime {| submodules := false |} 0%nat
         (script_state underscore_signature false body)) = Ok 0%nat /\
  parser_option_strings (parsers (underscore_decorated body) !!! 0%nat)
    = ["-h"; "--help"; "---x"] /\
  (exists parsed_args,
     @parse_args reference_runtime (parsers (underscore_decorated body)) 0%nat
       ["---x"; "1"] = Ok parsed_args /\
     parsed_args !! "entrypoint" = Some (VCallable (Fn 0)) /\
     parsed_args !! "x" = Some (VInt 1) /\
     parsed_args !! "_x" = None) /\
  @run reference_runtime {| _parser := 0 |} (Some ["---x"; "1"])
    (underscore_decorated body)
    = (Raise (KeyError "_x"), underscore_decorated body) /\
  calls (underscore_decorated body) = [] /\
  forall args, exists e st',
    @run reference_runtime {| _parser := 0 |} (Some args) (underscore_decorated body)
    = (Raise e, st') /\
    calls st' = [].
Proof.
  split; [reflexivity|]. split; [reflexivity|]. split.
  { eexists. split; [vm_compute; reflexivity|]. repeat split. }
  split; [vm_compute; reflexivity|]. split; [reflexivity|].
  intros args. set (st := underscore_decorated body).
  set (p := parsers st !!! 0%nat).
  assert (_actions p =
          [Help;
           Argument {| dest := "x"; option_strings := ["---x"]; required := true;
                       default := VNone; a_nargs := None; help := Some "";
                       type := Some (Converter (TClass Kint)) |}]) as Hactions
    by reflexivity.
  assert (forall key, key <> "x" ->
            forall r, @parse_known_args reference_runtime (parsers st) p (positionals p)
                        [] (initial_namespace p) false args = Ok r ->
                      fst r !! key = initial_namespace p !! key) as Hkeys.
  { intros key Hne r. apply parse_known_args_key.
    - rewrite Hactions. intros a [E|[E|[]]]; [discriminate E|].
      injection E as <-. simpl. congruence.
    - reflexivity.
    - intros a Ha. unfold positionals in Ha. apply filter_In in Ha. tauto. }
  assert (signature st (VCallable (Fn 0)) = Ok underscore_signature) as Hsig
    by reflexivity.
  unfold run, mbind, lift. cbn [_parser]. unfold parse_args. fold p.
  destruct (@parse_known_args reference_runtime (parsers st) p (positionals p) []
              (initial_namespace p) false args) as [[ns extras]|e] eqn:E.
  2: { simpl. eauto. }
  pose proof (Hkeys "entrypoint" ltac:(discriminate) _ eq_refl) as Hentry.
  pose proof (Hkeys "_x" ltac:(discriminate) _ eq_refl) as Hx.
  simpl in Hentry, Hx. simpl. destruct extras; simpl; [eauto|].
  unfold getitem at 1.
  replace (ns !! "entrypoint") with (Some (VCallable (Fn 0)))
    by (rewrite Hentry; vm_compute; reflexivity).
  rewrite Hsig. unfold underscore_signature, collect, getitem.
  change (p_name (param "_x" KEYWORD_ONLY None (TClass Kint))) with "_x".
  replace (ns !! "_x") with (@None pyvalue) by (rewrite Hx; vm_compute; reflexivity).
  simpl. eauto.
Qed.



(** C2: for [entrypoint(a: int, /, b: str, c: bool = True, *, d: float)] the
    parser has no flag [--no-c]: [run] on [1 hi --no-c --d 0.5] ends in the
    error exit of the parser and the entrypoint is not called.  The flag the
    parser has is [--c], which takes the value: on [1 hi --c False --d 0.5]
    the entrypoint is called once, as [entrypoint(1, b='hi', c=False,
    d=0.5)], and its result is returned. *)
Theorem run_no_c_flag_unrecognized
    (body : list pyvalue -> list (string * pyvalue) -> result pyvalue) :
  @run reference_runtime {| _parser := 0 |} (Some ["1"; "hi"; "--no-c"; "--d"; "0.5"])
    (end_to_end_decorated body)
  = (Raise (SystemExit 2), end_to_end_decorated body) /\
  @run reference_runtime {| _parser := 0 |} (Some ["1"; "hi"; "--c"; "False"; "--d"; "0.5"])
    (end_to_end_decorated body)
  = (v <- body [VInt 1] [("b", VStr "hi"); ("c", VBool false); ("d", VFloat 0.5)];;
     Ok (Value v),
     record_call
       {| callee := Fn 0; call_args := [VInt 1];
          call_kwargs := [("b", VStr "hi"); ("c", VBool false); ("d", VFloat 0.5)] |}
       (end_to_end_decorated body)).
Proof.
  split; [vm_compute; reflexivity|].
  vm_compute. now destruct (body _ _).
Qed.

(** The surface that [--no-c] is checked against: the flags of the parser
    are [-h], [--help], [--c] and [--d]. *)
Lemma end_to_end_flags
    (body : list pyvalue -> list (string * pyvalue) -> result pyvalue) :
  parser_option_strings (parsers (end_to_end_decorated body) !!! 0%nat)
  = ["-h"; "--help"; "--c"; "--d"].
Proof. reflexivity. Qed.

(** C3: for [f(a, /, b, c=1, *, d, e=2.0)] the parser gets, after its help
    action, exactly the required positional arguments [a] and [b], the
    optional flag [--c] with stored default [1], the required flag [--d] and
    the optional flag [--e] with stored default [2.0], the two defaults being
    shown as [Default: <value>]; and for every parameter, a default is stored
    and its text appended to the help after the metadata of the annotation,
    and a flag is named after the parameter with hyphens for underscores. *)
Theorem surface_of_kinds `{PyRuntime}
    (body : list pyvalue -> list (string * pyvalue) -> result pyvalue) :
  _actions
    (parsers (snd (__call__ {| submodules := false |} 0%nat
                     (script_state kinds_signature false body))) !!! 0%nat) =
  [Help;
   Argument {| dest := "a"; option_strings := []; required := true;
               default := VNone; a_nargs := None; help := Some "";
               type := Some (Converter TEmpty) |};
   Argument {| dest := "b"; option_strings := []; required := true;
               default := VNone; a_nargs := None; help := Some "";
               type := Some (Converter TEmpty) |};
   Argument {| dest := "c"; option_strings := ["--c"]; required := false;
               default := VInt 1; a_nargs := Some OPTIONAL;
               help := Some ("Default: " +:+ py_str (VInt 1));
               type := Some (Converter TEmpty) |};
   Argument {| dest := "d"; option_strings := ["--d"]; required := true;
               default := VNone; a_nargs := None; help := Some "";
               type := Some (Converter TEmpty) |};
   Argument {| dest := "e"; option_strings := ["--e"]; required := false;
               default := VFloat 2; a_nargs := Some OPTIONAL;
               help := Some ("Default: " +:+ py_str (VFloat 2));
               type := Some (Converter TEmpty) |}] /\
  (forall parser parameter d parser',
     p_default parameter = Some d ->
     _set_parameter parser parameter = (Ok tt, parser') ->
     exists flag text,
       parser' = register parser flag /\
       default flag = d /\
       a_nargs flag = Some OPTIONAL /\
       join " " (match p_annotation parameter with
                 | Annotated _ metadata => [metadata]
                 | Plain _ => []
                 end ++ [VStr ("Default: " +:+ py_str d)]) = Ok text /\
       help flag = Some text) /\
  (forall parser parameter parser',
     p_kind parameter = KEYWORD_ONLY \/
     p_kind parameter = POSITIONAL_OR_KEYWORD /\ p_default parameter <> None ->
     _set_parameter parser parameter = (Ok tt, parser') ->
     exists flag,
       parser' = register parser flag /\
       option_strings flag = ["--" +:+ replace "_" "-" (p_name parameter)]).
Proof.
  split; [reflexivity|]. split.
  - apply set_parameter_default.
  - apply set_parameter_flag.
Qed.

Lemma surface_of_kinds_witness :
  exists flag,
    option_strings flag = ["--dry-run"] /\
    @_set_parameter reference_runtime
      {| description := None; _defaults := ∅; _actions := [Help] |}
      {| p_name := "dry_run"; p_kind := KEYWORD_ONLY; p_default := Some (VInt 1);
         p_annotation := Annotated (TClass Kint) (VStr "how often") |}
    = (Ok tt, register {| description := None; _defaults := ∅; _actions := [Help] |} flag).
Proof.
  destruct (proj2 (proj2 (@surface_of_kinds reference_runtime echo))
              {| description := None; _defaults := ∅; _actions := [Help] |}
              {| p_name := "dry_run"; p_kind := KEYWORD_ONLY; p_default := Some (VInt 1);
                 p_annotation := Annotated (TClass Kint) (VStr "how often") |}
              (register {| description := None; _defaults := ∅; _actions := [Help] |}
                 {| dest := "dry_run"; option_strings := ["--dry-run"];
                    required := false; default := VInt 1; a_nargs := Some OPTIONAL;
                    help := Some "how often Default: 1";
                    type := Some (Converter (TClass Kint)) |}))
    as (flag & Hreg & Hopt); [now left|reflexivity|].
  exists flag. split; [exact Hopt|]. now rewrite <- Hreg.
Defined.

(** With the reference runtime the two defaults read [Default: 1] and
    [Default: 2.0]. *)
Lemma surface_of_kinds_help :
  map (fun a => match a with Argument a => (dest a, help a) | _ => ("", None) end)
    (_actions
       (parsers (snd (@__call__ reference_runtime {| submodules := false |} 0%nat
                        (script_state kinds_signature false echo))) !!! 0%nat))
  = [("", None); ("a", Some ""); ("b", Some ""); ("c", Some "Default: 1");
     ("d", Some ""); ("e", Some "Default: 2.0")].
Proof. vm_compute. reflexivity. Qed.

(** C5: decorating a function with a variadic parameter raises
    [RuntimeError], and the function is left with the [cli] attribute that
    was attached before the walk.  When the variadic parameter is in a
    submodule, the parser left behind serves the part built before the error:
    its [.] subcommand runs the entrypoint of the package. *)
Theorem failed_decoration_leaves_cli `{PyRuntime} :
  fst (__call__ {| submodules := false |} 0%nat
         (script_state [param "args" VAR_POSITIONAL None TEmpty] false echo))
  = Raise RuntimeError /\
  cli (functions
         (snd (__call__ {| submodules := false |} 0%nat
                 (script_state [param "args" VAR_POSITIONAL None TEmpty] false echo)))
       !!! 0%nat)
  = Some {| _parser := 0 |} /\
  fst (__call__ {| submodules := true |} 0%nat
         (prog_state [param "kwargs" VAR_KEYWORD None TEmpty]))
  = Raise RuntimeError /\
  cli (functions
         (snd (__call__ {| submodules := true |} 0%nat
                 (prog_state [param "kwargs" VAR_KEYWORD None TEmpty])))
       !!! 0%nat)
  = Some {| _parser := 0 |} /\
  fst (run {| _parser := 0 |} (Some ["."])
         (snd (__call__ {| submodules := true |} 0%nat
                 (prog_state [param "kwargs" VAR_KEYWORD None TEmpty]))))
  = Ok (Value (VTuple [VList []; VDict []])) /\
  calls (snd (run {| _parser := 0 |} (Some ["."])
                (snd (__call__ {| submodules := true |} 0%nat
                        (prog_state [param "kwargs" VAR_KEYWORD None TEmpty])))))
  = [{| callee := Fn 0; call_args := []; call_kwargs := [] |}].
Proof. repeat split; vm_compute; reflexivity. Qed.

(** * Further properties of the code *)

(** ** The cases of [_set_t] *)

(** What a case of the [match] of [_set_t] says about its subject. *)
Lemma match_case_inv (V : tycon) (T : origin) (As : list texpr) :
  match match_case V T As with
  | CasePrimitive => In V _primitive_types /\ T = OClass V /\ As = []
  | CaseNone => V = KNoneType /\ (T = ONone \/ T = OClass KNoneType) /\ As = []
  | CaseUnion => T = OUnion /\ class_in_args V As = true
  | CaseDict A0 A1 => V = Kdict /\ T = OClass Kdict /\ As = [A0; A1]
  | CaseFrozenset A => V = Kset /\ T = OClass Kfrozenset /\ As = [A]
  | CaseList A => V = Klist /\ T = OClass Klist /\ As = [A]
  | CaseSet A => V = Kset /\ T = OClass Kset /\ As = [A]
  | CaseTupleEllipsis A0 => V = Ktuple /\ T = OClass Ktuple /\ As = [A0; TEllipsis]
  | CaseTuple A0 As' =>
      V = Ktuple /\ T = OClass Ktuple /\ As = A0 :: As' /\ As' <> [TEllipsis]
  | CaseTupleEmpty => V = Ktuple /\ T = OClass Ktuple /\ As = []
  | CaseCustom T' => T' = T /\ in_types V = true /\ origin_in_types T = false
  | CaseOther => True
  end.
Proof.
  unfold match_case, custom_or_other.
  destruct T as [c| | | |].
  - destruct V, c; try (simpl; exact I);
      destruct As as [|A0 [|A1 [|A2 As]]]; try destruct A1;
      simpl; repeat split; auto; try discriminate.
  - destruct V; destruct As; simpl; repeat split; auto.
  - destruct V; destruct As; simpl; repeat split; auto.
  - destruct V; destruct As; simpl; repeat split; auto.
  - destruct V;
      match goal with |- context [class_in_args ?V As] =>
        destruct (class_in_args V As) eqn:E end;
      simpl; repeat split; auto.
Qed.

(** X1: a primitive annotation accepts exactly the values whose class is that
    very class, and returns them as they are: a [bool] is no [int], an [int]
    is no [float], [None] and instances of user classes are refused too, all
    with [RuntimeError]. *)
Theorem set_t_primitive_exact `{PyRuntime} (value : pyvalue) (c : tycon) :
  In c _primitive_types ->
  _set_t value (TClass c) =
  if bool_decide (type_of value = c) then Ok value else Raise RuntimeError.
Proof.
  intros Hc. rewrite set_t_cases. simpl in Hc.
  destruct Hc as [<-|[<-|[<-|[<-|[]]]]];
    destruct value as [| | | | | | | | | | |[]]; reflexivity.
Qed.

Lemma set_t_primitive_exact_witness :
  In Kfloat _primitive_types /\
  @_set_t reference_runtime (VInt 1) (TClass Kfloat) = Raise RuntimeError /\
  @_set_t reference_runtime (VBool true) (TClass Kint) = Raise RuntimeError /\
  @_set_t reference_runtime (VInt 1) (TClass Kint) = Ok (VInt 1).
Proof.
  split; [simpl; auto|].
  rewrite !(@set_t_primitive_exact reference_runtime) by (simpl; auto).
  repeat split.
Defined.

(** X2: the bare classes [dict], [frozenset], [list] and [set], without type
    arguments, are annotations that no value satisfies: every value, also one
    of that class, is refused with [RuntimeError]. *)
Theorem set_t_bare_container `{PyRuntime} (value : pyvalue) (c : tycon) :
  In c [Kdict; Kfrozenset; Klist; Kset] ->
  _set_t value (TClass c) = Raise RuntimeError.
Proof.
  intros Hc. rewrite set_t_cases. simpl in Hc.
  destruct Hc as [<-|[<-|[<-|[<-|[]]]]];
    destruct value as [| | | | | | | | | | |[]]; reflexivity.
Qed.

Lemma set_t_bare_container_witness :
  In Klist [Kdict; Kfrozenset; Klist; Kset] /\
  @_set_t reference_runtime (VList [VInt 1]) (TClass Klist) = Raise RuntimeError.
Proof.
  split; [simpl; auto|].
  apply (@set_t_bare_container reference_runtime). simpl; auto.
Defined.

(** X3: a union is not descended into.  A value whose class is one of the
    members, as a bare class, is returned as it is; any other value is
    refused, with the [TypeError] of calling the union when the value is of a
    primitive or container class and with [RuntimeError] otherwise.  So a
    union whose members are all parameterised, like
    [list[int] | dict[str, int]], accepts no value. *)
Theorem set_t_union `{PyRuntime} (value : pyvalue) (As : list texpr) :
  _set_t value (TUnion As) =
    (if class_in_args (type_of value) As then Ok value
     else if in_types (type_of value) then Raise TypeError
     else Raise RuntimeError) /\
  ((forall A, In A As -> exists o args, A = TAlias o args) ->
   exists e, _set_t value (TUnion As) = Raise e).
Proof.
  assert (_set_t value (TUnion As) =
          (if class_in_args (type_of value) As then Ok value
           else if in_types (type_of value) then Raise TypeError
           else Raise RuntimeError)) as E.
  { rewrite set_t_cases. unfold match_case, custom_or_other. simpl.
    destruct (type_of value); destruct (class_in_args _ As); reflexivity. }
  split; [exact E|]. intros Hall. rewrite E. clear E.
  assert (class_in_args (type_of value) As = false) as ->.
  { unfold class_in_args. induction As as [|A As IH]; simpl; [reflexivity|].
    rewrite IH by (intros B HB; apply Hall; now right).
    destruct (Hall A) as (o & args & ->); [now left|reflexivity]. }
  destruct (in_types _); eauto.
Qed.

(** X4: for a user class [T], bare or parameterised, a value of a primitive
    or container class is handed to the constructor, [T(value)], whatever the
    type arguments are; [None] and every instance of a user class, also of
    [T] itself, are refused with [RuntimeError]. *)
Theorem set_t_custom `{PyRuntime} (value : pyvalue) (name : string)
    (args : list texpr) :
  _set_t value (TClass (Kclass name)) =
    (if in_types (type_of value) then construct name value else Raise RuntimeError) /\
  _set_t value (TAlias (Kclass name) args) =
    (if in_types (type_of value) then construct name value else Raise RuntimeError).
Proof.
  split; rewrite set_t_cases; unfold match_case, custom_or_other; simpl;
    destruct (type_of value); try reflexivity;
    destruct args as [|? [|[] [|? ?]]]; reflexivity.
Qed.

(** ** Sequences *)

Lemma traverse_Ok {A B : Type} (f : A -> result B) (xs : list A) (ys : list B) :
  traverse f xs = Ok ys <-> Forall2 (fun x y => f x = Ok y) xs ys.
Proof.
  revert ys. induction xs as [|x xs IH]; simpl; intros ys.
  - split; [intros [= <-]; constructor|]. now inversion 1.
  - split.
    + destruct (f x) as [y|e] eqn:Ey; simpl; [|discriminate].
      destruct (traverse f xs) as [ys'|e] eqn:Eys; simpl; [|discriminate].
      intros [= <-]. constructor; [exact Ey|]. now apply IH.
    + inversion 1 as [|? y ? ys' Hy Hys]; subst. rewrite Hy; simpl.
      apply IH in Hys. now rewrite Hys.
Qed.

Lemma traverse_Raise {A B : Type} (f : A -> result B) (pre : list A) (x : A)
    (post : list A) (e : exn) :
  Forall (fun x => exists y, f x = Ok y) pre -> f x = Raise e ->
  traverse f (pre ++ x :: post) = Raise e.
Proof.
  intros Hpre Hx. induction Hpre as [|x0 pre [y Hy] _ IH]; simpl.
  - now rewrite Hx.
  - rewrite Hy; simpl. now rewrite IH.
Qed.

(** X5: the list case and the [tuple[A, ...]] case coerce the elements one by
    one, from left to right: the result has a coerced element for each
    element of the value, in the same order, and the exception of the first
    element that fails is the exception raised. *)
Theorem set_t_sequence_elementwise `{PyRuntime} (xs : list pyvalue) (A : texpr) :
  (forall value', _set_t (VList xs) (TAlias Klist [A]) = Ok value' <->
     exists ys, value' = VList ys /\ Forall2 (fun x y => _set_t x A = Ok y) xs ys) /\
  (forall value', _set_t (VTuple xs) (TAlias Ktuple [A; TEllipsis]) = Ok value' <->
     exists ys, value' = VTuple ys /\ Forall2 (fun x y => _set_t x A = Ok y) xs ys) /\
  (forall pre x post e,
     xs = pre ++ x :: post ->
     Forall (fun x => exists y, _set_t x A = Ok y) pre ->
     _set_t x A = Raise e ->
     _set_t (VList xs) (TAlias Klist [A]) = Raise e /\
     _set_t (VTuple xs) (TAlias Ktuple [A; TEllipsis]) = Raise e).
Proof.
  assert (_set_t (VList xs) (TAlias Klist [A]) =
          (elems <- traverse (fun x => _set_t x A) xs;; Ok (VList elems))) as El
    by (rewrite set_t_cases; reflexivity).
  assert (_set_t (VTuple xs) (TAlias Ktuple [A; TEllipsis]) =
          (elems <- traverse (fun x => _set_t x A) xs;; Ok (VTuple elems))) as Et
    by (rewrite set_t_cases; reflexivity).
  rewrite El, Et. repeat split.
  - destruct (traverse _ xs) as [ys|e] eqn:E; simpl; [|discriminate].
    intros [= <-]. exists ys. split; [reflexivity|]. now apply traverse_Ok.
  - intros (ys & -> & Hys). apply traverse_Ok in Hys. now rewrite Hys.
  - destruct (traverse _ xs) as [ys|e] eqn:E; simpl; [|discriminate].
    intros [= <-]. exists ys. split; [reflexivity|]. now apply traverse_Ok.
  - intros (ys & -> & Hys). apply traverse_Ok in Hys. now rewrite Hys.
  - subst xs. now rewrite (traverse_Raise _ pre x post e).
  - subst xs. now rewrite (traverse_Raise _ pre x post e).
Qed.

(** X6: a tuple that runs out of elements before a fixed tuple annotation
    runs out of type arguments is refused with the [IndexError] of
    [value[0]], not with the [RuntimeError] of the engine: the elements that
    are there are coerced first, each against its type argument. *)
Theorem set_t_fixed_tuple_too_short `{PyRuntime} (xs : list pyvalue)
    (As1 : list texpr) (A : texpr) (As2 : list texpr) :
  Forall2 (fun x A1 => exists y, _set_t x A1 = Ok y) xs As1 ->
  ~ In TEllipsis (A :: As2) ->
  _set_t (VTuple xs) (TAlias Ktuple (As1 ++ A :: As2)) = Raise IndexError.
Proof.
  intros Hxs Hell. induction Hxs as [|x A0 xs As1 [y Hy] _ IH].
  - rewrite set_t_cases. simpl.
    destruct As2 as [|B As2]; [reflexivity|].
    destruct B; try (now destruct As2).
    exfalso. apply Hell. simpl. auto.
  - assert (match_case Ktuple (OClass Ktuple) (A0 :: As1 ++ A :: As2)
            = CaseTuple A0 (As1 ++ A :: As2)) as Hcase.
    { destruct As1 as [|B As1]; simpl.
      - destruct A; try reflexivity. exfalso. apply Hell. now left.
      - destruct B; try reflexivity; now destruct As1. }
    simpl app. rewrite (set_t_fixed_tuple_cons _ _ _ _ Hcase).
    rewrite Hy; simpl. now rewrite IH.
Qed.

Lemma set_t_fixed_tuple_too_short_witness :
  Forall2 (fun x A1 => exists y, @_set_t reference_runtime x A1 = Ok y)
    [VInt 1] [TClass Kint] /\
  ~ In TEllipsis [TClass Kstr] /\
  @_set_t reference_runtime (VTuple [VInt 1]) (TAlias Ktuple [TClass Kint; TClass Kstr])
  = Raise IndexError.
Proof.
  assert (Forall2 (fun x A1 => exists y, @_set_t reference_runtime x A1 = Ok y)
            [VInt 1] [TClass Kint]) as Hxs.
  { constructor; [|constructor]. exists (VInt 1). reflexivity. }
  assert (~ In TEllipsis [TClass Kstr]) as Hell.
  { simpl. intros [Heq|[]]. discriminate Heq. }
  split; [exact Hxs|]. split; [exact Hell|].
  exact (@set_t_fixed_tuple_too_short reference_runtime [VInt 1] [TClass Kint]
           (TClass Kstr) [] Hxs Hell).
Defined.

(** ** What [_set_t] returns is an instance of the annotation *)

Lemma set_comprehension_Forall (f : pyvalue -> result pyvalue) (P : pyvalue -> Prop)
    (xs : list pyvalue) :
  (forall x y, In x xs -> f x = Ok y -> P y) ->
  forall acc out, Forall P acc -> set_comprehension f xs acc = Ok out -> Forall P out.
Proof.
  induction xs as [|x xs IH]; simpl; intros Hf acc out Hacc E.
  - now injection E as <-.
  - destruct (f x) as [y|e] eqn:Ey; simpl in E; [|discriminate].
    unfold set_add in E. destruct (hashable y); simpl in E; [|discriminate].
    apply (IH (fun x' y' Hx' => Hf x' y' (or_intror Hx')) _ _) in E; [exact E|].
    destruct (existsb _ acc); [exact Hacc|].
    apply Forall_app. split; [exact Hacc|]. constructor; [|constructor].
    apply (Hf x y); auto.
Qed.

Lemma dict_set_Forall (P Q : pyvalue -> Prop) (k x : pyvalue)
    (d : list (pyvalue * pyvalue)) :
  P k -> Q x -> Forall (fun kv => P (fst kv) /\ Q (snd kv)) d ->
  Forall (fun kv => P (fst kv) /\ Q (snd kv)) (dict_set k x d).
Proof.
  intros Hk Hx. induction 1 as [|[k' x'] d [Hk' Hx'] Hd IH]; simpl.
  - constructor; [split; assumption|constructor].
  - destruct (py_eq k' k); constructor; simpl in *; auto.
Qed.

Lemma dict_comprehension_Forall (f g : pyvalue -> result pyvalue)
    (P Q : pyvalue -> Prop) (items : list (pyvalue * pyvalue)) :
  (forall k k', f k = Ok k' -> P k') ->
  (forall x x', g x = Ok x' -> Q x') ->
  forall acc out,
    Forall (fun kv => P (fst kv) /\ Q (snd kv)) acc ->
    dict_comprehension f g items acc = Ok out ->
    Forall (fun kv => P (fst kv) /\ Q (snd kv)) out.
Proof.
  intros Hf Hg. induction items as [|[k x] items IH]; simpl; intros acc out Hacc E.
  - now injection E as <-.
  - destruct (f k) as [k'|e] eqn:Ek; simpl in E; [|discriminate].
    destruct (g x) as [x'|e] eqn:Ex; simpl in E; [|discriminate].
    unfold dict_add in E. destruct (hashable k'); simpl in E; [|discriminate].
    apply IH in E; [exact E|]. apply dict_set_Forall; eauto.
Qed.

Lemma texpr_size_pos (t : texpr) : (0 < texpr_size t)%nat.
Proof. destruct t; simpl; lia. Qed.

Lemma texpr_size_arg (t A : texpr) :
  In A (get_args t) -> (texpr_size A < texpr_size t)%nat.
Proof.
  assert (forall args : list texpr, In A args ->
            (texpr_size A < S (fold_right (fun a n => (texpr_size a + n)%nat) 0%nat args))%nat)
    as Hargs.
  { induction args as [|B args IH]; simpl; [tauto|]. intros [->|Hin]; [lia|].
    specialize (IH Hin). lia. }
  destruct t; simpl; try tauto; apply Hargs.
Qed.

Lemma texpr_size_tail (t A0 : texpr) (As : list texpr) :
  get_args t = A0 :: As -> (texpr_size (TAlias Ktuple As) < texpr_size t)%nat.
Proof.
  pose proof (texpr_size_pos A0).
  destruct t; simpl; try discriminate; intros ->; simpl; lia.
Qed.

Lemma tuple_instance_cons (inst : pyvalue -> texpr -> bool) (x : pyvalue)
    (xs : list pyvalue) (A0 : texpr) (As : list texpr) :
  As <> [TEllipsis] ->
  tuple_instance inst (x :: xs) (A0 :: As) = inst x A0 && tuple_instance inst xs As.
Proof.
  intros Hne. destruct As as [|A1 As]; [reflexivity|].
  destruct A1; try reflexivity. destruct As; [congruence|reflexivity].
Qed.

Section Soundness.
Context `{PyRuntime}.
Hypothesis construct_instance :
  forall name v v', construct name v = Ok v' -> type_of v' = Kclass name.

Lemma set_t_instance (n : nat) :
  forall t, (texpr_size t < n)%nat ->
  forall value value', _set_t value t = Ok value' -> instance_of value' t = true.
Proof.
  induction n as [|n IH]; intros t Hn value value' E; [lia|].
  assert (forall A, In A (get_args t) ->
            forall x y, _set_t x A = Ok y -> instance_of y A = true) as IHarg.
  { intros A HA. apply IH. apply texpr_size_arg in HA. lia. }
  rewrite set_t_cases in E.
  pose proof (match_case_inv (type_of value) (origin_or_self t) (get_args t)) as Hinv.
  destruct (match_case (type_of value) (origin_or_self t) (get_args t)) eqn:Hcase.
  - (* primitive *)
    destruct Hinv as (HV & HT & HA). injection E as <-.
    destruct value as [| | | | | | | | | | |[]]; simpl in HV;
      try (exfalso; intuition congruence);
      simpl; rewrite HT; reflexivity.
  - (* None *)
    destruct Hinv as (HV & HT & HA). injection E as <-.
    destruct value as [| | | | | | | | | | |[]]; try discriminate HV.
    simpl. now destruct HT as [-> | ->].
  - (* union *)
    destruct Hinv as (HT & HV). injection E as <-.
    destruct value as [| | | | | | | | | | |[]]; simpl; rewrite HT; exact HV.
  - (* dict *)
    destruct Hinv as (HV & HT & HA).
    destruct (dict_comprehension _ _ _ _) as [items|e] eqn:Ed; [|discriminate E].
    injection E as <-. simpl. rewrite HT, HA. simpl.
    apply (dict_comprehension_Forall _ _ (fun k => instance_of k A0 = true)
             (fun x => instance_of x A1 = true)) in Ed.
    + apply forallb_forall. intros [k x] Hkx. rewrite Forall_forall in Ed.
      apply list_elem_of_In in Hkx. destruct (Ed _ Hkx) as [Hk Hx]. simpl in *.
      now rewrite Hk, Hx.
    + apply IHarg. rewrite HA. now left.
    + apply IHarg. rewrite HA. right. now left.
    + constructor.
  - (* frozenset *)
    destruct Hinv as (HV & HT & HA).
    destruct (set_comprehension _ _ _) as [elems|e] eqn:Es; [|discriminate E].
    injection E as <-. simpl. rewrite HT, HA. simpl.
    apply (set_comprehension_Forall _ (fun x => instance_of x A = true)) in Es.
    + apply forallb_forall. intros x Hx. rewrite Forall_forall in Es.
      apply Es. now apply list_elem_of_In.
    + intros x y _. apply IHarg. rewrite HA. now left.
    + constructor.
  - (* list *)
    destruct Hinv as (HV & HT & HA).
    destruct (traverse _ _) as [elems|e] eqn:Es; [|discriminate E].
    injection E as <-. simpl. rewrite HT, HA. simpl.
    apply traverse_Ok in Es. apply forallb_forall. intros y Hy.
    clear -Es Hy IHarg HA. induction Es as [|x y' xs ys Hxy _ IHs]; [destruct Hy|].
    destruct Hy as [<-|Hy]; [|auto].
    revert Hxy. apply IHarg. rewrite HA. now left.
  - (* set *)
    destruct Hinv as (HV & HT & HA).
    destruct (set_comprehension _ _ _) as [elems|e] eqn:Es; [|discriminate E].
    injection E as <-. simpl. rewrite HT, HA. simpl.
    apply (set_comprehension_Forall _ (fun x => instance_of x A = true)) in Es.
    + apply forallb_forall. intros x Hx. rewrite Forall_forall in Es.
      apply Es. now apply list_elem_of_In.
    + intros x y _. apply IHarg. rewrite HA. now left.
    + constructor.
  - (* tuple[A0, ...] *)
    destruct Hinv as (HV & HT & HA).
    destruct (traverse _ _) as [elems|e] eqn:Es; [|discriminate E].
    injection E as <-. simpl. rewrite HT, HA. simpl.
    apply traverse_Ok in Es.
    assert (forallb (fun x => instance_of x A0) elems = true) as Hall.
    { apply forallb_forall. intros y Hy.
      clear -Es Hy IHarg HA. induction Es as [|x y' xs ys Hxy _ IHs]; [destruct Hy|].
      destruct Hy as [<-|Hy]; [|auto].
      revert Hxy. apply IHarg. rewrite HA. now left. }
    destruct elems; exact Hall.
  - (* tuple[A0, *As] *)
    destruct Hinv as (HV & HT & HA & Hne).
    destruct (getitem0 value) as [first|e] eqn:E0; [|discriminate E]. simpl in E.
    destruct (_set_t first A0) as [head|e] eqn:Eh; [|discriminate E]. simpl in E.
    destruct (_set_t (slice_from1 value) (TAlias Ktuple As)) as [rest|e] eqn:Er;
      [|discriminate E].
    injection E as <-.
    apply IHarg in Eh; [|rewrite HA; now left].
    apply IH in Er; [|apply texpr_size_tail in HA; lia].
    simpl. rewrite HT, HA. simpl bool_decide. rewrite andb_true_l.
    change (tuple_instance instance_of (head :: elems_of rest) (A0 :: As) = true).
    rewrite (tuple_instance_cons _ _ _ _ _ Hne), Eh. simpl.
    destruct rest as [| | | | | | | | | | |[]]; simpl in Er; try discriminate Er.
    exact Er.
  - (* tuple[()] *)
    destruct Hinv as (HV & HT & HA). injection E as <-.
    simpl. rewrite HT, HA. reflexivity.
  - (* user class *)
    destruct Hinv as (-> & HV & HT).
    destruct (origin_or_self t) as [[]| | | |] eqn:Ho; try discriminate E.
    simpl in E. apply construct_instance in E.
    destruct value'; simpl; rewrite Ho; simpl in E; try discriminate E;
      try (rewrite bool_decide_eq_true_2 by exact E; reflexivity).
    all: rewrite bool_decide_eq_true_2 by exact E; simpl.
    all: try reflexivity.
  - discriminate E.
Qed.

End Soundness.

(** X7: whatever [_set_t] returns is an instance of the annotation, at every
    level of nesting: its class is the origin of the annotation and the
    elements of a container are instances of the type arguments, provided
    that calling a user class gives an instance of that class. *)
Theorem set_t_returns_instance `{PyRuntime} (value : pyvalue) (t : texpr)
    (value' : pyvalue) :
  (forall name v v', construct name v = Ok v' -> type_of v' = Kclass name) ->
  _set_t value t = Ok value' ->
  instance_of value' t = true.
Proof.
  intros Hc. apply (set_t_instance Hc (S (texpr_size t))). lia.
Qed.

Lemma set_t_returns_instance_witness :
  (forall name v v',
     @construct reference_runtime name v = Ok v' -> type_of v' = Kclass name) /\
  @_set_t reference_runtime (VList [VSet [VInt 1]; VSet []])
    (TAlias Klist [TAlias Kfrozenset [TClass Kint]])
  = Ok (VList [VFrozenset [VInt 1]; VFrozenset []]) /\
  instance_of (VList [VFrozenset [VInt 1]; VFrozenset []])
    (TAlias Klist [TAlias Kfrozenset [TClass Kint]]) = true.
Proof.
  assert (forall name v v',
            @construct reference_runtime name v = Ok v' -> type_of v' = Kclass name)
    as Hc.
  { intros name v v' E. simpl in E. injection E as <-. reflexivity. }
  split; [exact Hc|]. split; [reflexivity|].
  apply (@set_t_returns_instance reference_runtime
           (VList [VSet [VInt 1]; VSet []])
           (TAlias Klist [TAlias Kfrozenset [TClass Kint]]) _ Hc).
  reflexivity.
Defined.

(** ** The converter of a flag *)

(** X8: the converter of a parameter annotated with the bare class [str]
    accepts every token and returns it as it is, without evaluating it; with
    any other annotation, also [str | None], the token is evaluated as a
    literal first, and a token that is no literal is refused with the
    exception of the evaluation. *)
Theorem flag_type_str_verbatim `{PyRuntime} (value : string) :
  flag_type (TClass Kstr) value = Ok (VStr value) /\
  (forall t e, is_str t = false -> literal_eval value = Raise e ->
               flag_type t value = Raise e) /\
  (forall t arg, is_str t = false -> literal_eval value = Ok arg ->
                 flag_type t value = _set_t arg t).
Proof.
  unfold flag_type. split; [|split].
  - unfold is_str, bind. rewrite set_t_cases. reflexivity.
  - intros t e -> ->. reflexivity.
  - intros t arg -> ->. reflexivity.
Qed.

(** X9: the converter of a parameter without annotation accepts no token.
    The annotation is then [inspect.Parameter.empty], which is none of the
    classes that [_set_t] knows and cannot be called with the value: a token
    that evaluates to a value of a primitive or container class is refused
    with [TypeError], any other with [RuntimeError] or with the exception of
    the evaluation. *)
Theorem flag_type_unannotated `{PyRuntime} (value : string) :
  flag_type TEmpty value =
    match literal_eval value with
    | Raise e => Raise e
    | Ok arg => if in_types (type_of arg) then Raise TypeError else Raise RuntimeError
    end /\
  forall arg, flag_type TEmpty value <> Ok arg.
Proof.
  assert (flag_type TEmpty value =
          match literal_eval value with
          | Raise e => Raise e
          | Ok arg =>
              if in_types (type_of arg) then Raise TypeError else Raise RuntimeError
          end) as E.
  { unfold flag_type, is_str, bind.
    destruct (literal_eval value) as [arg|e]; [|reflexivity].
    rewrite set_t_cases. unfold match_case, custom_or_other. simpl.
    destruct (type_of arg); reflexivity. }
  split; [exact E|]. intros arg. rewrite E.
  destruct (literal_eval value) as [v|e]; [|discriminate].
  destruct (in_types _); discriminate.
Qed.

(** ** Names and flags *)

Lemma identifier_char_not_hyphen (c : ascii) :
  identifier_char c = true -> Ascii.eqb c "-" = false.
Proof.
  intros Hc. destruct (Ascii.eqb_spec c "-") as [->|]; [discriminate Hc|reflexivity].
Qed.

Lemma replace_inverse (s : string) :
  identifier_chars s = true -> replace "-" "_" (replace "_" "-" s) = s.
Proof.
  induction s as [|c s IH]; simpl; [reflexivity|].
  intros Hs. apply andb_prop in Hs as [Hc Hs]. rewrite (IH Hs).
  destruct (Ascii.eqb_spec c "_") as [->|Hne]; [reflexivity|].
  now rewrite (identifier_char_not_hyphen c Hc).
Qed.

Lemma lstrip_replace (s : string) :
  identifier_chars s = true ->
  lstrip "-" (replace "_" "-" s) = replace "_" "-" (lstrip "_" s).
Proof.
  induction s as [|c s IH]; simpl; [reflexivity|].
  intros Hs. apply andb_prop in Hs as [Hc Hs].
  destruct (Ascii.eqb_spec c "_") as [->|Hne]; simpl; [exact (IH Hs)|].
  rewrite (identifier_char_not_hyphen c Hc).
  destruct (Ascii.eqb_spec c "_") as [->|_]; [congruence|reflexivity].
Qed.

Lemma identifier_chars_lstrip (s : string) :
  identifier_chars s = true -> identifier_chars (lstrip "_" s) = true.
Proof.
  induction s as [|c s IH]; simpl; [reflexivity|].
  intros Hs. destruct (Ascii.eqb c "_"); [|exact Hs].
  apply andb_prop in Hs as [_ Hs]. exact (IH Hs).
Qed.

Lemma isidentifier_chars (s : string) :
  isidentifier s = true -> identifier_chars s = true.
Proof.
  destruct s as [|c s]; simpl; [discriminate|].
  intros Hs. apply andb_prop in Hs as [Hc Hs]. unfold identifier_char.
  now rewrite Hc, Hs.
Qed.

Lemma startswith_char (c d : ascii) (s : string) :
  startswith (String c s) (String d EmptyString) = Ascii.eqb c d.
Proof.
  unfold startswith.
  change (String.prefix (String d EmptyString) (String c s))
    with (if ascii_dec d c then String.prefix EmptyString s else false).
  destruct (ascii_dec d c) as [->|Hne].
  - rewrite Ascii.eqb_refl. now destruct s.
  - symmetry. apply Ascii.eqb_neq. congruence.
Qed.

Lemma isidentifier_positional (s : string) :
  isidentifier s = true -> startswith s "-" = false.
Proof.
  destruct s as [|c s]; [discriminate|].
  intros Hs. simpl in Hs. apply andb_prop in Hs as [Hc Hs]. rewrite startswith_char.
  apply identifier_char_not_hyphen. unfold identifier_char. now rewrite Hc.
Qed.

(** The [dest] that [add_argument] derives from the flag of an option. *)
Lemma flag_dest (name : string) :
  identifier_chars name = true ->
  replace "-" "_" (lstrip "-" ("--" +:+ replace "_" "-" name)) = lstrip "_" name.
Proof.
  intros Hn.
  change (lstrip "-" ("--" +:+ replace "_" "-" name))
    with (lstrip "-" (replace "_" "-" name)).
  rewrite (lstrip_replace _ Hn).
  apply replace_inverse, identifier_chars_lstrip, Hn.
Qed.

Lemma lstrip_length (c : ascii) (s : string) :
  (String.length (lstrip c s) <= String.length s)%nat.
Proof.
  induction s as [|d s IH]; simpl; [lia|].
  destruct (Ascii.eqb d c); simpl; lia.
Qed.

Lemma lstrip_id (s : string) :
  lstrip "_" s = s <-> s = "" \/ startswith s "_" = false.
Proof.
  destruct s as [|c s]; [simpl; tauto|]. rewrite startswith_char. simpl.
  destruct (Ascii.eqb_spec c "_") as [->|Hne].
  - split.
    + intros E. pose proof (lstrip_length "_" s) as Hl. rewrite E in Hl. simpl in Hl. lia.
    + intros [E|E]; discriminate E.
  - tauto.
Qed.

(** ** [_set_parameter] *)

Section ParameterFacts.
Context `{PyRuntime}.

(** The help text can be made exactly when the metadata of the annotation is
    a string. *)
Lemma join_help_parts (parameter : Param) :
  if str_metadata parameter
  then exists text, join " " (help_parts parameter) = Ok text
  else join " " (help_parts parameter) = Raise TypeError.
Proof.
  unfold str_metadata, help_parts, join.
  destruct (p_annotation parameter) as [t|t []], (p_default parameter) as [d|];
    simpl; eauto.
Qed.

(** The converter and the help text of the action of a parameter whose help
    text can be made. *)
Lemma action_of_type (defaults : gmap string pyvalue) (q : Param) :
  str_metadata q = true ->
  type (action_of defaults q) = Some (Converter (annotated_type q)) /\
  exists text, help (action_of defaults q) = Some text.
Proof.
  intros Hm. pose proof (join_help_parts q) as Hjoin. rewrite Hm in Hjoin.
  destruct Hjoin as [text Hjoin]. unfold action_of; simpl. rewrite Hjoin. eauto.
Qed.

(** [_set_parameter] on a parameter whose name is an identifier: the three
    ways to fail before anything is registered, and otherwise the action
    registered, and the failure to make its help text. *)
Lemma set_parameter_spec (parser : ArgumentParser) (parameter : Param) :
  isidentifier (p_name parameter) = true ->
  _set_parameter parser parameter =
  if is_variadic parameter then (Raise RuntimeError, parser)
  else if is_option parameter then
    if String.eqb (lstrip "_" (p_name parameter)) "" then (Raise ValueError, parser)
    else if bool_decide (flag_name parameter ∈ parser_option_strings parser)
    then (Raise ArgumentError, parser)
    else (if str_metadata parameter then Ok tt else Raise TypeError,
          register parser (action_of (_defaults parser) parameter))
  else (if str_metadata parameter then Ok tt else Raise TypeError,
        register parser (action_of (_defaults parser) parameter)).
Proof.
  intros Hid. pose proof (isidentifier_positional _ Hid) as Hpos.
  pose proof (flag_dest _ (isidentifier_chars _ Hid)) as Hdest.
  assert (add_argument parser (p_name parameter) =
          Ok {| dest := p_name parameter; option_strings := []; required := true;
                default := parser_default parser (p_name parameter);
                a_nargs := None; help := None; type := None |})
    as Hp by (unfold add_argument; now rewrite Hpos).
  assert (add_argument parser ("--" +:+ replace "_" "-" (p_name parameter)) =
          if String.eqb (lstrip "_" (p_name parameter)) "" then Raise ValueError
          else if bool_decide (flag_name parameter ∈ parser_option_strings parser)
          then Raise ArgumentError
          else Ok {| dest := lstrip "_" (p_name parameter);
                     option_strings := [flag_name parameter]; required := false;
                     default := parser_default parser (lstrip "_" (p_name parameter));
                     a_nargs := None; help := None; type := None |})
    as Hf.
  { unfold add_argument.
    change (startswith ("--" +:+ replace "_" "-" (p_name parameter)) "-") with true.
    cbv iota. rewrite Hdest. reflexivity. }
  pose proof (join_help_parts parameter) as Hjoin.
  unfold _set_parameter, is_variadic, action_of, annotated_type, dest_of, is_option,
    parser_default in *.
  unfold help_parts, str_metadata in *.
  destruct (p_kind parameter), (p_default parameter) as [d|];
    rewrite ?Hp, ?Hf; try reflexivity;
    try (destruct (String.eqb _ ""); [reflexivity|];
         destruct (bool_decide _); [reflexivity|]);
    destruct (p_annotation parameter) as [t|t []]; cbv beta iota zeta;
    match type of Hjoin with
    | ex _ => destruct Hjoin as [text Hjoin]
    | _ => idtac
    end; cbn [app] in *; rewrite Hjoin; reflexivity.
Qed.

End ParameterFacts.

(** X10: the key under which the parsed value of a parameter is stored.  For
    a positional argument it is the name of the parameter; for an option it
    is the name without its leading underscores.  So the key is the name,
    which is what [run] looks up, exactly when the parameter is a positional
    argument or its name starts with no underscore. *)
Theorem set_parameter_dest `{PyRuntime} (parser : ArgumentParser) (parameter : Param)
    (parser' : ArgumentParser) :
  isidentifier (p_name parameter) = true ->
  _set_parameter parser parameter = (Ok tt, parser') ->
  exists flag,
    parser' = register parser flag /\
    dest flag = (if is_option parameter then lstrip "_" (p_name parameter)
                 else p_name parameter) /\
    (dest flag = p_name parameter <->
     is_option parameter = false \/ startswith (p_name parameter) "_" = false).
Proof.
  intros Hid. rewrite (set_parameter_spec _ _ Hid).
  destruct (is_variadic parameter); [discriminate|].
  assert (p_name parameter <> "") as Hne by (intros E; now rewrite E in Hid).
  destruct (is_option parameter) eqn:Hopt.
  - destruct (String.eqb _ ""); [discriminate|].
    destruct (bool_decide _); [discriminate|].
    intros [= _ <-]. eexists. split; [reflexivity|].
    unfold action_of, dest_of; simpl; rewrite Hopt. split; [reflexivity|].
    rewrite lstrip_id. intuition congruence.
  - intros [= _ <-]. eexists. split; [reflexivity|].
    unfold action_of, dest_of; simpl; rewrite Hopt. split; [reflexivity|]. tauto.
Qed.

Lemma set_parameter_dest_witness :
  exists flag,
    register {| description := None; _defaults := ∅; _actions := [Help] |}
      (@action_of reference_runtime ∅ (param "_x" KEYWORD_ONLY None (TClass Kint)))
    = register {| description := None; _defaults := ∅; _actions := [Help] |} flag /\
    dest flag = "x" /\
    (dest flag = "_x" <-> true = false \/ startswith "_x" "_" = false).
Proof.
  apply (@set_parameter_dest reference_runtime
           {| description := None; _defaults := ∅; _actions := [Help] |}
           (param "_x" KEYWORD_ONLY None (TClass Kint))); reflexivity.
Defined.

(** X11: the ways in which registering a parameter fails.  A variadic
    parameter is refused with [RuntimeError]; an option whose name consists of
    underscores only is refused by [add_argument] with [ValueError]; an option
    whose flag the parser already has, as [--help] for a parameter [help], is
    refused by [add_argument] with its conflict error; and when the metadata
    of the annotation is no string, joining the help text raises [TypeError].
    In every other case the parameter is registered, with its help text and
    the converter of its annotation.  The first three failures leave the
    parser as it is; the last one leaves the argument in the parser, without
    help text and without converter. *)
Theorem set_parameter_raises `{PyRuntime} (parser : ArgumentParser) (parameter : Param)
    (e : exn) :
  isidentifier (p_name parameter) = true ->
  (fst (_set_parameter parser parameter) = Raise e <->
   is_variadic parameter = true /\ e = RuntimeError \/
   is_variadic parameter = false /\ is_option parameter = true /\
     lstrip "_" (p_name parameter) = "" /\ e = ValueError \/
   is_variadic parameter = false /\ is_option parameter = true /\
     lstrip "_" (p_name parameter) <> "" /\
     In (flag_name parameter) (parser_option_strings parser) /\ e = ArgumentError \/
   is_variadic parameter = false /\
     (is_option parameter = true ->
      lstrip "_" (p_name parameter) <> "" /\
      ~ In (flag_name parameter) (parser_option_strings parser)) /\
     str_metadata parameter = false /\ e = TypeError) /\
  (fst (_set_parameter parser parameter) = Raise e ->
   e <> TypeError /\ snd (_set_parameter parser parameter) = parser \/
   e = TypeError /\
   exists flag,
     snd (_set_parameter parser parameter) = register parser flag /\
     help flag = None /\ type flag = None) /\
  (fst (_set_parameter parser parameter) = Ok tt ->
   exists flag text,
     snd (_set_parameter parser parameter) = register parser flag /\
     help flag = Some text /\
     type flag = Some (Converter (annotated_type parameter))).
Proof.
  intros Hid.
  assert (fst (_set_parameter parser parameter) = Ok tt ->
          exists flag text,
            snd (_set_parameter parser parameter) = register parser flag /\
            help flag = Some text /\
            type flag = Some (Converter (annotated_type parameter))) as Hok.
  { rewrite (set_parameter_spec _ _ Hid).
    assert (fst (if str_metadata parameter then Ok tt else Raise TypeError,
                 register parser (action_of (_defaults parser) parameter)) = Ok tt ->
            exists flag text,
              snd (if str_metadata parameter then Ok tt else Raise TypeError,
                   register parser (action_of (_defaults parser) parameter))
              = register parser flag /\
              help flag = Some text /\
              type flag = Some (Converter (annotated_type parameter))) as Hreg.
    { simpl. destruct (str_metadata parameter) eqn:Hm; [intros _|discriminate].
      destruct (action_of_type (_defaults parser) _ Hm) as [Ht [text Hh]]. eauto. }
    destruct (is_variadic parameter); [discriminate|].
    destruct (is_option parameter); [|exact Hreg].
    destruct (String.eqb _ ""); [discriminate|].
    destruct (bool_decide _); [discriminate|exact Hreg]. }
  match goal with
  | |- ?A /\ ?B /\ ?C =>
      cut (A /\ B); [intros [HA HB]; split; [exact HA|split; [exact HB|exact Hok]]|]
  end.
  clear Hok. rewrite (set_parameter_spec _ _ Hid).
  pose proof (join_help_parts parameter) as Hjoin.
  assert (str_metadata parameter = false ->
          help (action_of (_defaults parser) parameter) = None /\
          type (action_of (_defaults parser) parameter) = None) as Hleft.
  { intros Hm. rewrite Hm in Hjoin. unfold action_of; simpl. now rewrite Hjoin. }
  destruct (is_variadic parameter).
  { split; [|intros [= <-]; left; now split].
    split; [intros [= <-]; auto|].
    intros [[_ ->]|[(E & _)|[(E & _)|(E & _)]]]; [reflexivity|discriminate E..]. }
  destruct (is_option parameter).
  2: { destruct (str_metadata parameter); simpl.
       - split; [|discriminate]. split; [discriminate|].
         intros [[E _]|[(_ & E & _)|[(_ & E & _)|(_ & _ & E & _)]]]; discriminate E.
       - split; [|intros [= <-]; right; destruct (Hleft eq_refl); eauto].
         split; [intros [= <-]; right; right; right; intuition congruence|].
         intros [[E _]|[(_ & E & _)|[(_ & E & _)|(_ & _ & _ & ->)]]];
           [discriminate E..|reflexivity]. }
  destruct (String.eqb_spec (lstrip "_" (p_name parameter)) "") as [E|E].
  { split; [|intros [= <-]; left; now split].
    split; [intros [= <-]; right; left; auto|].
    intros [[E' _]|[(_ & _ & _ & ->)|[(_ & _ & E' & _)|(_ & E' & _)]]];
      [discriminate E'|reflexivity|contradiction|].
    destruct (E' eq_refl) as [E'' _]. contradiction. }
  destruct (bool_decide_reflect (flag_name parameter ∈ parser_option_strings parser))
    as [Hin|Hin]; rewrite list_elem_of_In in Hin.
  - split; [|intros [= <-]; left; now split].
    split; [intros [= <-]; right; right; left; auto 6|].
    intros [[E' _]|[(_ & _ & E' & _)|[(_ & _ & _ & _ & ->)|(_ & E' & _)]]];
      [discriminate E'|contradiction|reflexivity|].
    destruct (E' eq_refl) as [_ E'']. contradiction.
  - destruct (str_metadata parameter); simpl.
    + split; [|discriminate]. split; [discriminate|].
      intros [[E' _]|[(_ & _ & E' & _)|[(_ & _ & _ & E' & _)|(_ & _ & E' & _)]]];
        [discriminate E'|contradiction|contradiction|discriminate E'].
    + split; [|intros [= <-]; right; destruct (Hleft eq_refl); eauto].
      split; [intros [= <-]; right; right; right; auto 6|].
      intros [[E' _]|[(_ & _ & E' & _)|[(_ & _ & _ & E' & _)|(_ & _ & _ & ->)]]];
        [discriminate E'|contradiction|contradiction|reflexivity].
Qed.

Lemma set_parameter_raises_witness :
  fst (@_set_parameter reference_runtime
         {| description := None; _defaults := ∅; _actions := [Help] |}
         {| p_name := "n"; p_kind := KEYWORD_ONLY; p_default := None;
            p_annotation := Annotated (TClass Kint) (VInt 42) |})
  = Raise TypeError /\
  exists flag,
    snd (@_set_parameter reference_runtime
           {| description := None; _defaults := ∅; _actions := [Help] |}
           {| p_name := "n"; p_kind := KEYWORD_ONLY; p_default := None;
              p_annotation := Annotated (TClass Kint) (VInt 42) |})
    = register {| description := None; _defaults := ∅; _actions := [Help] |} flag /\
    option_strings flag = ["--n"] /\ help flag = None /\ type flag = None.
Proof.
  destruct (@set_parameter_raises reference_runtime
              {| description := None; _defaults := ∅; _actions := [Help] |}
              {| p_name := "n"; p_kind := KEYWORD_ONLY; p_default := None;
                 p_annotation := Annotated (TClass Kint) (VInt 42) |}
              TypeError eq_refl) as (Hiff & Hleft & _).
  assert (fst (@_set_parameter reference_runtime
                 {| description := None; _defaults := ∅; _actions := [Help] |}
                 {| p_name := "n"; p_kind := KEYWORD_ONLY; p_default := None;
                    p_annotation := Annotated (TClass Kint) (VInt 42) |})
          = Raise TypeError) as Hraise.
  { apply Hiff. right. right. right. repeat split; [discriminate|].
    simpl. intros [E|[E|[]]]; discriminate E. }
  split; [exact Hraise|].
  destruct (Hleft Hraise) as [[Hne _]|[_ (flag & Hflag & Hhelp & Htype)]];
    [now contradiction Hne|].
  exists flag. repeat split; try assumption.
  apply (f_equal _actions) in Hflag. simpl in Hflag. now injection Hflag as <-.
Defined.

(** ** [_set_entrypoint] *)

Section EntrypointFacts.
Context `{PyRuntime}.

Lemma with_actions_app (p : ArgumentParser) (xs ys : list action) :
  with_actions (with_actions p xs) ys = with_actions p ys.
Proof. reflexivity. Qed.

Lemma with_actions_id (p : ArgumentParser) : with_actions p (_actions p) = p.
Proof. now destruct p. Qed.

Lemma with_parsers_id (st : state) : with_parsers st (parsers st) = st.
Proof. now destruct st. Qed.

Lemma set_parameter_ok (parser : ArgumentParser) (parameter : Param)
    (parser' : ArgumentParser) :
  isidentifier (p_name parameter) = true ->
  _set_parameter parser parameter = (Ok tt, parser') ->
  parser' = register parser (action_of (_defaults parser) parameter).
Proof.
  intros Hid. rewrite (set_parameter_spec _ _ Hid).
  destruct (is_variadic parameter); [discriminate|].
  destruct (is_option parameter); [|congruence].
  destruct (String.eqb _ ""); [discriminate|].
  destruct (bool_decide _); [discriminate|congruence].
Qed.

(** The loop of [_set_entrypoint]: when it ends, the parser has one more
    action for each parameter, in declaration order. *)
Lemma for_each_parameters (parser : nat) (parameters : list Param) :
  Forall (fun q => isidentifier (p_name q) = true) parameters ->
  forall st st',
    (parser < length (parsers st))%nat ->
    for_each parameters
      (fun parameter =>
         p <~ get_parser parser;;
         let '(r, p') := _set_parameter p parameter in
         _ <~ put_parser parser p';;
         lift r) st = (Ok tt, st') ->
    st' = with_parsers st
            (<[parser := with_actions (parsers st !!! parser)
                           (_actions (parsers st !!! parser) ++
                            arguments_of (_defaults (parsers st !!! parser)) parameters)]>
               (parsers st)).
Proof.
  induction 1 as [|q parameters Hq _ IH]; simpl; intros st st' Hlt E.
  - injection E as <-. unfold arguments_of; simpl. rewrite app_nil_r, with_actions_id.
    rewrite list_insert_id; [now rewrite with_parsers_id|].
    now apply list_lookup_lookup_total_lt.
  - unfold mbind at 1 in E. unfold mbind at 1, get_parser at 1 in E.
    destruct (_set_parameter (parsers st !!! parser) q) as [r p'] eqn:Ep.
    unfold mbind at 1, put_parser at 1, lift at 1 in E.
    destruct r as [[]|e]; [|discriminate E].
    apply (set_parameter_ok _ _ _ Hq) in Ep. subst p'.
    apply IH in E; [|simpl; now rewrite length_insert].
    rewrite E. simpl. unfold with_parsers; simpl. f_equal.
    rewrite list_lookup_total_insert_eq by assumption.
    rewrite list_insert_insert_eq. unfold register. rewrite with_actions_app.
    simpl. now rewrite <- app_assoc.
Qed.

Lemma set_entrypoint_state (parser entrypoint : nat) (st st' : state) :
  (parser < length (parsers st))%nat ->
  Forall (fun q => isidentifier (p_name q) = true)
    (fn_signature (functions st !!! entrypoint)) ->
  _set_entrypoint parser entrypoint st = (Ok tt, st') ->
  st' = with_parsers st
          (<[parser :=
               {| description := description (parsers st !!! parser);
                  _defaults := <["entrypoint" := VCallable (Fn entrypoint)]>
                                 (_defaults (parsers st !!! parser));
                  _actions :=
                    map (set_default "entrypoint" (VCallable (Fn entrypoint)))
                      (_actions (parsers st !!! parser)) ++
                    arguments_of
                      (<["entrypoint" := VCallable (Fn entrypoint)]>
                         (_defaults (parsers st !!! parser)))
                      (fn_signature (functions st !!! entrypoint)) |}]>
             (parsers st)).
Proof.
  intros Hlt Hid E. unfold _set_entrypoint in E.
  unfold mbind at 1, set_defaults, mbind at 1, get_parser at 1, put_parser at 1 in E.
  unfold mbind at 1, get_function at 1 in E. simpl functions in E.
  apply for_each_parameters in E; [|exact Hid|simpl; now rewrite length_insert].
  rewrite E. unfold with_parsers; simpl. f_equal.
  rewrite list_lookup_total_insert_eq by assumption.
  now rewrite list_insert_insert_eq.
Qed.

End EntrypointFacts.

(** X12: when [_set_entrypoint] returns, the entrypoint is the callable that
    the parser hands to [run], and the parser has, after the actions it had,
    one argument for each parameter of the entrypoint, in the order of the
    signature.  The parser-level default is also the default of the
    arguments that are stored under its name [entrypoint]: of those the
    parser had, and of a parameter without default of its own.  No other
    parser and nothing else in the state has changed. *)
Theorem set_entrypoint_registers `{PyRuntime} (parser entrypoint : nat)
    (st st' : state) :
  (parser < length (parsers st))%nat ->
  Forall (fun q => isidentifier (p_name q) = true)
    (fn_signature (functions st !!! entrypoint)) ->
  _set_entrypoint parser entrypoint st = (Ok tt, st') ->
  _defaults (parsers st' !!! parser) =
    <["entrypoint" := VCallable (Fn entrypoint)]> (_defaults (parsers st !!! parser)) /\
  _actions (parsers st' !!! parser) =
    map (set_default "entrypoint" (VCallable (Fn entrypoint)))
      (_actions (parsers st !!! parser)) ++
    arguments_of (_defaults (parsers st' !!! parser))
      (fn_signature (functions st !!! entrypoint)) /\
  description (parsers st' !!! parser) = description (parsers st !!! parser) /\
  (forall other, other <> parser -> parsers st' !!! other = parsers st !!! other) /\
  length (parsers st') = length (parsers st) /\
  functions st' = functions st /\ sys_argv st' = sys_argv st /\
  printed st' = printed st /\ calls st' = calls st.
Proof.
  intros Hlt Hid E. rewrite (set_entrypoint_state _ _ _ _ Hlt Hid E). simpl.
  rewrite list_lookup_total_insert_eq by assumption. simpl.
  rewrite length_insert. repeat split.
  intros other Hne. now rewrite list_lookup_total_insert_ne.
Qed.

Lemma set_entrypoint_registers_witness :
  _defaults
    (parsers (snd (@_set_entrypoint reference_runtime 0%nat 0%nat
                     (snd (new_parser None (script_state end_to_end_signature false echo)))))
     !!! 0%nat) = <["entrypoint" := VCallable (Fn 0)]> ∅ /\
  _actions
    (parsers (snd (@_set_entrypoint reference_runtime 0%nat 0%nat
                     (snd (new_parser None (script_state end_to_end_signature false echo)))))
     !!! 0%nat) =
  [Help] ++
  @arguments_of reference_runtime
    (_defaults
       (parsers (snd (@_set_entrypoint reference_runtime 0%nat 0%nat
                        (snd (new_parser None
                                (script_state end_to_end_signature false echo)))))
        !!! 0%nat))
    end_to_end_signature.
Proof.
  destruct (@set_entrypoint_registers reference_runtime 0%nat 0%nat
              (snd (new_parser None (script_state end_to_end_signature false echo)))
              (snd (@_set_entrypoint reference_runtime 0%nat 0%nat
                      (snd (new_parser None
                              (script_state end_to_end_signature false echo))))))
    as (Hd & Ha & _).
  - simpl. lia.
  - repeat constructor.
  - reflexivity.
  - split; [exact Hd|exact Ha].
Defined.

(** ** [__call__] *)

Section CallFacts.
Context `{PyRuntime}.

Lemma while_stack_cons (self : _Decorator) (decorated_name : string) (top : frame)
    (stack : list frame) (st : state) :
  while_stack self decorated_name (top :: stack) st =
  match loop_body self decorated_name top stack st with
  | (Ok stack', st') => while_stack self decorated_name stack' st'
  | (Raise ex, st') => (Raise ex, st')
  end.
Proof.
  rewrite while_stack_equation_2.
  generalize (inspect (loop_body self decorated_name top stack st)).
  intros [[[stack'|ex] st'] e]; simpl; rewrite e; reflexivity.
Qed.

(** The body of the loop for a module that is not walked. *)
Lemma loop_body_leaf (self : _Decorator) (decorated_name : string) (parser : nat)
    (m : module) (entrypoint : option nat) (stack : list frame) (st : state) :
  walks self m = false ->
  loop_body self decorated_name (parser, m, entrypoint) stack st =
  match entrypoint with
  | Some e =>
      match _set_entrypoint parser e st with
      | (Ok _, st') => (Ok stack, st')
      | (Raise ex, st') => (Raise ex, st')
      end
  | None => (Ok stack, st)
  end.
Proof.
  unfold walks, loop_body. intros ->. unfold mbind, ret.
  destruct entrypoint as [e|]; [|reflexivity].
  now destruct (_set_entrypoint parser e st) as [[[]|ex] st'].
Qed.

(** The function that [__call__] has attached the decoration to has the
    signature it had. *)
Lemma signature_decorated (fs : list function) (entrypoint : nat) (d : _Decoration) :
  fn_signature
    (<[entrypoint :=
         {| fn_name := fn_name (fs !!! entrypoint); fn_doc := fn_doc (fs !!! entrypoint);
            fn_module := fn_module (fs !!! entrypoint);
            fn_signature := fn_signature (fs !!! entrypoint);
            fn_iscoroutinefunction := fn_iscoroutinefunction (fs !!! entrypoint);
            fn_body := fn_body (fs !!! entrypoint);
            cli := Some d |}]> fs !!! entrypoint)
  = fn_signature (fs !!! entrypoint).
Proof.
  destruct (decide (entrypoint < length fs)%nat) as [Hlt|Hge].
  - now rewrite list_lookup_total_insert_eq.
  - rewrite list_insert_ge by lia. reflexivity.
Qed.

(** The root parser as [__call__] creates it. *)
Lemma root_parser (ps : list ArgumentParser) (doc : option string) :
  <[length ps :=
      {| description := doc;
         _defaults := <["entrypoint" := VCallable (PrintHelp (length ps))]> ∅;
         _actions := [Help] |}]>
    (ps ++ [{| description := doc; _defaults := ∅; _actions := [Help] |}])
  = ps ++ [help_parser doc (length ps)].
Proof.
  rewrite insert_app_r_alt by lia. rewrite Nat.sub_diag. reflexivity.
Qed.

Lemma flag_name_inj (a b : Param) :
  isidentifier (p_name a) = true -> isidentifier (p_name b) = true ->
  flag_name a = flag_name b -> p_name a = p_name b.
Proof.
  intros Ha Hb E. unfold flag_name in E. injection E as E.
  change (replace "_" "-" (p_name a) = replace "_" "-" (p_name b)) in E.
  apply isidentifier_chars in Ha, Hb.
  rewrite <- (replace_inverse _ Ha), <- (replace_inverse _ Hb). now rewrite E.
Qed.

Lemma flag_name_help (q : Param) :
  isidentifier (p_name q) = true ->
  flag_name q = "--help" <-> p_name q = "help".
Proof.
  intros Hq. split.
  - intros E. unfold flag_name in E. injection E as E.
    change (replace "_" "-" (p_name q) = "help") in E.
    rewrite <- (replace_inverse _ (isidentifier_chars _ Hq)). now rewrite E.
  - intros E. unfold flag_name. now rewrite E.
Qed.

Lemma option_strings_arguments (defaults : gmap string pyvalue) (seen : list Param)
    (flag : string) :
  In flag (concat (map action_option_strings (arguments_of defaults seen))) <->
  exists s, In s seen /\ is_option s = true /\ flag_name s = flag.
Proof.
  induction seen as [|s seen IH]; simpl.
  - split; [tauto|]. now intros (s & [] & _).
  - rewrite in_app_iff, IH. split.
    + intros [Hs|(s' & Hin & Ho & E)]; [|eauto].
      destruct (is_option s) eqn:Ho; [|destruct Hs].
      destruct Hs as [<-|[]]. eauto.
    + intros (s' & [<-|Hin] & Ho & E); [|eauto].
      left. rewrite Ho. now left.
Qed.

(** The loop of [_set_entrypoint] on a parser that has its help action and
    the arguments of the parameters [seen]: it runs to its end exactly when
    every parameter is registrable. *)
Lemma for_each_registrable (parser : nat) (rest : list Param) :
  forall (seen : list Param) (st : state),
    (parser < length (parsers st))%nat ->
    _actions (parsers st !!! parser) =
      Help :: arguments_of (_defaults (parsers st !!! parser)) seen ->
    Forall (fun q => isidentifier (p_name q) = true) (seen ++ rest) ->
    NoDup (map p_name (seen ++ rest)) ->
    fst (for_each rest
           (fun parameter =>
              p <~ get_parser parser;;
              let '(r, p') := _set_parameter p parameter in
              _ <~ put_parser parser p';;
              lift r) st) = Ok tt <->
    forallb registrable rest = true.
Proof.
  induction rest as [|q rest IH]; intros seen st Hlt Hact Hid Hnd; [simpl; tauto|].
  assert (isidentifier (p_name q) = true) as Hq.
  { rewrite Forall_app in Hid. destruct Hid as [_ Hid]. now inversion Hid. }
  assert (In (flag_name q) (parser_option_strings (parsers st !!! parser)) <->
          p_name q = "help") as Hflag.
  { unfold parser_option_strings. rewrite Hact. simpl.
    rewrite option_strings_arguments, <- (flag_name_help q Hq). split.
    - intros [E|[E|(s & Hin & _ & E)]]; [discriminate E|auto|].
      exfalso. apply flag_name_inj in E; [|rewrite Forall_forall in Hid; apply Hid;
        apply list_elem_of_In, in_app_iff; now left|exact Hq].
      rewrite map_app in Hnd. apply NoDup_app in Hnd as (_ & Hnd & _).
      apply (Hnd (p_name q)).
      + rewrite <- E. apply list_elem_of_In, in_map, Hin.
      + apply list_elem_of_In. now left.
    - auto. }
  cbn [for_each forallb]. unfold mbind at 1. unfold mbind at 1, get_parser at 1.
  rewrite (set_parameter_spec _ _ Hq). unfold registrable at 1.
  destruct (is_variadic q); [simpl; split; discriminate|].
  assert (fst (mbind
                 (let '(r, p') :=
                    (if str_metadata q then Ok tt else Raise TypeError,
                     register (parsers st !!! parser)
                       (action_of (_defaults (parsers st !!! parser)) q)) in
                  _ <~ put_parser parser p';; lift r)
                 (fun _ =>
                    for_each rest
                      (fun parameter =>
                         p <~ get_parser parser;;
                         let '(r, p') := _set_parameter p parameter in
                         _ <~ put_parser parser p';;
                         lift r)) st) = Ok tt <->
          str_metadata q && forallb registrable rest = true) as Hnext.
  { destruct (str_metadata q); [|simpl; split; discriminate].
    unfold mbind at 2, put_parser at 1, lift at 1. unfold mbind at 1. simpl andb.
    apply (IH (seen ++ [q])).
    - simpl. now rewrite length_insert.
    - simpl. rewrite list_lookup_total_insert_eq by assumption. simpl.
      rewrite Hact. unfold arguments_of. rewrite map_app. reflexivity.
    - now rewrite <- app_assoc.
    - now rewrite <- app_assoc. }
  destruct (is_option q); simpl negb; cbv iota.
  2: { rewrite Hnext. simpl. now rewrite andb_true_r. }
  destruct (String.eqb_spec (lstrip "_" (p_name q)) "") as [E|E].
  { rewrite !andb_false_r. simpl. split; discriminate. }
  rewrite andb_true_r.
  destruct (bool_decide_reflect
              (flag_name q ∈ parser_option_strings (parsers st !!! parser)))
    as [Hin|Hin]; rewrite list_elem_of_In, Hflag in Hin.
  - rewrite Hin. rewrite andb_false_r. simpl. split; discriminate.
  - destruct (String.eqb_spec (p_name q) "help") as [E'|_]; [contradiction|].
    rewrite Hnext. simpl. now rewrite andb_true_r.
Qed.

(** The state in which [__call__] enters its loop. *)
Lemma call_enters (self : _Decorator) (entrypoint : nat) (st : state) :
  let f := functions st !!! entrypoint in
  let parser := length (parsers st) in
  let st3 :=
    {| functions :=
         <[entrypoint :=
             {| fn_name := fn_name f; fn_doc := fn_doc f; fn_module := fn_module f;
                fn_signature := fn_signature f;
                fn_iscoroutinefunction := fn_iscoroutinefunction f;
                fn_body := fn_body f;
                cli := Some {| _parser := parser |} |}]> (functions st);
       parsers :=
         parsers st ++ [help_parser (doc_or (fn_doc f) (mod_doc (fn_module f))) parser];
       sys_argv := sys_argv st; printed := printed st; calls := calls st |} in
  __call__ self entrypoint st =
  match while_stack self (fn_name f) [(parser, fn_module f, Some entrypoint)] st3 with
  | (Ok _, st4) => (Ok entrypoint, st4)
  | (Raise e, st4) => (Raise e, st4)
  end.
Proof.
  intros f parser st3. rewrite call_unfold. cbv zeta.
  rewrite root_parser. reflexivity.
Qed.

(** [__call__] on a function whose module is not walked. *)
Lemma call_leaf (self : _Decorator) (entrypoint : nat) (st : state) :
  let f := functions st !!! entrypoint in
  let parser := length (parsers st) in
  let st3 :=
    {| functions :=
         <[entrypoint :=
             {| fn_name := fn_name f; fn_doc := fn_doc f; fn_module := fn_module f;
                fn_signature := fn_signature f;
                fn_iscoroutinefunction := fn_iscoroutinefunction f;
                fn_body := fn_body f;
                cli := Some {| _parser := parser |} |}]> (functions st);
       parsers :=
         parsers st ++ [help_parser (doc_or (fn_doc f) (mod_doc (fn_module f))) parser];
       sys_argv := sys_argv st; printed := printed st; calls := calls st |} in
  walks self (fn_module f) = false ->
  __call__ self entrypoint st =
  match _set_entrypoint parser entrypoint st3 with
  | (Ok _, st4) => (Ok entrypoint, st4)
  | (Raise e, st4) => (Raise e, st4)
  end.
Proof.
  intros f parser st3 Hw. rewrite call_enters. fold f parser st3.
  rewrite while_stack_cons, (loop_body_leaf _ _ _ _ _ _ _ Hw).
  destruct (_set_entrypoint parser entrypoint st3) as [[[]|e] st4]; [|reflexivity].
  now rewrite while_stack_equation_1.
Qed.

End CallFacts.

(** X13: decorating a function whose module is not walked, as with [cli],
    whose [submodules] is false, creates one parser and no subcommand.  The
    parser has the documentation string of the function, or else of its
    module, as description, the decorated function as the callable to run,
    and after its help action one argument for each parameter, in the order
    of the signature.  An argument that is stored under [entrypoint] and has
    no default of its own has the function as default, as [add_argument]
    takes the parser-level default. *)
Theorem call_single_parser `{PyRuntime} (self : _Decorator) (entrypoint : nat)
    (st : state) (decorated : nat) :
  walks self (fn_module (functions st !!! entrypoint)) = false ->
  Forall (fun q => isidentifier (p_name q) = true)
    (fn_signature (functions st !!! entrypoint)) ->
  fst (__call__ self entrypoint st) = Ok decorated ->
  parsers (snd (__call__ self entrypoint st)) =
  parsers st ++
  [entrypoint_parser
     (doc_or (fn_doc (functions st !!! entrypoint))
        (mod_doc (fn_module (functions st !!! entrypoint))))
     entrypoint (fn_signature (functions st !!! entrypoint))].
Proof.
  intros Hw Hid. rewrite (call_leaf _ _ _ Hw).
  match goal with
  | |- context [_set_entrypoint ?p ?e ?st3] =>
      destruct (_set_entrypoint p e st3) as [[[]|ex] st4] eqn:E; [|discriminate];
      apply set_entrypoint_state in E
  end.
  - intros _. rewrite E. simpl.
    rewrite list_lookup_total_middle by reflexivity.
    rewrite signature_decorated.
    rewrite insert_app_r_alt by lia. rewrite Nat.sub_diag. simpl.
    unfold entrypoint_parser. now rewrite insert_singleton_eq.
  - simpl. rewrite length_app. simpl. lia.
  - simpl. now rewrite signature_decorated.
Qed.

Lemma call_single_parser_witness :
  parsers (snd (@__call__ reference_runtime cli_decorator 0%nat
                  (script_state end_to_end_signature false echo))) =
  [@entrypoint_parser reference_runtime None 0%nat end_to_end_signature].
Proof.
  apply (@call_single_parser reference_runtime cli_decorator 0%nat
           (script_state end_to_end_signature false echo) 0%nat).
  - reflexivity.
  - repeat constructor.
  - reflexivity.
Defined.

(** A parameter that is named [entrypoint] and has no default: its argument
    has the decorated function as default. *)
Lemma call_parameter_named_entrypoint :
  map (fun a => match a with
                | Argument a => Some (dest a, default a)
                | _ => None
                end)
    (_actions
       (parsers (snd (@__call__ reference_runtime cli_decorator 0%nat
                        (script_state
                           [param "entrypoint" POSITIONAL_OR_KEYWORD None (TClass Kint)]
                           false echo))) !!! 0%nat))
  = [None; Some ("entrypoint", VCallable (Fn 0))].
Proof. reflexivity. Qed.

(** X14: when a function whose module is not walked can be decorated.  With
    parameter names that are identifiers, each declared once, the decoration
    succeeds exactly when no parameter is variadic, the metadata of every
    [Annotated] annotation is a string, and no option is named [help] or made
    of underscores only. *)
Theorem call_succeeds_iff `{PyRuntime} (self : _Decorator) (entrypoint : nat)
    (st : state) :
  walks self (fn_module (functions st !!! entrypoint)) = false ->
  Forall (fun q => isidentifier (p_name q) = true)
    (fn_signature (functions st !!! entrypoint)) ->
  NoDup (map p_name (fn_signature (functions st !!! entrypoint))) ->
  fst (__call__ self entrypoint st) = Ok entrypoint <->
  forallb registrable (fn_signature (functions st !!! entrypoint)) = true.
Proof.
  intros Hw Hid Hnd. rewrite (call_leaf _ _ _ Hw).
  match goal with
  | |- context [_set_entrypoint ?p ?e ?st3] =>
      assert (fst (_set_entrypoint p e st3) = Ok tt <->
              forallb registrable (fn_signature (functions st !!! entrypoint)) = true)
        as <-;
      [|destruct (_set_entrypoint p e st3) as [[[]|ex] st4]; simpl;
        split; congruence]
  end.
  unfold _set_entrypoint.
  unfold mbind at 1, set_defaults, mbind at 1, get_parser at 1, put_parser at 1.
  unfold mbind at 1, get_function at 1. simpl functions.
  rewrite signature_decorated.
  apply (for_each_registrable _ _ []).
  - simpl. rewrite length_insert, length_app. simpl. lia.
  - simpl. rewrite list_lookup_total_insert_eq by (rewrite length_app; simpl; lia).
    simpl. now rewrite list_lookup_total_middle.
  - exact Hid.
  - exact Hnd.
Qed.

Lemma call_succeeds_iff_witness :
  fst (@__call__ reference_runtime cli_decorator 0%nat
         (script_state end_to_end_signature false echo)) = Ok 0%nat.
Proof.
  apply (@call_succeeds_iff reference_runtime cli_decorator 0%nat
           (script_state end_to_end_signature false echo)).
  - reflexivity.
  - repeat constructor.
  - refine (bool_decide_unpack _ _). vm_compute. exact I.
  - reflexivity.
Defined.

(** Metadata that is no string: the decoration raises [TypeError] when the
    help text is joined; by then the function has its decoration and the
    parser has the argument, without help text and without converter. *)
Lemma call_metadata_not_str :
  fst (@__call__ reference_runtime cli_decorator 0%nat
         (script_state
            [{| p_name := "n"; p_kind := KEYWORD_ONLY; p_default := None;
                p_annotation := Annotated (TClass Kint) (VInt 42) |}] false echo))
  = Raise TypeError /\
  _actions
    (parsers (snd (@__call__ reference_runtime cli_decorator 0%nat
                     (script_state
                        [{| p_name := "n"; p_kind := KEYWORD_ONLY; p_default := None;
                            p_annotation := Annotated (TClass Kint) (VInt 42) |}]
                        false echo))) !!! 0%nat)
  = [Help;
     Argument {| dest := "n"; option_strings := ["--n"]; required := true;
                 default := VNone; a_nargs := None; help := None; type := None |}] /\
  cli (functions (snd (@__call__ reference_runtime cli_decorator 0%nat
                         (script_state
                            [{| p_name := "n"; p_kind := KEYWORD_ONLY; p_default := None;
                                p_annotation := Annotated (TClass Kint) (VInt 42) |}]
                            false echo))) !!! 0%nat)
  = Some {| _parser := 0 |}.
Proof. repeat split. Qed.

(** ** [run] and the names it looks up *)

Lemma collect_missing (parsed_args : namespace) (pre : list Param) (parameter : Param)
    (post : list Param) :
  Forall (fun p => is_Some (parsed_args !! p_name p)) pre ->
  parsed_args !! p_name parameter = None ->
  forall args kwargs,
    collect parsed_args (pre ++ parameter :: post) args kwargs
    = Raise (KeyError (p_name parameter)).
Proof.
  intros Hpre Hp. induction Hpre as [|q pre [v Hv] _ IH]; simpl; intros args kwargs.
  - unfold getitem. now rewrite Hp.
  - unfold getitem. rewrite Hv. simpl.
    destruct (bool_decide (p_kind q = POSITIONAL_ONLY)); apply IH.
Qed.

(** X15: when the parsed mapping has no entry under the name of a parameter
    of the resolved entrypoint, [run] raises [KeyError] with the name of the
    first such parameter, and the entrypoint is not called.  This is what
    happens for an option whose name starts with an underscore, which the
    parser stores under the name without it. *)
Theorem run_missing_key `{PyRuntime} (self : _Decoration) (args : option (list string))
    (st : state) (parsed_args : namespace) (ref : nat) (pre : list Param)
    (parameter : Param) (post : list Param) :
  parse_args (parsers st) (_parser self)
    (match args with None => tail (sys_argv st) | Some args => args end)
    = Ok parsed_args ->
  parsed_args !! "entrypoint" = Some (VCallable (Fn ref)) ->
  fn_signature (functions st !!! ref) = pre ++ parameter :: post ->
  Forall (fun p => is_Some (parsed_args !! p_name p)) pre ->
  parsed_args !! p_name parameter = None ->
  run self args st = (Raise (KeyError (p_name parameter)), st).
Proof.
  intros Hparse Hentry Hsig Hpre Hp. unfold run, mbind, lift.
  rewrite Hparse. unfold getitem at 1. rewrite Hentry. simpl signature. cbv iota beta.
  rewrite Hsig, (collect_missing _ _ _ _ Hpre Hp). reflexivity.
Qed.

Lemma run_missing_key_witness :
  @run reference_runtime {| _parser := 0 |} (Some ["---x"; "1"])
    (snd (@__call__ reference_runtime cli_decorator 0%nat
            (script_state [param "_x" KEYWORD_ONLY None (TClass Kint)] false echo)))
  = (Raise (KeyError "_x"),
     snd (@__call__ reference_runtime cli_decorator 0%nat
            (script_state [param "_x" KEYWORD_ONLY None (TClass Kint)] false echo))).
Proof.
  pose (st := snd (@__call__ reference_runtime cli_decorator 0%nat
                     (script_state [param "_x" KEYWORD_ONLY None (TClass Kint)]
                        false echo))).
  pose (parsed_args :=
          match @parse_args reference_runtime (parsers st) 0%nat ["---x"; "1"] with
          | Ok ns => ns
          | Raise _ => ∅
          end).
  apply (@run_missing_key reference_runtime {| _parser := 0 |} (Some ["---x"; "1"])
           st parsed_args 0%nat [] (param "_x" KEYWORD_ONLY None (TClass Kint)) []).
  - vm_compute. reflexivity.
  - vm_compute. reflexivity.
  - vm_compute. reflexivity.
  - constructor.
  - vm_compute. reflexivity.
Defined.

(** ** The parser tree mirrors the module tree *)

Section TreeFacts.
Context `{PyRuntime}.

Lemma add_subparsers_fresh (parser : nat) (doc : option string) (st : state) :
  parsers st !!! parser = help_parser doc parser ->
  add_subparsers parser st =
  (Ok parser, with_parsers st (<[parser := package_parser doc parser []]> (parsers st))).
Proof.
  unfold add_subparsers, mbind, get_parser, put_parser, ret. intros ->. reflexivity.
Qed.

Lemma add_parser_package (sp : nat) (name : string) (d : option string)
    (h : option (option string)) (doc : option string) (choices : list subcommand)
    (st : state) :
  (sp < length (parsers st))%nat ->
  parsers st !!! sp = package_parser doc sp choices ->
  add_parser sp name d h st =
  (Ok (length (parsers st)),
   with_parsers st
     (<[sp := package_parser doc sp
                (choices ++ [{| sc_name := name; sc_help := h;
                                sc_parser := length (parsers st) |}])]> (parsers st)
      ++ [{| description := d; _defaults := ∅; _actions := [Help] |}])).
Proof.
  intros Hlt Hp. unfold add_parser, mbind, new_parser, get_parser, put_parser, ret.
  simpl. rewrite lookup_total_app_l by assumption. rewrite Hp.
  rewrite insert_app_l by assumption. reflexivity.
Qed.

Lemma set_defaults_new (st : state) (ps : list ArgumentParser) (d : option string) :
  set_defaults (length ps) (PrintHelp (length ps))
    (with_parsers st (ps ++ [{| description := d; _defaults := ∅; _actions := [Help] |}]))
  = (Ok tt, with_parsers st (ps ++ [help_parser d (length ps)])).
Proof.
  unfold set_defaults, mbind, get_parser, put_parser. simpl.
  rewrite list_lookup_total_middle by reflexivity.
  rewrite insert_app_r_alt by lia. rewrite Nat.sub_diag. reflexivity.
Qed.

Lemma with_parsers_twice (st : state) (ps ps' : list ArgumentParser) :
  with_parsers (with_parsers st ps) ps' = with_parsers st ps'.
Proof. reflexivity. Qed.

(** The loop over the submodules of a package: each submodule gets a new
    parser with its help fallback and a subcommand in the package's parser,
    after the subcommands that are there, and a frame on the stack. *)
Lemma push_submodules_exact (sp : nat) (decorated_name : string)
    (path : list (string * module)) :
  forall (stack : list frame) (st : state) (doc : option string)
         (choices : list subcommand),
    (sp < length (parsers st))%nat ->
    parsers st !!! sp = package_parser doc sp choices ->
    exists (subs : list nat) (st' : state),
      push_submodules sp decorated_name path stack st =
        (Ok (rev (zip_with (fun (sub : string * module) (id : nat) =>
                              (id, snd sub, getattr (snd sub) decorated_name))
                    path subs) ++ stack), st') /\
      length subs = length path /\
      Forall (fun id => (length (parsers st) <= id < length (parsers st'))%nat) subs /\
      NoDup subs /\
      parsers st' !!! sp =
        package_parser doc sp
          (choices ++ zip_with submodule_choice (map fst path) subs) /\
      Forall (fun id => exists d, parsers st' !!! id = help_parser d id) subs /\
      (forall id, (id < length (parsers st))%nat -> id <> sp ->
                  parsers st' !!! id = parsers st !!! id) /\
      (length (parsers st) <= length (parsers st'))%nat /\
      functions st' = functions st.
Proof.
  induction path as [|[name sub] path IH]; intros stack st doc choices Hlt Hp.
  - exists [], st. simpl. rewrite app_nil_r. repeat split; auto. constructor.
  - set (L := length (parsers st)).
    set (st1 := with_parsers st
                  (<[sp := package_parser doc sp (choices ++ [submodule_choice name L])]>
                     (parsers st) ++ [help_parser (mod_doc sub) L])).
    assert ((sub_parser <~
               (if startswith name "_"
                then add_parser sp name (mod_doc sub) None
                else add_parser sp name (mod_doc sub) (Some (Some "")));;
             _ <~ set_defaults sub_parser (PrintHelp sub_parser);;
             push_submodules sp decorated_name path
               ((sub_parser, sub, getattr sub decorated_name) :: stack)) st
            = push_submodules sp decorated_name path
                ((L, sub, getattr sub decorated_name) :: stack) st1) as Estep.
    { unfold mbind at 1.
      assert ((if startswith name "_"
               then add_parser sp name (mod_doc sub) None
               else add_parser sp name (mod_doc sub) (Some (Some ""))) st
              = add_parser sp name (mod_doc sub)
                  (if startswith name "_" then None else Some (Some "")) st) as ->
        by now destruct (startswith name "_").
      rewrite (add_parser_package _ _ _ _ doc choices st Hlt Hp).
      unfold mbind at 1.
      pose proof (set_defaults_new st
                    (<[sp := package_parser doc sp
                               (choices ++
                                [{| sc_name := name;
                                    sc_help := if startswith name "_" then None
                                               else Some (Some "");
                                    sc_parser := length (parsers st) |}])]> (parsers st))
                    (mod_doc sub)) as Hs.
      rewrite length_insert in Hs. rewrite Hs. reflexivity. }
    assert (length (parsers st1) = S L) as Hl1.
    { unfold st1; simpl. rewrite length_app, length_insert. simpl. fold L. lia. }
    assert (parsers st1 !!! sp =
            package_parser doc sp (choices ++ [submodule_choice name L])) as Hp1.
    { unfold st1; simpl. rewrite lookup_total_app_l by now rewrite length_insert.
      now rewrite list_lookup_total_insert_eq. }
    assert (parsers st1 !!! L = help_parser (mod_doc sub) L) as HpL.
    { unfold st1; simpl. apply list_lookup_total_middle. now rewrite length_insert. }
    destruct (IH ((L, sub, getattr sub decorated_name) :: stack) st1 doc
                (choices ++ [submodule_choice name L]))
      as (subs & st' & E & Hlen & Hrange & Hnd & Hsp & Hfresh & Hsame & Hle & Hfn);
      [rewrite Hl1; unfold L; lia|exact Hp1|].
    rewrite Hl1 in Hrange, Hsame, Hle.
    exists (L :: subs), st'. split.
    { simpl push_submodules. rewrite Estep, E. simpl. now rewrite <- app_assoc. }
    split; [simpl; now rewrite Hlen|].
    split.
    { constructor; [fold L; lia|]. eapply Forall_impl; [exact Hrange|].
      simpl. intros id Hid. fold L. lia. }
    split.
    { constructor; [|exact Hnd]. intros Hin. rewrite Forall_forall in Hrange.
      specialize (Hrange _ Hin). lia. }
    split; [rewrite Hsp; simpl; now rewrite <- app_assoc|].
    split.
    { constructor; [|exact Hfresh]. exists (mod_doc sub).
      rewrite Hsame by (unfold L; lia). exact HpL. }
    split.
    { intros id Hid Hne. fold L in Hid. rewrite Hsame by lia.
      unfold st1; simpl. rewrite lookup_total_app_l by (rewrite length_insert; exact Hid).
      now rewrite list_lookup_total_insert_ne. }
    split; [fold L; lia|]. rewrite Hfn. reflexivity.
Qed.

(** The body of the loop for a package that is walked. *)
Lemma loop_body_package (self : _Decorator) (decorated_name : string) (parser : nat)
    (m : module) (entrypoint : option nat) (stack : list frame) (st : state) :
  walks self m = true ->
  loop_body self decorated_name (parser, m, entrypoint) stack st =
  match add_subparsers parser st with
  | (Ok sp, st_a) =>
      match push_submodules sp decorated_name (mod_path m) stack st_a with
      | (Ok stack_b, st_b) =>
          match entrypoint with
          | Some e =>
              match add_parser sp "." None
                      (Some (doc_or (fn_doc (functions st_b !!! e)) (mod_doc m))) st_b
              with
              | (Ok dot, st_c) =>
                  match _set_entrypoint dot e st_c with
                  | (Ok _, st') => (Ok stack_b, st')
                  | (Raise ex, st') => (Raise ex, st')
                  end
              | (Raise ex, st_c) => (Raise ex, st_c)
              end
          | None => (Ok stack_b, st_b)
          end
      | (Raise ex, st_b) => (Raise ex, st_b)
      end
  | (Raise ex, st_a) => (Raise ex, st_a)
  end.
Proof.
  unfold walks, loop_body. intros ->. unfold mbind, ret, get_function.
  destruct (add_subparsers parser st) as [[sp|ex] st_a]; [|reflexivity].
  destruct (push_submodules sp decorated_name (mod_path m) stack st_a)
    as [[stack_b|ex] st_b]; [|reflexivity].
  destruct entrypoint as [e|]; [|reflexivity].
  destruct (add_parser sp "." None _ st_b) as [[dot|ex] st_c]; [|reflexivity].
  now destruct (_set_entrypoint dot e st_c) as [[[]|ex] st'].
Qed.

Lemma zip_frames_ids (decorated_name : string) (path : list (string * module)) :
  forall subs : list nat,
    length subs = length path ->
    map (fun fr : frame => fst (fst fr))
      (zip_with (fun (sub : string * module) (id : nat) =>
                   (id, snd sub, getattr (snd sub) decorated_name)) path subs)
    = subs.
Proof.
  induction path as [|sub path IH]; intros [|id subs] Hlen; try discriminate Hlen;
    [reflexivity|].
  simpl. f_equal. apply IH. now injection Hlen.
Qed.

Lemma zip_frames_In (decorated_name : string) (path : list (string * module)) :
  forall subs : list nat,
    length subs = length path ->
    Forall2 (fun (sub : string * module) (id : nat) =>
               In (id, snd sub, getattr (snd sub) decorated_name)
                 (zip_with (fun (sub : string * module) (id : nat) =>
                              (id, snd sub, getattr (snd sub) decorated_name))
                    path subs))
      path subs.
Proof.
  induction path as [|sub path IH]; intros [|id subs] Hlen; try discriminate Hlen;
    constructor.
  - now left.
  - eapply Forall2_impl; [apply IH; now injection Hlen|].
    intros sub' id' Hin. now right.
Qed.

(** One round of the loop on a frame whose parser is as created: what it
    leaves of the parser, and the frames it puts on the stack. *)
Lemma loop_body_node (self : _Decorator) (decorated_name : string) (parser : nat)
    (m : module) (entrypoint : option nat) (stack : list frame) (st : state)
    (doc : option string) (stack' : list frame) (st' : state) :
  (forall ref, Forall (fun q => isidentifier (p_name q) = true)
                 (fn_signature (functions st !!! ref))) ->
  (parser < length (parsers st))%nat ->
  parsers st !!! parser = help_parser doc parser ->
  loop_body self decorated_name (parser, m, entrypoint) stack st = (Ok stack', st') ->
  exists news : list frame,
    stack' = news ++ stack /\
    functions st' = functions st /\
    (length (parsers st) <= length (parsers st'))%nat /\
    (forall id, (id < length (parsers st))%nat -> id <> parser ->
                parsers st' !!! id = parsers st !!! id) /\
    Forall (fun fr : frame =>
              (length (parsers st) <= fst (fst fr) < length (parsers st'))%nat /\
              exists d, parsers st' !!! fst (fst fr) = help_parser d (fst (fst fr)))
      news /\
    NoDup (map (fun fr : frame => fst (fst fr)) news) /\
    if walks self m then
      exists (subs : list nat) (dot : list subcommand),
        serves st' parser (PrintHelp parser)
          [Help;
           SubParsers (zip_with submodule_choice (map fst (mod_path m)) subs ++ dot)] /\
        Forall2 (fun (sub : string * module) (id : nat) =>
                   In (id, snd sub, getattr (snd sub) decorated_name) news)
          (mod_path m) subs /\
        match entrypoint with
        | Some e =>
            exists d,
              dot = [{| sc_name := ".";
                        sc_help := Some (doc_or (fn_doc (functions st' !!! e)) (mod_doc m));
                        sc_parser := d |}] /\
              serves st' d (Fn e)
                (Help :: arguments_of {[ "entrypoint" := VCallable (Fn e) ]}
                         (fn_signature (functions st' !!! e))) /\
              (length (parsers st) <= d < length (parsers st'))%nat /\
              ~ In d (map (fun fr : frame => fst (fst fr)) news)
        | None => dot = []
        end
    else
      match entrypoint with
      | Some e =>
          serves st' parser (Fn e)
            (Help :: arguments_of {[ "entrypoint" := VCallable (Fn e) ]}
                         (fn_signature (functions st' !!! e)))
      | None => serves st' parser (PrintHelp parser) [Help]
      end.
Proof.
  intros Hid Hlt Hp E. destruct (walks self m) eqn:Hw.
  - (* a package that is walked *)
    rewrite (loop_body_package _ _ _ _ _ _ _ Hw) in E.
    rewrite (add_subparsers_fresh _ doc _ Hp) in E.
    set (st_a := with_parsers st (<[parser := package_parser doc parser []]> (parsers st)))
      in E.
    assert (length (parsers st_a) = length (parsers st)) as Hla
      by (unfold st_a; simpl; now rewrite length_insert).
    assert (parsers st_a !!! parser = package_parser doc parser []) as Hpa
      by (unfold st_a; simpl; now rewrite list_lookup_total_insert_eq).
    destruct (push_submodules_exact parser decorated_name (mod_path m) stack st_a doc [])
      as (subs & st_b & Eb & Hlen & Hrange & Hnd & Hpb & Hfresh & Hsame & Hle & Hfn);
      [rewrite Hla; exact Hlt|exact Hpa|].
    rewrite Eb in E. rewrite Hla in Hrange, Hsame, Hle. simpl in Hpb.
    assert (forall id, (id < length (parsers st))%nat -> id <> parser ->
                       parsers st_b !!! id = parsers st !!! id) as Hsame_b.
    { intros id Hi Hne. rewrite Hsame by assumption.
      unfold st_a; simpl. now rewrite list_lookup_total_insert_ne. }
    pose (news := rev (zip_with (fun (sub : string * module) (id : nat) =>
                                   (id, snd sub, getattr (snd sub) decorated_name))
                         (mod_path m) subs)).
    assert (map (fun fr : frame => fst (fst fr)) news = rev subs) as Hids.
    { unfold news. rewrite map_rev. f_equal. now apply zip_frames_ids. }
    assert (Forall2 (fun (sub : string * module) (id : nat) =>
                       In (id, snd sub, getattr (snd sub) decorated_name) news)
              (mod_path m) subs) as Hin.
    { pose proof (zip_frames_In decorated_name (mod_path m) subs Hlen) as Hz.
      eapply Forall2_impl; [exact Hz|].
      intros sub id Hi. unfold news. simpl in Hi. now apply in_rev in Hi. }
    destruct entrypoint as [e|].
    + assert (parser < length (parsers st_b))%nat as Hltb by lia.
      rewrite (add_parser_package _ _ _ _ doc _ st_b Hltb Hpb) in E.
      set (D := length (parsers st_b)) in E.
      set (dotc := {| sc_name := ".";
                      sc_help := Some (doc_or (fn_doc (functions st_b !!! e)) (mod_doc m));
                      sc_parser := D |}) in E.
      set (st_c := with_parsers st_b _) in E.
      destruct (_set_entrypoint D e st_c) as [[[]|ex] st_d] eqn:Ed; [|discriminate E].
      injection E as <- <-.
      assert (length (parsers st_c) = S D) as Hlc.
      { unfold st_c; simpl. rewrite length_app, length_insert. simpl. fold D. lia. }
      apply set_entrypoint_state in Ed;
        [|rewrite Hlc; lia|unfold st_c; simpl; rewrite Hfn; apply Hid].
      assert (functions st_d = functions st) as Hfd by (rewrite Ed; simpl; exact Hfn).
      assert (length (parsers st_d) = S D) as Hld
        by (rewrite Ed; simpl; now rewrite length_insert).
      assert (forall id, (id < D)%nat -> id <> parser ->
                         parsers st_d !!! id = parsers st_b !!! id) as Hsame_d.
      { intros id Hi Hne. rewrite Ed; simpl.
        rewrite list_lookup_total_insert_ne by lia.
        rewrite lookup_total_app_l by (rewrite length_insert; exact Hi).
        now rewrite list_lookup_total_insert_ne. }
      exists news. split; [reflexivity|]. split; [exact Hfd|].
      split; [rewrite Hld; unfold D; lia|].
      split.
      { intros id Hi Hne. rewrite Hsame_d by (unfold D; lia). now apply Hsame_b. }
      split.
      { apply Forall_forall. intros fr Hfr.
        assert (fst (fst fr) ∈ subs) as Hsub.
        { apply list_elem_of_In, in_rev. rewrite <- Hids.
          apply (in_map (fun fr0 : frame => fst (fst fr0)) news fr).
          now apply list_elem_of_In. }
        rewrite Forall_forall in Hrange, Hfresh.
        specialize (Hrange _ Hsub). destruct (Hfresh _ Hsub) as [d Hd].
        split; [rewrite Hld; fold D in Hrange; lia|].
        exists d. rewrite Hsame_d; [exact Hd|fold D in Hrange; lia|lia]. }
      split; [rewrite Hids; now rewrite <- Permutation_rev|].
      exists subs, [dotc]. split.
      { split; rewrite Ed; simpl;
          rewrite list_lookup_total_insert_ne by lia;
          (rewrite lookup_total_app_l by (rewrite length_insert; fold D; lia));
          (rewrite list_lookup_total_insert_eq by (fold D; lia)); reflexivity. }
      split; [exact Hin|].
      exists D. split; [unfold dotc; now rewrite Hfd, Hfn|].
      split.
      { assert (parsers st_c !!! D =
                {| description := None; _defaults := ∅; _actions := [Help] |}) as HcD.
        { unfold st_c; simpl. apply list_lookup_total_middle. now rewrite length_insert. }
        assert (functions st_c = functions st) as Hfc by (unfold st_c; simpl; exact Hfn).
        split; rewrite Ed; cbn [parsers with_parsers];
          (rewrite list_lookup_total_insert_eq by (rewrite Hlc; lia));
          rewrite HcD; simpl.
        - now rewrite insert_empty.
        - reflexivity. }
      split; [rewrite Hld; unfold D; lia|].
      rewrite Hids, <- in_rev. intros HD. apply list_elem_of_In in HD.
      rewrite Forall_forall in Hrange. specialize (Hrange _ HD). fold D in Hrange. lia.
    + injection E as <- <-.
      exists news. split; [reflexivity|]. split; [exact Hfn|]. split; [exact Hle|].
      split; [exact Hsame_b|].
      split.
      { apply Forall_forall. intros fr Hfr.
        assert (fst (fst fr) ∈ subs) as Hsub.
        { apply list_elem_of_In, in_rev. rewrite <- Hids.
          apply (in_map (fun fr0 : frame => fst (fst fr0)) news fr).
          now apply list_elem_of_In. }
        rewrite Forall_forall in Hrange, Hfresh.
        split; [exact (Hrange _ Hsub)|exact (Hfresh _ Hsub)]. }
      split; [rewrite Hids; now rewrite <- Permutation_rev|].
      exists subs, []. split; [|split; [exact Hin|reflexivity]].
      rewrite app_nil_r. split; rewrite Hpb; reflexivity.
  - (* a module that is not walked *)
    rewrite (loop_body_leaf _ _ _ _ _ _ _ Hw) in E.
    destruct entrypoint as [e|].
    + destruct (_set_entrypoint parser e st) as [[[]|ex] st1] eqn:Ee; [|discriminate E].
      injection E as <- <-.
      apply set_entrypoint_state in Ee; [|exact Hlt|apply Hid].
      exists []. split; [reflexivity|]. rewrite Ee. cbn [functions parsers with_parsers].
      rewrite length_insert.
      split; [reflexivity|]. split; [lia|].
      split; [intros id Hi Hne; now rewrite list_lookup_total_insert_ne|].
      split; [constructor|]. split; [constructor|].
      unfold serves. cbn [functions parsers with_parsers].
      rewrite list_lookup_total_insert_eq by assumption. simpl. rewrite Hp. simpl.
      split; [apply insert_singleton_eq|reflexivity].
    + injection E as <- <-. exists [].
      split; [reflexivity|]. split; [reflexivity|]. split; [lia|].
      split; [reflexivity|]. split; [constructor|]. split; [constructor|].
      unfold serves. rewrite Hp. split; reflexivity.
Qed.

Lemma built_intro (self : _Decorator) (decorated_name : string) (st : state)
    (parser : nat) (m : module) (entrypoint : option nat) :
  (if walks self m then
     exists (subs : list nat) (dot : list subcommand),
       serves st parser (PrintHelp parser)
         [Help;
          SubParsers (zip_with submodule_choice (map fst (mod_path m)) subs ++ dot)] /\
       Forall2 (fun (sub : string * module) (id : nat) =>
                  built self decorated_name st id (snd sub)
                    (getattr (snd sub) decorated_name)) (mod_path m) subs /\
       match entrypoint with
       | Some e =>
           exists d,
             dot = [{| sc_name := ".";
                       sc_help := Some (doc_or (fn_doc (functions st !!! e)) (mod_doc m));
                       sc_parser := d |}] /\
             serves st d (Fn e)
               (Help :: arguments_of {[ "entrypoint" := VCallable (Fn e) ]}
                         (fn_signature (functions st !!! e)))
       | None => dot = []
       end
   else
     match entrypoint with
     | Some e =>
         serves st parser (Fn e)
           (Help :: arguments_of {[ "entrypoint" := VCallable (Fn e) ]}
                         (fn_signature (functions st !!! e)))
     | None => serves st parser (PrintHelp parser) [Help]
     end) ->
  built self decorated_name st parser m entrypoint.
Proof.
  destruct m as [name package doc attrs path]. unfold walks. simpl.
  destruct (submodules self && String.eqb name package); [|trivial].
  intros (subs & dot & Hs & Hsubs & Hdot). exists subs, dot.
  split; [exact Hs|]. split; [|exact Hdot].
  clear -Hsubs. induction Hsubs as [|[n sub] id path subs Hb _ IH]; simpl; auto.
Qed.

Lemma serves_same (st st' : state) (parser : nat) (c : callable)
    (actions : list action) :
  parsers st' !!! parser = parsers st !!! parser ->
  serves st parser c actions -> serves st' parser c actions.
Proof. unfold serves. now intros ->. Qed.

(** Every frame on the stack, with its parser as created, mirrors its module
    once the loop has ended, and the parsers that are not on the stack are
    left as they are. *)
Lemma while_stack_built (self : _Decorator) (decorated_name : string)
    (stack : list frame) (st : state) :
  forall st',
    while_stack self decorated_name stack st = (Ok tt, st') ->
    (forall ref, Forall (fun q => isidentifier (p_name q) = true)
                   (fn_signature (functions st !!! ref))) ->
    NoDup (map (fun fr : frame => fst (fst fr)) stack) ->
    Forall (fun fr : frame =>
              (fst (fst fr) < length (parsers st))%nat /\
              exists d, parsers st !!! fst (fst fr) = help_parser d (fst (fst fr)))
      stack ->
    functions st' = functions st /\
    (length (parsers st) <= length (parsers st'))%nat /\
    (forall id, (id < length (parsers st))%nat ->
                ~ In id (map (fun fr : frame => fst (fst fr)) stack) ->
                parsers st' !!! id = parsers st !!! id) /\
    Forall (fun fr : frame =>
              built self decorated_name st' (fst (fst fr)) (snd (fst fr)) (snd fr))
      stack.
Proof.
  funelim (while_stack self decorated_name stack st); intros st'' E Hid Hnd Hstack.
  - injection E as <-. repeat split; auto.
  - destruct top as [[parser m] entrypoint].
    inversion Hstack as [|? ? [Hlt [doc Hp]] Hrest]; subst. simpl in Hlt, Hp.
    simpl in Hnd. apply NoDup_cons in Hnd as [Hnotin Hnd].
    destruct (loop_body_node _ _ _ _ _ _ _ doc _ _ Hid Hlt Hp e)
      as (news & -> & Hfn & Hle & Hsame & Hnews & Hndn & Hnode).
    assert (forall id, In id (map (fun fr : frame => fst (fst fr)) news) ->
                       (length (parsers st) <= id < length (parsers st'))%nat) as Hnew_ids.
    { intros id Hin. apply in_map_iff in Hin as (fr & <- & Hfr).
      rewrite Forall_forall in Hnews. apply list_elem_of_In in Hfr.
      now destruct (Hnews _ Hfr). }
    assert (forall id, In id (map (fun fr : frame => fst (fst fr)) stack) ->
                       (id < length (parsers st))%nat /\ id <> parser) as Hold_ids.
    { intros id Hin. split.
      - apply in_map_iff in Hin as (fr & <- & Hfr).
        rewrite Forall_forall in Hrest. apply list_elem_of_In in Hfr.
        now destruct (Hrest _ Hfr).
      - intros ->. apply Hnotin. now apply list_elem_of_In. }
    match goal with
    | IH : forall st'0, _ = (Ok tt, st'0) -> _ |- _ =>
        destruct (IH st'' E) as (Hfn2 & Hle2 & Hsame2 & Hbuilt)
    end.
    { intros ref. rewrite Hfn. apply Hid. }
    { rewrite map_app. apply NoDup_app. split; [exact Hndn|]. split; [|exact Hnd].
      intros id Hin1 Hin2. apply list_elem_of_In in Hin1, Hin2.
      specialize (Hnew_ids _ Hin1). destruct (Hold_ids _ Hin2). lia. }
    { apply Forall_app. split.
      - eapply Forall_impl; [exact Hnews|]. simpl. intros fr [Hr Hf]. split; [lia|exact Hf].
      - apply Forall_forall. intros fr Hfr.
        assert (In (fst (fst fr)) (map (fun fr : frame => fst (fst fr)) stack)) as Hin
          by (apply (in_map (fun fr0 : frame => fst (fst fr0)) stack fr);
              now apply list_elem_of_In).
        destruct (Hold_ids _ Hin) as [Hl Hne].
        rewrite Forall_forall in Hrest. destruct (Hrest _ Hfr) as [_ [d Hd]].
        split; [lia|]. exists d. now rewrite Hsame. }
    apply Forall_app in Hbuilt as [Hbuilt_new Hbuilt_old].
    assert (forall id, (id < length (parsers st'))%nat ->
                       ~ In id (map (fun fr : frame => fst (fst fr)) news) ->
                       (length (parsers st) <= id)%nat \/ id = parser ->
                       parsers st'' !!! id = parsers st' !!! id) as Hkeep.
    { intros id Hl Hn Hc. apply Hsame2; [exact Hl|].
      rewrite map_app, in_app_iff. intros [Hin|Hin]; [contradiction|].
      destruct (Hold_ids _ Hin). lia. }
    assert (parsers st'' !!! parser = parsers st' !!! parser) as Htop.
    { apply Hkeep; [lia| |now right]. intros Hin. specialize (Hnew_ids _ Hin). lia. }
    split; [now rewrite Hfn2|]. split; [lia|]. split.
    { intros id Hl Hn. simpl in Hn.
      rewrite Hsame2.
      - apply Hsame; [exact Hl|]. intros ->. apply Hn. now left.
      - lia.
      - rewrite map_app, in_app_iff. intros [Hin|Hin].
        + specialize (Hnew_ids _ Hin). lia.
        + apply Hn. now right. }
    constructor; [|exact Hbuilt_old]. simpl.
    apply built_intro. destruct (walks self m).
    + destruct Hnode as (subs & dot & Hs & Hsubs & Hdot).
      exists subs, dot. split; [exact (serves_same _ _ _ _ _ Htop Hs)|]. split.
      * eapply Forall2_impl; [exact Hsubs|]. intros sub id Hin.
        rewrite Forall_forall in Hbuilt_new. apply list_elem_of_In in Hin.
        exact (Hbuilt_new _ Hin).
      * destruct entrypoint as [en|]; [|exact Hdot].
        destruct Hdot as (d & -> & Hd & Hrange & Hnin).
        exists d. rewrite Hfn2. split; [reflexivity|].
        apply (serves_same st'); [|exact Hd].
        apply Hkeep; [lia|exact Hnin|left; lia].
    + destruct entrypoint as [en|]; rewrite ?Hfn2;
        exact (serves_same _ _ _ _ _ Htop Hnode).
  - discriminate E.
Qed.

End TreeFacts.

Section TreeCall.
Context `{PyRuntime}.

Lemma call_built (self : _Decorator) (entrypoint : nat) (st : state) (decorated : nat) :
  (forall ref, Forall (fun q => isidentifier (p_name q) = true)
                 (fn_signature (functions st !!! ref))) ->
  fst (__call__ self entrypoint st) = Ok decorated ->
  built self (fn_name (functions st !!! entrypoint))
    (snd (__call__ self entrypoint st)) (length (parsers st))
    (fn_module (functions st !!! entrypoint)) (Some entrypoint).
Proof.
  intros Hid. rewrite call_enters.
  match goal with
  | |- context [while_stack ?s ?n ?stk ?st3] =>
      pose proof (while_stack_built s n stk st3) as Hb;
      destruct (while_stack s n stk st3) as [[[]|e] st4]; [|discriminate]
  end.
  intros _. simpl.
  destruct (Hb st4 eq_refl) as (_ & _ & _ & Hbuilt).
  - intros ref. simpl. destruct (decide (ref = entrypoint)) as [->|Hne].
    + rewrite signature_decorated. apply Hid.
    + rewrite list_lookup_total_insert_ne by congruence. apply Hid.
  - simpl. repeat constructor. intros Hin. inversion Hin.
  - constructor; [|constructor]. simpl. rewrite length_app. simpl.
    split; [lia|]. eexists. now apply list_lookup_total_middle.
  - now inversion Hbuilt.
Qed.


Lemma built_package (self : _Decorator) (decorated_name : string) (st : state)
    (parser : nat) (m : module) (entrypoint : option nat) :
  walks self m = true ->
  built self decorated_name st parser m entrypoint ->
  exists choices, serves st parser (PrintHelp parser) [Help; SubParsers choices].
Proof.
  destruct m as [name package doc attrs path]. unfold walks. simpl. intros ->.
  intros (subs & dot & Hs & _). eauto.
Qed.

End TreeCall.

(** X16: after a successful decoration the parser tree mirrors the module
    tree.  A package that is walked takes no arguments itself and runs its
    help fallback when no subcommand is given; its subcommands are its
    submodules in the order in which they are listed, hidden when the name
    starts with an underscore, followed by [.] when the package defines the
    entrypoint; a module that is not walked, and the [.] of a package, has
    the parser that runs the entrypoint of the module, with one argument for
    each parameter in the order of the signature (its default being the
    entrypoint when it is stored under [entrypoint] and has none of its own),
    and a module without entrypoint has the parser that runs its help
    fallback. *)
Theorem call_builds_tree `{PyRuntime} (self : _Decorator) (entrypoint : nat)
    (st : state) (decorated : nat) :
  (forall ref, Forall (fun q => isidentifier (p_name q) = true)
                 (fn_signature (functions st !!! ref))) ->
  fst (__call__ self entrypoint st) = Ok decorated ->
  built self (fn_name (functions st !!! entrypoint))
    (snd (__call__ self entrypoint st)) (length (parsers st))
    (fn_module (functions st !!! entrypoint)) (Some entrypoint).
Proof. apply call_built. Qed.

Lemma call_builds_tree_witness :
  @built reference_runtime {| submodules := true |} "entrypoint"
    (snd (@__call__ reference_runtime {| submodules := true |} 0%nat
            (prog_state [param "pos" POSITIONAL_ONLY None (TClass Kint)])))
    0%nat prog (Some 0%nat).
Proof.
  apply (@call_builds_tree reference_runtime {| submodules := true |} 0%nat
           (prog_state [param "pos" POSITIONAL_ONLY None (TClass Kint)]) 0%nat).
  - intros [|[|ref]]; repeat constructor.
  - reflexivity.
Defined.

(** ** From the command line to the call *)

Section RoundTrip.
Context `{PyRuntime}.

Lemma store_values_other (key : string) (qs : list Param) :
  forall (values : list pyvalue) (ns : namespace),
    ~ In key (map p_name qs) ->
    store_values qs values ns !! key = ns !! key.
Proof.
  unfold store_values.
  induction qs as [|q qs IH]; intros [|v values] ns Hn; try reflexivity.
  simpl. rewrite IH by (intros Hin; apply Hn; now right).
  apply lookup_insert_ne. intros E. apply Hn. now left.
Qed.

Lemma store_values_lookup (qs : list Param) :
  forall (values : list pyvalue) (ns : namespace),
    NoDup (map p_name qs) ->
    length values = length qs ->
    Forall2 (fun q v => store_values qs values ns !! p_name q = Some v) qs values.
Proof.
  induction qs as [|q qs IH]; intros [|v values] ns Hnd Hlen; try discriminate Hlen;
    constructor.
  - unfold store_values. simpl.
    change (store_values qs values (<[p_name q := v]> ns) !! p_name q = Some v).
    simpl in Hnd. apply NoDup_cons in Hnd as [Hq _].
    rewrite store_values_other by (intros Hin; apply Hq; now apply list_elem_of_In).
    apply lookup_insert_eq.
  - simpl in Hnd. apply NoDup_cons in Hnd as [_ Hnd].
    apply (IH values (<[p_name q := v]> ns) Hnd). now injection Hlen.
Qed.

Lemma positional_arguments_values (ns : namespace) (qs : list Param)
    (values : list pyvalue) :
  Forall2 (fun q v => ns !! p_name q = Some v) qs values ->
  positional_arguments ns qs = positional_values qs values /\
  keyword_arguments ns qs = keyword_values qs values.
Proof.
  assert (forall (A B : Type) (f : A -> option B) (x : A) (l : list A),
            omap f (x :: l) =
            match f x with Some y => y :: omap f l | None => omap f l end) as Hcons
    by reflexivity.
  unfold positional_arguments, keyword_arguments, positional_values, keyword_values.
  induction 1 as [|q v qs values Hq _ [IHp IHk]]; [split; reflexivity|].
  cbn [combine List.filter fst snd].
  destruct (bool_decide (p_kind q = POSITIONAL_ONLY)); cbn [negb map fst snd];
    rewrite Hcons, Hq; cbn [mbind option_bind]; rewrite IHp, IHk; split; reflexivity.
Qed.

(** A function whose module is not walked, once decorated. *)
Lemma call_leaf_state (self : _Decorator) (entrypoint : nat) (st : state) :
  let f := functions st !!! entrypoint in
  walks self (fn_module f) = false ->
  Forall (fun q => isidentifier (p_name q) = true) (fn_signature f) ->
  NoDup (map p_name (fn_signature f)) ->
  forallb registrable (fn_signature f) = true ->
  __call__ self entrypoint st =
  (Ok entrypoint,
   {| functions :=
        <[entrypoint :=
            {| fn_name := fn_name f; fn_doc := fn_doc f; fn_module := fn_module f;
               fn_signature := fn_signature f;
               fn_iscoroutinefunction := fn_iscoroutinefunction f;
               fn_body := fn_body f;
               cli := Some {| _parser := length (parsers st) |} |}]> (functions st);
      parsers :=
        parsers st ++
        [entrypoint_parser (doc_or (fn_doc f) (mod_doc (fn_module f))) entrypoint
           (fn_signature f)];
      sys_argv := sys_argv st; printed := printed st; calls := calls st |}).
Proof.
  intros f Hw Hid Hnd Hreg. rewrite (call_leaf _ _ _ Hw). fold f.
  match goal with
  | |- context [_set_entrypoint ?p ?e ?st3] =>
      assert (fst (_set_entrypoint p e st3) = Ok tt) as Hok;
      [|destruct (_set_entrypoint p e st3) as [[[]|ex] st4] eqn:E;
        [|discriminate Hok]; apply set_entrypoint_state in E]
  end.
  - unfold _set_entrypoint.
    unfold mbind at 1, set_defaults, mbind at 1, get_parser at 1, put_parser at 1.
    unfold mbind at 1, get_function at 1. simpl functions.
    unfold f. rewrite signature_decorated.
    apply (for_each_registrable _ _ []); auto.
    + simpl. rewrite length_insert, length_app. simpl. lia.
    + simpl. rewrite list_lookup_total_insert_eq by (rewrite length_app; simpl; lia).
      simpl. now rewrite list_lookup_total_middle.
  - rewrite E. unfold with_parsers. simpl. f_equal. f_equal.
    rewrite list_lookup_total_middle by reflexivity.
    unfold f. rewrite signature_decorated.
    rewrite insert_app_r_alt by lia. rewrite Nat.sub_diag. simpl.
    unfold entrypoint_parser. now rewrite insert_singleton_eq.
  - simpl. rewrite length_app. simpl. lia.
  - simpl. unfold f. now rewrite signature_decorated.
Qed.

End RoundTrip.

(** X18: the root of a package takes no command line of its own.  After a
    successful decoration of the entrypoint of a package that is walked, [run]
    on the empty argument list resolves to the help fallback of the root
    parser and raises [KeyError] for its parameter [file]: nothing is
    printed and nothing is called. *)
Theorem run_package_without_subcommand `{PyRuntime} (self : _Decorator)
    (entrypoint : nat) (st : state) (decorated : nat) :
  (forall ref, Forall (fun q => isidentifier (p_name q) = true)
                 (fn_signature (functions st !!! ref))) ->
  walks self (fn_module (functions st !!! entrypoint)) = true ->
  fst (__call__ self entrypoint st) = Ok decorated ->
  run {| _parser := length (parsers st) |} (Some [])
    (snd (__call__ self entrypoint st))
  = (Raise (KeyError "file"), snd (__call__ self entrypoint st)).
Proof.
  intros Hid Hw Hok.
  destruct (built_package _ _ _ _ _ _ Hw (call_built _ _ _ _ Hid Hok))
    as (choices & Hdef & Hact).
  unfold run, mbind, lift. cbn [_parser].
  set (st' := snd (__call__ self entrypoint st)) in *.
  assert (parse_args (parsers st') (length (parsers st)) []
          = Ok {[ "entrypoint" := VCallable (PrintHelp (length (parsers st))) ]})
    as ->.
  { unfold parse_args, parse_known_args, finish, positionals, initial_namespace.
    rewrite Hact, Hdef. simpl. now rewrite (left_id ∅ (∪)). }
  unfold getitem at 1. unfold namespace. rewrite lookup_singleton_eq. simpl.
  unfold getitem, namespace. now rewrite lookup_singleton_ne.
Qed.

Lemma run_package_without_subcommand_witness :
  @run reference_runtime {| _parser := 0 |} (Some [])
    (snd (@__call__ reference_runtime {| submodules := true |} 0%nat
            (prog_state [param "pos" POSITIONAL_ONLY None (TClass Kint)])))
  = (Raise (KeyError "file"),
     snd (@__call__ reference_runtime {| submodules := true |} 0%nat
            (prog_state [param "pos" POSITIONAL_ONLY None (TClass Kint)]))).
Proof.
  apply (@run_package_without_subcommand reference_runtime {| submodules := true |}
           0%nat (prog_state [param "pos" POSITIONAL_ONLY None (TClass Kint)]) 0%nat).
  - intros [|[|ref]]; repeat constructor.
  - reflexivity.
  - reflexivity.
Defined.

(** ** The exceptions of [_set_t] *)

Lemma traverse_raises {A B : Type} (f : A -> result B) (xs : list A) (e : exn) :
  traverse f xs = Raise e -> exists x, In x xs /\ f x = Raise e.
Proof.
  induction xs as [|x xs IH]; simpl; [discriminate|].
  destruct (f x) as [y|e'] eqn:Ex; simpl.
  - destruct (traverse f xs) as [ys|e'']; simpl; [discriminate|].
    intros [= ->]. destruct (IH eq_refl) as (x' & Hin & Hx'). eauto.
  - intros [= ->]. eauto.
Qed.

Lemma set_comprehension_raises (f : pyvalue -> result pyvalue) (xs : list pyvalue)
    (e : exn) :
  forall acc, set_comprehension f xs acc = Raise e ->
              e = TypeError \/ exists x, In x xs /\ f x = Raise e.
Proof.
  induction xs as [|x xs IH]; simpl; intros acc; [discriminate|].
  destruct (f x) as [y|e'] eqn:Ex; simpl.
  - unfold set_add. destruct (hashable y); simpl.
    + intros E. destruct (IH _ E) as [->|(x' & Hin & Hx')]; eauto.
    + intros [= <-]. now left.
  - intros [= ->]. eauto.
Qed.

Lemma dict_comprehension_raises (f g : pyvalue -> result pyvalue)
    (items : list (pyvalue * pyvalue)) (e : exn) :
  forall acc, dict_comprehension f g items acc = Raise e ->
              e = TypeError \/ (exists k, f k = Raise e) \/ (exists x, g x = Raise e).
Proof.
  induction items as [|[k x] items IH]; simpl; intros acc; [discriminate|].
  destruct (f k) as [k'|e'] eqn:Ek; simpl; [|intros [= ->]; eauto].
  destruct (g x) as [x'|e'] eqn:Ex; simpl; [|intros [= ->]; eauto].
  unfold dict_add. destruct (hashable k'); simpl; [apply IH|].
  intros [= <-]. now left.
Qed.

Section Exceptions.
Context `{PyRuntime}.

Lemma set_t_raises (n : nat) :
  forall t, (texpr_size t < n)%nat ->
  forall value e, _set_t value t = Raise e ->
    e = RuntimeError \/ e = IndexError \/ e = TypeError \/
    exists name v, construct name v = Raise e.
Proof.
  induction n as [|n IH]; intros t Hn value e E; [lia|].
  assert (forall A, In A (get_args t) ->
            forall x, _set_t x A = Raise e ->
              e = RuntimeError \/ e = IndexError \/ e = TypeError \/
              exists name v, construct name v = Raise e) as IHarg.
  { intros A HA x Hx. apply (IH A) with (value := x); [|exact Hx].
    apply texpr_size_arg in HA. lia. }
  rewrite set_t_cases in E.
  pose proof (match_case_inv (type_of value) (origin_or_self t) (get_args t)) as Hinv.
  destruct (match_case (type_of value) (origin_or_self t) (get_args t)) eqn:Hcase;
    try discriminate E.
  - destruct Hinv as (_ & _ & HA).
    destruct (dict_comprehension _ _ _ _) as [items|e'] eqn:Ed; [discriminate E|].
    injection E as ->. apply dict_comprehension_raises in Ed as [->|[[k Hk]|[x Hx]]];
      [auto| |].
    + revert Hk. apply IHarg. rewrite HA. now left.
    + revert Hx. apply IHarg. rewrite HA. right. now left.
  - destruct Hinv as (_ & _ & HA).
    destruct (set_comprehension _ _ _) as [elems|e'] eqn:Es; [discriminate E|].
    injection E as ->. apply set_comprehension_raises in Es as [->|(x & _ & Hx)]; [auto|].
    revert Hx. apply IHarg. rewrite HA. now left.
  - destruct Hinv as (_ & _ & HA).
    destruct (traverse _ _) as [elems|e'] eqn:Es; [discriminate E|].
    injection E as ->. apply traverse_raises in Es as (x & _ & Hx).
    revert Hx. apply IHarg. rewrite HA. now left.
  - destruct Hinv as (_ & _ & HA).
    destruct (set_comprehension _ _ _) as [elems|e'] eqn:Es; [discriminate E|].
    injection E as ->. apply set_comprehension_raises in Es as [->|(x & _ & Hx)]; [auto|].
    revert Hx. apply IHarg. rewrite HA. now left.
  - destruct Hinv as (_ & _ & HA).
    destruct (traverse _ _) as [elems|e'] eqn:Es; [discriminate E|].
    injection E as ->. apply traverse_raises in Es as (x & _ & Hx).
    revert Hx. apply IHarg. rewrite HA. now left.
  - destruct Hinv as (_ & _ & HA & _).
    destruct (getitem0 value) as [first|e'] eqn:E0.
    + simpl in E. destruct (_set_t first A0) as [head|e'] eqn:Eh.
      * simpl in E.
        destruct (_set_t (slice_from1 value) (TAlias Ktuple As)) as [rest|e'] eqn:Er;
          [discriminate E|].
        injection E as ->.
        apply (IH (TAlias Ktuple As)) with (value := slice_from1 value); [|exact Er].
        apply texpr_size_tail in HA. lia.
      * injection E as ->. revert Eh. apply IHarg. rewrite HA. now left.
    + injection E as ->. unfold getitem0 in E0.
      destruct (elems_of value); [|discriminate E0]. injection E0 as <-. auto.
  - destruct Hinv as (-> & _ & _). unfold call_origin in E.
    destruct (origin_or_self t) as [[]| | | |];
      try (injection E as <-; auto 6).
    right. right. right. eauto.
  - injection E as <-. auto.
Qed.

End Exceptions.

(** X19: the exceptions of [_set_t].  Whatever the value and the annotation,
    a failure of [_set_t] is the [RuntimeError] of the engine, the
    [IndexError] of a tuple that is too short, a [TypeError] (of an element
    that cannot go into a set or be a key, or of an annotation that cannot be
    called), or an exception raised by the constructor of a user class. *)
Theorem set_t_raises_only `{PyRuntime} (value : pyvalue) (t : texpr) (e : exn) :
  _set_t value t = Raise e ->
  e = RuntimeError \/ e = IndexError \/ e = TypeError \/
  exists name v, construct name v = Raise e.
Proof. apply (set_t_raises (S (texpr_size t))). lia. Qed.

Lemma set_t_raises_only_witness :
  @_set_t reference_runtime (VList [VInt 1; VStr "a"]) (TAlias Klist [TClass Kint])
  = Raise RuntimeError /\
  (RuntimeError = RuntimeError \/ RuntimeError = IndexError \/
   RuntimeError = TypeError \/
   exists name v, @construct reference_runtime name v = Raise RuntimeError).
Proof.
  split; [reflexivity|].
  apply (@set_t_raises_only reference_runtime (VList [VInt 1; VStr "a"])
           (TAlias Klist [TClass Kint]) RuntimeError).
  reflexivity.
Defined.

Section CommandLine.
Context `{PyRuntime}.

(** Tokens that are no flags go to the pending positional arguments, in
    order. *)
Lemma parse_positional_prefix (ps : list ArgumentParser) (p : ArgumentParser)
    (defaults : gmap string pyvalue) (qs : list Param)
    (inputs : list (string * pyvalue)) (rest : list string) :
  Forall2 (fun q (tv : string * pyvalue) =>
             startswith (fst tv) "-" = false /\
             flag_type (annotated_type q) (fst tv) = Ok (snd tv)) qs inputs ->
  Forall (fun q => is_option q = false /\ str_metadata q = true) qs ->
  forall (seen : list string) (ns : namespace),
    parse_known_args ps p (arguments_of defaults qs) seen ns false
      (map fst inputs ++ rest)
    = parse_known_args ps p [] seen (store_values qs (map snd inputs) ns) false rest.
Proof.
  intros Hin. induction Hin as [|q [token v] qs inputs [Htok Hval] _ IH];
    intros Hqs seen ns; [reflexivity|].
  inversion Hqs as [|? ? [Hq Hm] Hqs']; subst. simpl in Htok, Hval.
  cbn [map fst snd arguments_of app parse_known_args].
  unfold parse_optional. rewrite Htok. cbn [negb].
  unfold get_value. rewrite (proj1 (action_of_type _ _ Hm)), Hval. cbn [bind].
  unfold arguments_of in IH. rewrite (IH Hqs').
  unfold store_values. simpl. unfold dest_of. rewrite Hq. reflexivity.
Qed.

(** The flag of an option is found by its exact spelling. *)
Lemma exact_option_flag (doc : option string) (entrypoint : nat)
    (parameters : list Param) (q : Param) :
  Forall (fun q => isidentifier (p_name q) = true) parameters ->
  NoDup (map p_name parameters) ->
  In q parameters -> is_option q = true -> p_name q <> "help" ->
  exact_option (entrypoint_parser doc entrypoint parameters) (flag_name q)
  = Some (Argument (action_of {[ "entrypoint" := VCallable (Fn entrypoint) ]} q)).
Proof.
  intros Hid Hnd Hin Ho Hhelp. unfold exact_option. simpl.
  assert (isidentifier (p_name q) = true) as Hq
    by (rewrite Forall_forall in Hid; apply Hid; now apply list_elem_of_In).
  rewrite bool_decide_eq_false_2.
  2: { rewrite list_elem_of_In. simpl. intros [E|[E|[]]]; [discriminate E|].
       symmetry in E. now apply (flag_name_help q Hq) in E. }
  induction parameters as [|q' qs IH]; [destruct Hin|].
  simpl. inversion Hid as [|? ? Hq' Hid']; subst.
  simpl in Hnd. apply NoDup_cons in Hnd as [Hnot Hnd].
  destruct Hin as [->|Hin].
  - rewrite Ho. rewrite bool_decide_eq_true_2; [reflexivity|]. apply list_elem_of_In. now left.
  - rewrite bool_decide_eq_false_2; [now apply IH|].
    rewrite list_elem_of_In. destruct (is_option q'); [|intros []].
    intros [E|[]]. apply flag_name_inj in E; [|assumption..].
    apply Hnot. rewrite E. apply list_elem_of_In, in_map, Hin.
Qed.

Lemma finish_options_seen (defaults : gmap string pyvalue) (parameters : list Param)
    (seen : list string) (ns : namespace) :
  Forall (fun q => is_option q = true ->
                   In (p_name q) seen /\ startswith (p_name q) "_" = false)
    parameters ->
  finish_options (arguments_of defaults parameters) seen ns = Ok ns.
Proof.
  induction 1 as [|q qs Hq _ IH]; simpl; [reflexivity|]. unfold dest_of.
  destruct (is_option q) eqn:Ho; simpl; [|exact IH].
  destruct (Hq eq_refl) as [Hin Hstart].
  assert (lstrip "_" (p_name q) = p_name q) as -> by (apply lstrip_id; now right).
  rewrite (bool_decide_eq_true_2 (p_name q ∈ seen)) by now apply list_elem_of_In.
  exact IH.
Qed.

(** Each option given by its flag and a token that is no flag takes the
    token as its value. *)
Lemma parse_option_tokens (ps : list ArgumentParser) (doc : option string)
    (entrypoint : nat) (parameters : list Param) :
  Forall (fun q => isidentifier (p_name q) = true) parameters ->
  NoDup (map p_name parameters) ->
  Forall (fun q => is_option q = true ->
                   p_name q <> "help" /\ startswith (p_name q) "_" = false)
    parameters ->
  forall (qs : list Param) (inputs : list (string * pyvalue)),
    Forall2 (fun q (tv : string * pyvalue) =>
               startswith (fst tv) "-" = false /\
               flag_type (annotated_type q) (fst tv) = Ok (snd tv)) qs inputs ->
    Forall (fun q => is_option q = true /\ str_metadata q = true /\ In q parameters)
      qs ->
    forall (seen : list string) (ns : namespace),
      (forall q, In q parameters -> is_option q = true ->
                 In (p_name q) seen \/ In q qs) ->
      parse_known_args ps (entrypoint_parser doc entrypoint parameters) [] seen ns false
        (concat (zip_with (fun q (tv : string * pyvalue) => [flag_name q; fst tv])
                   qs inputs))
      = Ok (store_values qs (map snd inputs) ns, false).
Proof.
  intros Hid Hnd Hnames qs inputs Hin.
  induction Hin as [|q [token v] qs inputs [Htok Hval] _ IH]; intros Hqs seen ns Hseen.
  - simpl. unfold finish. simpl. rewrite finish_options_seen; [reflexivity|].
    apply Forall_forall. intros q Hq Ho. apply list_elem_of_In in Hq.
    rewrite Forall_forall in Hnames.
    destruct (Hnames q (proj2 (list_elem_of_In _ _) Hq) Ho) as [_ Hstart].
    split; [|exact Hstart]. destruct (Hseen q Hq Ho) as [Hs|[]]. exact Hs.
  - inversion Hqs as [|? ? (Ho & Hm & Hq) Hqs']; subst. simpl in Htok, Hval.
    rewrite Forall_forall in Hnames.
    destruct (Hnames q (proj2 (list_elem_of_In _ _) Hq) Ho) as [Hhelp Hstart].
    cbn [zip_with concat app fst snd map parse_known_args].
    unfold parse_optional.
    assert (startswith (flag_name q) "-" = true) as -> by reflexivity. cbn [negb].
    rewrite (exact_option_flag doc entrypoint parameters q Hid Hnd Hq Ho Hhelp).
    unfold parse_optional. rewrite Htok. cbn [negb].
    unfold get_value. rewrite (proj1 (action_of_type _ _ Hm)), Hval. cbn [bind].
    assert (dest (action_of {[ "entrypoint" := VCallable (Fn entrypoint) ]} q)
            = p_name q) as ->.
    { unfold action_of, dest_of; simpl. rewrite Ho. apply lstrip_id. now right. }
    rewrite IH; [reflexivity|exact Hqs'|].
    intros q' Hq' Ho'. destruct (Hseen q' Hq' Ho') as [Hs|[<-|Hs]].
    + left. now right.
    + left. now left.
    + now right.
Qed.

Lemma store_values_app (qs1 qs2 : list Param) (vs1 vs2 : list pyvalue)
    (ns : namespace) :
  length vs1 = length qs1 ->
  store_values (qs1 ++ qs2) (vs1 ++ vs2) ns
  = store_values qs2 vs2 (store_values qs1 vs1 ns).
Proof.
  revert vs1 ns. unfold store_values.
  induction qs1 as [|q qs1 IH]; intros [|v vs1] ns Hlen; try discriminate Hlen;
    [reflexivity|].
  simpl. apply IH. now injection Hlen.
Qed.

Lemma positionals_mixed (doc : option string) (entrypoint : nat)
    (positional options : list Param) :
  Forall (fun q => is_option q = false) positional ->
  Forall (fun q => is_option q = true) options ->
  positionals (entrypoint_parser doc entrypoint (positional ++ options))
  = arguments_of {[ "entrypoint" := VCallable (Fn entrypoint) ]} positional.
Proof.
  intros Hp Ho. unfold positionals. simpl.
  induction Hp as [|q qs Hq _ IH]; simpl.
  - induction Ho as [|q qs Hq _ IH]; simpl; [reflexivity|]. now rewrite Hq.
  - rewrite Hq. simpl. now rewrite IH.
Qed.

End CommandLine.

(** X17: from the command line to the call.  For a decorated function whose
    module is not walked, [run] on the command line that gives each
    positional parameter its token and then each option its flag followed by
    its token (no token starting with a hyphen, each accepted by the converter
    of its parameter) calls the function once with the values that the
    converters make of the tokens: the values of the positional-only
    parameters as positional arguments, in order, and the values of all other
    parameters under their names; and it returns what the function returns.
    The names are identifiers, each declared once, none is [entrypoint], no
    option is named [help] or starts with an underscore, and the metadata of
    an annotation, where there is any, is a string. *)
Theorem run_command_line `{PyRuntime} (self : _Decorator) (entrypoint : nat)
    (st : state) (positional options : list Param)
    (positional_inputs option_inputs : list (string * pyvalue)) :
  let f := functions st !!! entrypoint in
  let st' := snd (__call__ self entrypoint st) in
  let values := map snd (positional_inputs ++ option_inputs) in
  walks self (fn_module f) = false ->
  fn_signature f = positional ++ options ->
  Forall (fun q => is_option q = false /\ is_variadic q = false) positional ->
  Forall (fun q => is_option q = true /\ p_name q <> "help" /\
                   startswith (p_name q) "_" = false) options ->
  Forall (fun q => isidentifier (p_name q) = true) (fn_signature f) ->
  Forall (fun q => str_metadata q = true) (fn_signature f) ->
  NoDup (map p_name (fn_signature f)) ->
  ~ In "entrypoint" (map p_name (fn_signature f)) ->
  Forall2 (fun q (tv : string * pyvalue) =>
             startswith (fst tv) "-" = false /\
             flag_type (annotated_type q) (fst tv) = Ok (snd tv))
    positional positional_inputs ->
  Forall2 (fun q (tv : string * pyvalue) =>
             startswith (fst tv) "-" = false /\
             flag_type (annotated_type q) (fst tv) = Ok (snd tv))
    options option_inputs ->
  run {| _parser := length (parsers st) |}
    (Some (map fst positional_inputs ++
           concat (zip_with (fun q (tv : string * pyvalue) => [flag_name q; fst tv])
                     options option_inputs))) st' =
  (v <- fn_body f (positional_values (fn_signature f) values)
          (keyword_values (fn_signature f) values);;
   Ok (Value v),
   record_call
     {| callee := Fn entrypoint;
        call_args := positional_values (fn_signature f) values;
        call_kwargs := keyword_values (fn_signature f) values |} st').
Proof.
  intros f st' values Hw Hsig Hpos Hopts Hid Hmeta Hnd Hentry Hpin Hoin.
  assert (Forall (fun q => is_option q = false) positional) as Hpos'
    by (eapply Forall_impl; [exact Hpos|]; now intros q [? _]).
  assert (Forall (fun q => is_option q = true) options) as Hopts'
    by (eapply Forall_impl; [exact Hopts|]; now intros q [? _]).
  assert (Forall (fun q => str_metadata q = true) positional /\
          Forall (fun q => str_metadata q = true) options) as [Hmp Hmo]
    by (rewrite Hsig in Hmeta; now apply Forall_app in Hmeta).
  assert (forallb registrable (fn_signature f) = true) as Hreg.
  { apply forallb_forall. intros q Hq.
    assert (str_metadata q = true) as Hmq
      by (rewrite Forall_forall in Hmeta; now apply Hmeta, list_elem_of_In).
    rewrite Hsig in Hq, Hid.
    apply in_app_iff in Hq as [Hq|Hq]; apply list_elem_of_In in Hq; unfold registrable;
      rewrite Hmq.
    - rewrite Forall_forall in Hpos. destruct (Hpos q Hq) as [Ho Hv]. now rewrite Ho, Hv.
    - rewrite Forall_forall in Hopts, Hid.
      destruct (Hopts q Hq) as (Ho & Hhelp & Hstart).
      assert (isidentifier (p_name q) = true) as Hiq
        by (apply Hid, elem_of_app; now right).
      assert (is_variadic q = false) as ->.
      { unfold is_option in Ho. unfold is_variadic. now destruct (p_kind q). }
      rewrite Ho. simpl.
      destruct (String.eqb_spec (p_name q) "help") as [E|_]; [contradiction|].
      assert (lstrip "_" (p_name q) = p_name q) as -> by (apply lstrip_id; now right).
      destruct (String.eqb_spec (p_name q) "") as [E|_]; [|reflexivity].
      now rewrite E in Hiq. }
  unfold st'. rewrite (call_leaf_state self entrypoint st Hw Hid Hnd Hreg). fold f.
  cbn [snd].
  set (st1 := {| functions := _; parsers := _; sys_argv := _; printed := _;
                 calls := _ |}).
  assert (fn_signature (functions st1 !!! entrypoint) = fn_signature f /\
          fn_body (functions st1 !!! entrypoint) = fn_body f /\
          fn_iscoroutinefunction (functions st1 !!! entrypoint)
          = fn_iscoroutinefunction f) as (Hs1 & Hb1 & Hc1).
  { unfold st1; simpl. destruct (decide (entrypoint < length (functions st))%nat).
    - rewrite list_lookup_total_insert_eq by assumption. auto.
    - rewrite list_insert_ge by lia. auto. }
  set (ns := store_values (fn_signature f) values
               (initial_namespace
                  (entrypoint_parser (doc_or (fn_doc f) (mod_doc (fn_module f)))
                     entrypoint (fn_signature f)))).
  assert (parse_args (parsers st1) (length (parsers st))
            (map fst positional_inputs ++
             concat (zip_with (fun q (tv : string * pyvalue) => [flag_name q; fst tv])
                       options option_inputs)) = Ok ns) as Hparse.
  { unfold parse_args, st1. cbn [parsers].
    rewrite list_lookup_total_middle by reflexivity.
    unfold ns, values.
    assert (positionals
              (entrypoint_parser (doc_or (fn_doc f) (mod_doc (fn_module f)))
                 entrypoint (fn_signature f))
            = arguments_of {[ "entrypoint" := VCallable (Fn entrypoint) ]} positional)
      as -> by (rewrite Hsig; now apply positionals_mixed).
    rewrite (parse_positional_prefix _ _ _ _ _ _ Hpin).
    2: { rewrite Forall_forall in Hpos', Hmp. apply Forall_forall. auto. }
    rewrite (parse_option_tokens _ _ _ (fn_signature f) Hid Hnd).
    - cbn [bind snd fst]. rewrite map_app.
      rewrite <- store_values_app, <- Hsig; [reflexivity|].
      rewrite length_map. symmetry. exact (Forall2_length _ _ _ Hpin).
    - rewrite Hsig. apply Forall_app. split.
      + eapply Forall_impl; [exact Hpos'|]. intros q Hq Ho. congruence.
      + eapply Forall_impl; [exact Hopts|]. now intros q (_ & ? & ?) _.
    - exact Hoin.
    - apply Forall_forall. intros q Hq. rewrite Forall_forall in Hopts', Hmo.
      split; [now apply Hopts'|]. split; [now apply Hmo|].
      rewrite Hsig. apply in_app_iff. right. now apply list_elem_of_In.
    - intros q Hq Ho. right. rewrite Hsig in Hq. apply in_app_iff in Hq as [Hq|Hq];
        [|exact Hq].
      rewrite Forall_forall in Hpos'. apply list_elem_of_In in Hq.
      specialize (Hpos' q Hq). congruence. }
  assert (ns !! "entrypoint" = Some (VCallable (Fn entrypoint))) as Hns.
  { unfold ns. rewrite (store_values_other _ _ _ _ Hentry).
    unfold initial_namespace. simpl.
    assert (forall (qs : list Param) (acc : namespace),
              ~ In "entrypoint" (map p_name qs) ->
              Forall (fun q => isidentifier (p_name q) = true) qs ->
              Forall (fun q => is_option q = true -> startswith (p_name q) "_" = false)
                qs ->
              acc !! "entrypoint" = None ->
              fold_left (fun (ns : namespace) (a : action) =>
                           match a with
                           | Argument a =>
                               match ns !! dest a with
                               | Some _ => ns
                               | None => <[dest a := default a]> ns
                               end
                           | _ => ns
                           end)
                (arguments_of {[ "entrypoint" := VCallable (Fn entrypoint) ]} qs) acc
              !! "entrypoint" = None) as Hfold.
    { induction qs as [|q qs IH]; intros acc Hn Hi Hs Hacc; [exact Hacc|].
      inversion Hi as [|? ? Hiq Hi']; inversion Hs as [|? ? Hsq Hs']; subst.
      simpl. unfold dest_of. apply IH; auto.
      - intros Hin. apply Hn. now right.
      - assert ((if is_option q then lstrip "_" (p_name q) else p_name q) = p_name q)
          as ->.
        { destruct (is_option q); [|reflexivity]. apply lstrip_id. right. now apply Hsq. }
        destruct (acc !! p_name q); [exact Hacc|].
        etransitivity; [apply lookup_insert_ne|exact Hacc].
        intros E. apply Hn. now left. }
    assert (Forall (fun q => is_option q = true -> startswith (p_name q) "_" = false)
              (fn_signature f)) as Hstart.
    { rewrite Hsig. apply Forall_app. split.
      - eapply Forall_impl; [exact Hpos'|]. intros q Hq Ho. congruence.
      - eapply Forall_impl; [exact Hopts|]. now intros q (_ & _ & ?) _. }
    etransitivity;
      [apply lookup_union_r, Hfold;
         [exact Hentry|exact Hid|exact Hstart|apply lookup_empty]
      |apply lookup_singleton_eq]. }
  assert (Forall2 (fun q v => ns !! p_name q = Some v) (fn_signature f) values)
    as Hvalues.
  { apply store_values_lookup; [exact Hnd|].
    unfold values. rewrite length_map, length_app, Hsig, length_app.
    rewrite (Forall2_length _ _ _ Hpin), (Forall2_length _ _ _ Hoin). reflexivity. }
  destruct (positional_arguments_values _ _ _ Hvalues) as [Hposv Hkw].
  unfold run, mbind, lift. cbn [_parser]. rewrite Hparse.
  unfold getitem at 1. rewrite Hns. cbn [signature]. rewrite Hs1.
  assert (Forall (fun p => is_Some (ns !! p_name p)) (fn_signature f)) as Hsome.
  { clearbody ns. clear -Hvalues.
    induction Hvalues as [|q v qs vs Hq _ IH]; constructor; eauto. }
  rewrite (collect_partitions ns (fn_signature f) Hnd Hsome [] []) by (simpl; tauto).
  cbn [app fst snd]. rewrite Hposv, Hkw.
  unfold call_entrypoint, iscoroutinefunction. rewrite Hc1, Hb1.
  destruct (fn_iscoroutinefunction f); simpl.
  - unfold bind. now destruct (fn_body f _ _).
  - unfold bind, ret. now destruct (fn_body f _ _).
Qed.

Lemma run_command_line_witness :
  @run reference_runtime {| _parser := 0 |}
    (Some ["1"; "hi"; "--c"; "False"; "--d"; "0.5"])
    (snd (@__call__ reference_runtime cli_decorator 0%nat
            (script_state end_to_end_signature false echo)))
  = (Ok (Value (VTuple [VList [VInt 1];
                        VDict [(VStr "b", VStr "hi"); (VStr "c", VBool false);
                               (VStr "d", VFloat 0.5)]])),
     record_call
       {| callee := Fn 0; call_args := [VInt 1];
          call_kwargs := [("b", VStr "hi"); ("c", VBool false); ("d", VFloat 0.5)] |}
       (snd (@__call__ reference_runtime cli_decorator 0%nat
               (script_state end_to_end_signature false echo)))).
Proof.
  apply (@run_command_line reference_runtime cli_decorator 0%nat
           (script_state end_to_end_signature false echo)
           [param "a" POSITIONAL_ONLY None (TClass Kint);
            param "b" POSITIONAL_OR_KEYWORD None (TClass Kstr)]
           [param "c" POSITIONAL_OR_KEYWORD (Some (VBool true)) (TClass Kbool);
            param "d" KEYWORD_ONLY None (TClass Kfloat)]
           [("1", VInt 1); ("hi", VStr "hi")]
           [("False", VBool false); ("0.5", VFloat 0.5)]).
  - reflexivity.
  - reflexivity.
  - repeat constructor.
  - repeat constructor; discriminate.
  - repeat constructor.
  - repeat constructor.
  - refine (bool_decide_unpack _ _). vm_compute. exact I.
  - simpl. intros [E|[E|[E|[E|[]]]]]; discriminate E.
  - repeat constructor.
  - repeat constructor; vm_compute; reflexivity.
Defined.

(** The condition on the metadata is needed.  With metadata that is no
    string the decoration has raised, the argument is left without its
    converter, and [run] hands the token to the function as it is, not the
    value that the converter of the annotation makes of it. *)
Lemma run_after_metadata_not_str :
  fst (@__call__ reference_runtime cli_decorator 0%nat
         (script_state
            [{| p_name := "a"; p_kind := POSITIONAL_ONLY; p_default := None;
                p_annotation := Annotated (TClass Kint) (VInt 42) |}] false echo))
  = Raise TypeError /\
  @flag_type reference_runtime (TClass Kint) "1" = Ok (VInt 1) /\
  @run reference_runtime {| _parser := 0 |} (Some ["1"])
    (snd (@__call__ reference_runtime cli_decorator 0%nat
            (script_state
               [{| p_name := "a"; p_kind := POSITIONAL_ONLY; p_default := None;
                   p_annotation := Annotated (TClass Kint) (VInt 42) |}] false echo)))
  = (Ok (Value (VTuple [VList [VStr "1"]; VDict []])),
     record_call {| callee := Fn 0; call_args := [VStr "1"]; call_kwargs := [] |}
       (snd (@__call__ reference_runtime cli_decorator 0%nat
               (script_state
                  [{| p_name := "a"; p_kind := POSITIONAL_ONLY; p_default := None;
                      p_annotation := Annotated (TClass Kint) (VInt 42) |}]
                  false echo)))).
Proof. repeat split; vm_compute; reflexivity. Qed.
